(** * Sentence Scratcher: readability analysis and live annotation engine

    A shallow embedding of [readabilityUtils.js] (word, sentence and syllable
    counting, the two Flesch formulas, [analyzeSentence]) and of the two
    variants of [TiptapEditor.jsx] (sentence classifier, word flagging,
    decoration builder, easy-word loading), followed by the properties that
    the specification states about them.

    Conventions of the model.
    - A JavaScript string is the list of its UTF-16 code units ([list N]).
    - [toLowerCase] and [toUpperCase] are modelled on the ASCII letters and
      leave every other code unit unchanged; every token produced by the
      word regex [\b[\w'-]+\b] is ASCII, so word flagging is covered exactly.
      A property whose truth needs the case mapping of other text carries the
      hypothesis that the text is ASCII.
    - A call that can throw returns a [completion]: the value it returns, or
      [Throws].
    - A JavaScript number is an exact rational or one of the IEEE special
      values [Infinity], [-Infinity], [NaN]; the rounding error of binary
      floating point and the sign of zero are not modelled.
    - [null], [undefined] and [-1] used as "nothing" are [None]; what a
      property read on the word map gives is a [mapValue]. *)

From Stdlib Require Import String Ascii.
From Stdlib Require Import ZArith NArith QArith Qround Qabs Lia.
From stdpp Require Import base decidable option list gmap.

Abbreviation jsstring := (list N) (only parsing).

(* ================================================================= *)
(** ** Strings and character classes *)

Module Str.

Local Open Scope N_scope.

(** Code unit of an ASCII character, and the code units of an ASCII literal. *)
Definition ch (a : ascii) : N := N_of_ascii a.

Fixpoint js (s : String.string) : jsstring :=
  match s with
  | String.EmptyString => []
  | String.String a r => ch a :: js r
  end.

Arguments ch a%_char.
Arguments js s%_string.

Definition inRange (lo hi c : N) : bool := (lo <=? c) && (c <=? hi).

(** Membership of a code unit in a bracket class given by its characters. *)
Definition oneOf (cls : String.string) (c : N) : bool := existsb (N.eqb c) (js cls).

Arguments oneOf cls%_string c.

Definition isUpperAZ (c : N) : bool := inRange 65 90 c.     (* [A-Z] *)
Definition isLowerAZ (c : N) : bool := inRange 97 122 c.    (* [a-z] *)
Definition isDigit (c : N) : bool := inRange 48 57 c.       (* \d *)

(** [\w] without the unicode and ignore-case flags: [A-Za-z0-9_]. *)
Definition isWordChar (c : N) : bool :=
  isUpperAZ c || isLowerAZ c || isDigit c || (c =? 95).

(** The class [[\w'-]] of the word regex. *)
Definition isTokenChar (c : N) : bool :=
  isWordChar c || (c =? 39) || (c =? 45).

(** [\s], which is also what [trim] removes: WhiteSpace and LineTerminator. *)
Definition isWhiteSpace (c : N) : bool :=
  inRange 9 13 c || (c =? 32) || (c =? 160) || (c =? 5760) ||
  inRange 8192 8202 c || (c =? 8232) || (c =? 8233) || (c =? 8239) ||
  (c =? 8287) || (c =? 12288) || (c =? 65279).

(** U+2026, the horizontal ellipsis. *)
Definition ellipsis : N := 8230.

(** [[.!?…]] of [splitIntoSentences] and [[.!?]] of [countSentences]. *)
Definition isTerminator (c : N) : bool := oneOf ".!?" c || (c =? ellipsis).
Definition isStop (c : N) : bool := oneOf ".!?" c.

Definition isVowel (c : N) : bool := oneOf "aeiouy" c.      (* [aeiouy] *)

(** [toLowerCase] and [toUpperCase] on ASCII text.  The engine also maps
    the letters outside ASCII, and may change the length of a string there
    (U+0130 lower-cases to two code units); the model leaves every code unit
    above 127 as it is, so these are the engine's functions on ASCII strings
    only. *)
Definition lowerUnit (c : N) : N := if isUpperAZ c then c + 32 else c.
Definition upperUnit (c : N) : N := if isLowerAZ c then c - 32 else c.

Definition toLowerCase (s : jsstring) : jsstring := map lowerUnit s.
Definition toUpperCase (s : jsstring) : jsstring := map upperUnit s.

(** String equality [===]. *)
Definition streq (a b : jsstring) : bool := bool_decide (a = b).

Definition isEmpty (s : jsstring) : bool :=
  match s with [] => true | _ => false end.

Fixpoint dropWhile (p : N -> bool) (s : jsstring) : jsstring :=
  match s with
  | [] => []
  | c :: r => if p c then dropWhile p r else s
  end.

(** [s.trim()] *)
Definition trim (s : jsstring) : jsstring :=
  rev (dropWhile isWhiteSpace (rev (dropWhile isWhiteSpace s))).

(** [s.slice(i, j)] for [0 <= i <= j]. *)
Definition slice (s : jsstring) (i j : nat) : jsstring := take (j - i) (drop i s).

Fixpoint isPrefix (p s : jsstring) : bool :=
  match p, s with
  | [], _ => true
  | _ :: _, [] => false
  | a :: p', b :: s' => (a =? b) && isPrefix p' s'
  end.

(** [s.startsWith(p)] with the letters of [s] compared case-insensitively
    against a lower-case ASCII pattern (a literal prefix under the [i] flag). *)
Definition startsWithCI (p s : jsstring) : bool := isPrefix p (toLowerCase s).

(** Search of [pat] in [text], a suffix of the whole string that starts at
    absolute position [p]. *)
Fixpoint indexOfAt (text pat : jsstring) (p : nat) : option nat :=
  if isPrefix pat text then Some p
  else match text with
       | [] => None
       | _ :: t => indexOfAt t pat (S p)
       end.

(** [text.indexOf(pat, from)]; the start position is clamped to the length,
    and [-1] is [None]. *)
Definition indexOf (text pat : jsstring) (from : nat) : option nat :=
  let k := Nat.min from (length text) in
  indexOfAt (drop k text) pat k.

(** [s.split(/sep+/)] for a character class [sep]: the pieces between
    maximal runs of separators, empty first and last pieces included, and
    one empty piece for the empty string.  [inSep] tells that the previous code unit
    was a separator, [cur] is the piece under construction, reversed. *)
Fixpoint splitRunsAux (sep : N -> bool) (inSep : bool) (cur s : jsstring)
  : list jsstring :=
  match s with
  | [] => [rev cur]
  | c :: r =>
      if sep c then
        if inSep then splitRunsAux sep true cur r
        else rev cur :: splitRunsAux sep true [] r
      else splitRunsAux sep false (c :: cur) r
  end.

Definition splitRuns (sep : N -> bool) (s : jsstring) : list jsstring :=
  splitRunsAux sep false [] s.

(** [.filter(Boolean)] on an array of strings. *)
Definition filterNonEmpty (l : list jsstring) : list jsstring :=
  filter (fun s => isEmpty s = false) l.

End Str.

Import Str.

(* ================================================================= *)
(** ** Numbers *)

(** A JavaScript number: a rational, or one of the three special values. *)
Inductive number :=
| Fin (q : Q)
| PosInf
| NegInf
| NaN.

Module Num.

Local Open Scope Q_scope.

Definition ofZ (z : Z) : number := Fin (inject_Z z).
Definition ofNat (n : nat) : number := ofZ (Z.of_nat n).

Definition isFinite (x : number) : bool :=
  match x with Fin _ => true | _ => false end.

Definition isNaN (x : number) : bool :=
  match x with NaN => true | _ => false end.

Definition Qpositive (q : Q) : bool := negb (Qle_bool q 0).

Definition neg (x : number) : number :=
  match x with
  | Fin q => Fin (- q)
  | PosInf => NegInf
  | NegInf => PosInf
  | NaN => NaN
  end.

Definition add (x y : number) : number :=
  match x, y with
  | NaN, _ | _, NaN => NaN
  | Fin a, Fin b => Fin (a + b)
  | PosInf, NegInf | NegInf, PosInf => NaN
  | PosInf, _ | _, PosInf => PosInf
  | NegInf, _ | _, NegInf => NegInf
  end.

Definition sub (x y : number) : number := add x (neg y).

(** An infinity of the sign of [q], or [NaN] for [0 * Infinity]. *)
Definition scaleInf (q : Q) (inf : number) : number :=
  if Qeq_bool q 0 then NaN
  else if Qpositive q then inf else neg inf.

Definition mul (x y : number) : number :=
  match x, y with
  | NaN, _ | _, NaN => NaN
  | Fin a, Fin b => Fin (a * b)
  | Fin a, inf | inf, Fin a => scaleInf a inf
  | PosInf, PosInf | NegInf, NegInf => PosInf
  | PosInf, NegInf | NegInf, PosInf => NegInf
  end.

(** Division; a zero divisor is the positive zero (the divisors of this
    program are counts). *)
Definition div (x y : number) : number :=
  match x, y with
  | NaN, _ | _, NaN => NaN
  | Fin a, Fin b =>
      if Qeq_bool b 0 then
        if Qeq_bool a 0 then NaN
        else if Qpositive a then PosInf else NegInf
      else Fin (a / b)
  | Fin _, _ => Fin 0
  | _, Fin b => if Qle_bool 0 b then x else neg x
  | _, _ => NaN
  end.

(** [x >= y] and [x > y]; every comparison with [NaN] is false. *)
Definition ge (x y : number) : bool :=
  match x, y with
  | NaN, _ | _, NaN => false
  | Fin a, Fin b => Qle_bool b a
  | PosInf, _ => true
  | _, NegInf => true
  | _, _ => false
  end.

Definition gt (x y : number) : bool :=
  match x, y with
  | NaN, _ | _, NaN => false
  | Fin a, Fin b => negb (Qle_bool a b)
  | PosInf, PosInf | NegInf, NegInf => false
  | PosInf, _ => true
  | _, NegInf => true
  | _, _ => false
  end.

(** [parseFloat(x.toFixed(1))]: the nearest multiple of one tenth, a tie
    going away from zero; [toFixed] prints a magnitude of [1e21] or more in
    full and prints the special values by name, and [parseFloat] reads all of
    them back unchanged.  The rounding is that of the exact value: the engine
    rounds the binary double, which can lie on the other side of a decimal
    tie, so a score of the model can differ from the engine's by one tenth. *)
Definition roundFixed1 (x : number) : number :=
  match x with
  | Fin q =>
      if Qle_bool (inject_Z (10 ^ 21)) (Qabs q) then Fin q
      else
        let n := Qfloor (Qabs q * 10 + (1 # 2)) in
        Fin ((if Qle_bool 0 q then 1 else - (1)) * (inject_Z n / 10))
  | _ => x
  end.

End Num.

(* ================================================================= *)
(** ** readabilityUtils.js *)

(** [n || 1] for a count [n]. *)
Definition orOne (n : nat) : nat := if Nat.eqb n 0 then 1%nat else n.

(** [text.trim().split(/\s+/)] *)
Definition splitWords (text : jsstring) : list jsstring :=
  splitRuns isWhiteSpace (trim text).

Definition countWords (text : jsstring) : nat :=
  length (filterNonEmpty (splitWords text)).

Definition countSentences (text : jsstring) : nat :=
  orOne (length (filter (fun s => (0 <? length (trim s))%nat = true)
                        (splitRuns isStop text))).

(** [word.replace(/(?:[^laeiouy]es|ed|[^laeiouy]e)$/, '')]: the leftmost
    match that reaches the end is the three-unit alternative when it applies,
    and one of the two-unit alternatives otherwise. *)
Definition dropSilentSuffix (w : jsstring) : jsstring :=
  let alt1 :=
    match rev w with
    | c3 :: c2 :: c1 :: r =>
        if negb (oneOf "laeiouy" c1) && N.eqb c2 (ch "e") && N.eqb c3 (ch "s")
        then Some (rev r) else None
    | _ => None
    end in
  let alt23 :=
    match rev w with
    | c2 :: c1 :: r =>
        if (N.eqb c1 (ch "e") && N.eqb c2 (ch "d"))
           || (negb (oneOf "laeiouy" c1) && N.eqb c2 (ch "e"))
        then Some (rev r) else None
    | _ => None
    end in
  match alt1, alt23 with
  | Some r, _ => r
  | None, Some r => r
  | None, None => w
  end.

(** [word.replace(/^y/, '')] *)
Definition dropLeadingY (w : jsstring) : jsstring :=
  match w with
  | c :: r => if N.eqb c (ch "y") then r else w
  | [] => []
  end.

(** Number of matches of [/[aeiouy]{1,2}/g]: scanning from the left, a vowel
    starts a match that also takes the next unit when it is a vowel. *)
Fixpoint vowelGroups (w : jsstring) : nat :=
  match w with
  | [] => 0
  | c :: r =>
      if isVowel c then
        match r with
        | c' :: r' => if isVowel c' then S (vowelGroups r') else S (vowelGroups r)
        | [] => 1
        end
      else vowelGroups r
  end.

Definition countSyllables (word : jsstring) : nat :=
  let word := toLowerCase word in
  if (length word <=? 3)%nat then 1%nat
  else
    let word := dropSilentSuffix word in
    let word := dropLeadingY word in
    let matches := vowelGroups word in
    if Nat.eqb matches 0 then 1%nat else matches.

(** [words.reduce((acc, word) => acc + countSyllables(word), 0)] *)
Definition sumSyllables (words : list jsstring) : nat :=
  fold_left (fun acc word => (acc + countSyllables word)%nat) words 0%nat.

Definition calculateFleschKincaidGrade (text : jsstring) : number :=
  let words := filterNonEmpty (splitWords text) in
  let sentences := countSentences text in
  let syllables := sumSyllables words in
  let wordCount := orOne (length words) in
  let grade :=
    Num.sub
      (Num.add
         (Num.mul (Fin (39 # 100)) (Num.div (Num.ofNat wordCount) (Num.ofNat sentences)))
         (Num.mul (Fin (118 # 10)) (Num.div (Num.ofNat syllables) (Num.ofNat wordCount))))
      (Fin (1559 # 100)) in
  Num.roundFixed1 grade.

Definition calculateFleschReadingEase (text : jsstring) : number :=
  let words := filterNonEmpty (splitWords text) in
  let sentences := countSentences text in
  let syllables := sumSyllables words in
  let wordCount := orOne (length words) in
  let ease :=
    Num.sub
      (Num.sub
         (Fin (206835 # 1000))
         (Num.mul (Fin (1015 # 1000)) (Num.div (Num.ofNat wordCount) (Num.ofNat sentences))))
      (Num.mul (Fin (846 # 10)) (Num.div (Num.ofNat syllables) (Num.ofNat wordCount))) in
  Num.roundFixed1 ease.

Record sentenceAnalysis := {
  text : jsstring;
  wordCount : nat;
  syllableCount : nat;
  grade : number;
}.

Definition analyzeSentence (sentence : jsstring) : sentenceAnalysis :=
  let wordCount := countWords sentence in
  let syllableCount := sumSyllables (splitWords sentence) in
  let sentenceCount := 1%nat in
  let grade :=
    Num.sub
      (Num.add
         (Num.mul (Fin (39 # 100)) (Num.div (Num.ofNat wordCount) (Num.ofNat sentenceCount)))
         (Num.mul (Fin (118 # 10)) (Num.div (Num.ofNat syllableCount) (Num.ofNat wordCount))))
      (Fin (1559 # 100)) in
  {| text := trim sentence;
     wordCount := wordCount;
     syllableCount := syllableCount;
     grade := Num.roundFixed1 grade |}.

(* ================================================================= *)
(** ** TiptapEditor.jsx: helpers shared by the two variants *)

Inductive color := Red | Yellow | Blue.

Global Instance color_eq_dec : EqDecision color.
Proof. solve_decision. Defined.

(** [HARD_SYLLABLES_BY_TARGET = { 6: 3, 8: 4, 10: 5 }], looked up with an
    integer target grade. *)
Definition HARD_SYLLABLES_BY_TARGET (targetGrade : Z) : option Z :=
  match targetGrade with
  | 6 => Some 3
  | 8 => Some 4
  | 10 => Some 5
  | _ => None
  end%Z.

(** [HARD_SYLLABLES_BY_TARGET[targetGrade] ?? 3] *)
Definition hardThreshold (targetGrade : Z) : Z :=
  default 3%Z (HARD_SYLLABLES_BY_TARGET targetGrade).

Definition isAllCaps (w : jsstring) : bool :=
  (1 <? length w)%nat && streq w (toUpperCase w).

(** [/^https?:\/\//i.test(w) || /^www\./i.test(w)] *)
Definition isUrlLike (w : jsstring) : bool :=
  (startsWithCI (js "http://") w || startsWithCI (js "https://") w)
  || startsWithCI (js "www.") w.

(** [/^\d/.test(w)] *)
Definition isNumberLike (w : jsstring) : bool :=
  match w with c :: _ => isDigit c | [] => false end.

(** [/^[A-Z][a-z]/.test(w) && !isAllCaps(w)] *)
Definition isLikelyProperNoun (w : jsstring) : bool :=
  match w with
  | c1 :: c2 :: _ => isUpperAZ c1 && isLowerAZ c2
  | _ => false
  end && negb (isAllCaps w).

(** [wOrig.replace(/^'+|'+$/g, empty)]: the apostrophes at both ends go. *)
Definition stripApostrophes (w : jsstring) : jsstring :=
  let apos c := N.eqb c (ch "'") in
  rev (dropWhile apos (rev (dropWhile apos w))).

(** [smartCase(orig, simple)] for a string [simple]; [orig] is a regex
    match, hence not empty. *)
Definition smartCase (orig simple : jsstring) : jsstring :=
  if isEmpty simple then []
  else if streq orig (toUpperCase orig) then toUpperCase simple
  else
    match orig, simple with
    | o :: _, c :: r => if N.eqb o (upperUnit o) then upperUnit c :: r else simple
    | _, _ => simple
    end.

(** *** Sentence splitting: [text.match(/[^.!?…]+[.!?…]*/g) || []] *)

(** Where the scan stands: before a match, inside the run of
    non-terminators, or inside the run of terminators that closes a match. *)
Inductive splitState := Outside | InBody | InTail.

Fixpoint splitAux (st : splitState) (cur s : jsstring) : list jsstring :=
  match s with
  | [] => match st with Outside => [] | _ => [rev cur] end
  | c :: r =>
      match st, isTerminator c with
      | Outside, true => splitAux Outside [] r
      | Outside, false => splitAux InBody [c] r
      | InBody, true => splitAux InTail (c :: cur) r
      | InBody, false => splitAux InBody (c :: cur) r
      | InTail, true => splitAux InTail (c :: cur) r
      | InTail, false => rev cur :: splitAux InBody [c] r
      end
  end.

Definition splitIntoSentences (text : jsstring) : list jsstring :=
  splitAux Outside [] text.

(** *** Word tokens: the [exec] loop of [/\b[\w'-]+\b/g] *)

Definition nextIsWord (s : jsstring) : bool :=
  match s with c :: _ => isWordChar c | [] => false end.

(** [[\w'-]+\b] anchored at the head of [s]: the quantifier is greedy, so the
    longest run that ends on a word boundary wins. *)
Fixpoint matchBody (s : jsstring) : option jsstring :=
  match s with
  | [] => None
  | c :: r =>
      if isTokenChar c then
        match matchBody r with
        | Some t => Some (c :: t)
        | None => if xorb (isWordChar c) (nextIsWord r) then Some [c] else None
        end
      else None
  end.

(** The whole regex anchored at the head of [s]; [prevWord] tells whether
    the code unit before [s] is a word character. *)
Definition matchWordAt (prevWord : bool) (s : jsstring) : option jsstring :=
  if xorb prevWord (nextIsWord s) then matchBody s else None.

(** All matches with their [index], from left to right; [skip] counts the
    code units still covered by the last match. *)
Fixpoint execAllFrom (idx : nat) (prevWord : bool) (skip : nat) (s : jsstring)
  : list (nat * jsstring) :=
  match s with
  | [] => []
  | c :: r =>
      match skip with
      | S k => execAllFrom (S idx) (isWordChar c) k r
      | O =>
          match matchWordAt prevWord s with
          | Some tok =>
              (idx, tok) :: execAllFrom (S idx) (isWordChar c) (length tok - 1) r
          | None => execAllFrom (S idx) (isWordChar c) 0 r
          end
      end
  end.

Definition execAll (s : jsstring) : list (nat * jsstring) :=
  execAllFrom 0 false 0 s.

(** *** Completions and the values of the word map *)

(** How a call ends: it returns a value or it throws.  The one exception of
    the code modelled here is the [TypeError] of a call on [undefined]. *)
Inductive completion (A : Type) : Type :=
| Returns (a : A)
| Throws.

Arguments Returns {A} a.
Arguments Throws {A}.

#[global] Instance completion_ret : MRet completion := @Returns.

#[global] Instance completion_bind : MBind completion :=
  fun A B f m => match m with Returns a => f a | Throws => Throws end.

#[global] Instance completion_fmap : FMap completion :=
  fun A B f m => match m with Returns a => Returns (f a) | Throws => Throws end.

(** What the property read [SIMPLE_WORD_MAP[lower]] can give: [undefined], a
    string of the map, or a member that the map inherits from
    [Object.prototype] (a built-in function, or the prototype itself for
    [__proto__]).  Such a member is truthy, has no method [toUpperCase] and no
    element 0; [printed] is the text that a template literal makes of it,
    which the engine chooses. *)
Inductive mapValue :=
| Undefined
| Text (s : jsstring)
| Member (printed : jsstring).

Definition truthy (v : mapValue) : bool :=
  match v with
  | Undefined => false
  | Text s => negb (isEmpty s)
  | Member _ => true
  end.

(** The conversion of a template literal. *)
Definition toText (v : mapValue) : jsstring :=
  match v with
  | Undefined => js "undefined"
  | Text s => s
  | Member printed => printed
  end.

(** [smartCase(orig, simple)] for any value of the map.  On a member of
    [Object.prototype] the call [simple.toUpperCase()] of the second line and
    the call [simple[0].toUpperCase()] of the third throw; the last line
    returns the member as it is. *)
Definition smartCaseValue (orig : jsstring) (simple : mapValue) : completion mapValue :=
  match simple with
  | Undefined => Returns (Text [])
  | Text s => Returns (Text (smartCase orig s))
  | Member _ =>
      if streq orig (toUpperCase orig) then Throws
      else
        match orig with
        | o :: _ => if N.eqb o (upperUnit o) then Throws else Returns simple
        | [] => Throws
        end
  end.

(** *** Decorations *)

Inductive decoAttrs :=
| Mark (highlight : color) (tip : jsstring)   (* nodeName "mark" *)
| HardWord (tip : jsstring).                  (* data-hard-word *)

Record decoration := { from : nat; to : nat; attrs : decoAttrs }.

Record node := { typeName : string; textContent : jsstring }.

(** A document, as the nodes and positions that [doc.descendants] visits. *)
Definition document := list (node * nat).

Definition isBlock (n : node) : bool :=
  existsb (String.eqb (typeName n)) ["paragraph"; "list_item"; "heading"]%string.

(** The decoration builder.  The two variants differ in the classifier, in
    the tooltip of a sentence and in the syllable test of a word.  The word
    map of [simpleWordMap.js] is a parameter: [SIMPLE_WORD_MAP key] is what
    the property read [SIMPLE_WORD_MAP[key]] gives.  A call of the builder
    returns the decorations it pushed, or throws. *)
Section Builder.

Variable classify : Z -> number -> Z -> option color.
Variable sentenceTip : color -> nat -> number -> Z -> jsstring.
Variable isHardBySyll : jsstring -> Z -> bool.
Variable SIMPLE_WORD_MAP : jsstring -> mapValue.

Variable targetGrade : Z.
Variable showHardWords : bool.
Variable easySet : gset (list N).

(** The tooltip of a word decoration:
    [suggestion = SIMPLE_WORD_MAP[lower] ? smartCase(wOrig, SIMPLE_WORD_MAP[lower]) : null],
    then the message with the suggestion when it is truthy. *)
Definition hardWordMessage (wOrig lower : jsstring) : completion jsstring :=
  suggestion ← (if truthy (SIMPLE_WORD_MAP lower)
                then smartCaseValue wOrig (SIMPLE_WORD_MAP lower)
                else mret Undefined);
  mret (if truthy suggestion
        then js "Likely hard word, try " ++ [8220%N] ++ toText suggestion ++ [8221%N] ++ js "."
        else js "Likely hard word, consider a simpler option.").

(** The body of the token loop: the tooltip of the decoration pushed for the
    token, or nothing when the token is skipped or not flagged. *)
Definition flagWord (tokenIndex : nat) (wOrig : jsstring) : completion (option jsstring) :=
  let w := stripApostrophes wOrig in
  let lower := toLowerCase w in
  if isEmpty w || isUrlLike w || isNumberLike w then mret None
  else if (0 <? tokenIndex)%nat && isLikelyProperNoun wOrig then mret None
  else if isAllCaps wOrig then mret None
  else
    let isEasy := bool_decide (lower ∈ easySet) in
    let isHard := isHardBySyll w (hardThreshold targetGrade) in
    if negb isEasy && isHard
    then tip ← hardWordMessage wOrig lower; mret (Some tip)
    else mret None.

Fixpoint wordLoop (sentenceFrom tokenIndex : nat) (matches : list (nat * jsstring))
  : completion (list decoration) :=
  match matches with
  | [] => mret []
  | (index, wOrig) :: rest =>
      let wFrom := sentenceFrom + index in
      let wTo := wFrom + length wOrig in
      flagged ← flagWord tokenIndex wOrig;
      later ← wordLoop sentenceFrom (S tokenIndex) rest;
      mret (match flagged with
            | Some tip => {| from := wFrom; to := wTo; attrs := HardWord tip |} :: later
            | None => later
            end)
  end.

Fixpoint sentenceLoop (text : jsstring) (blockFrom : nat) (parts : list jsstring)
    (searchFrom : nat) : completion (list decoration) :=
  match parts with
  | [] => mret []
  | raw :: rest =>
      let s := trim raw in
      if isEmpty s then sentenceLoop text blockFrom rest (searchFrom + length raw)
      else
        let a := analyzeSentence s in
        let color := classify (Z.of_nat (wordCount a)) (grade a) targetGrade in
        match indexOf text s searchFrom with
        | None => sentenceLoop text blockFrom rest (searchFrom + length raw)
        | Some startInNode =>
            let from := blockFrom + startInNode in
            let to := from + length s in
            let mark :=
              match color with
              | Some c =>
                  [{| from := from; to := to;
                      attrs := Mark c (sentenceTip c (wordCount a) (grade a) targetGrade) |}]
              | None => []
              end in
            words ← (if showHardWords then wordLoop from 0 (execAll s) else mret []);
            later ← sentenceLoop text blockFrom rest (startInNode + length s);
            mret (mark ++ words ++ later)
        end
  end.

(** The callback of [doc.descendants]. *)
Definition blockDecorations (n : node) (pos : nat) : completion (list decoration) :=
  if isBlock n then
    let text := textContent n in
    if isEmpty text then mret []
    else sentenceLoop text (pos + 1) (splitIntoSentences text) 0
  else mret [].

Fixpoint buildDecorationsWith (doc : document) : completion (list decoration) :=
  match doc with
  | [] => mret []
  | (n, pos) :: rest =>
      here ← blockDecorations n pos;
      later ← buildDecorationsWith rest;
      mret (here ++ later)
  end.

End Builder.

(* ================================================================= *)
(** ** First variant of TiptapEditor.jsx (inclusive grade margins) *)

Module V1.

Definition ENABLE_BLUE : bool := true.
Definition LONG_SENTENCE_WORDS : Z := 15.
Definition DELTA_HARD : Z := 1.
Definition DELTA_VERY_HARD : Z := 3.
Definition MIN_YELLOW_WORDS_FOR_GRADE : Z := 14.
Definition MIN_RED_WORDS_FOR_GRADE : Z := 18.

Definition classify (words : Z) (grade : number) (target : Z) : option color :=
  let delta := Num.sub grade (Num.ofZ target) in
  if (words <? 8)%Z then None
  else if Num.ge delta (Num.ofZ DELTA_VERY_HARD) && (MIN_RED_WORDS_FOR_GRADE <=? words)%Z
  then Some Red
  else if Num.ge delta (Num.ofZ DELTA_HARD) && (MIN_YELLOW_WORDS_FOR_GRADE <=? words)%Z
  then Some Yellow
  else if ENABLE_BLUE && (LONG_SENTENCE_WORDS <=? words)%Z then Some Blue
  else None.

(** U+2014, the em dash of the messages. *)
Definition emDash : N := 8212.

Definition tooltipMessage (c : color) : jsstring :=
  match c with
  | Red => js "Much harder than your target" ++ [emDash] ++ js "simplify or split."
  | Yellow =>
      js "A bit harder than your target" ++ [emDash] ++ js "try simpler words or a split."
  | Blue => js "Long sentence" ++ [emDash] ++ js "consider a split."
  end.

(** [countSyllables(w) >= thresh] *)
Definition isHard (w : jsstring) (thresh : Z) : bool :=
  (thresh <=? Z.of_nat (countSyllables w))%Z.

Definition buildDecorations (SIMPLE_WORD_MAP : jsstring -> mapValue)
    (targetGrade : Z) (showHardWords : bool) (easySet : gset (list N))
    (doc : document) : completion (list decoration) :=
  buildDecorationsWith classify (fun c _ _ _ => tooltipMessage c) isHard
    SIMPLE_WORD_MAP targetGrade showHardWords easySet doc.

End V1.

(* ================================================================= *)
(** ** Second variant of TiptapEditor.jsx (length rules, strict margins) *)

Module V2.

Record thresholds := {
  enableBlue : bool;
  longSentenceWords : Z;
  hemiHardWords : Z;
  hemiVeryHardWords : Z;
  deltaHard : Z;
  deltaVeryHard : Z;
  minYellowWordsForGrade : Z;
  minRedWordsForGrade : Z;
}.

Definition ENABLE_BLUE : bool := false.
Definition LONG_SENTENCE_WORDS : Z := 15.
Definition HEMI_HARD_WORDS : Z := 20.
Definition HEMI_VERY_HARD_WORDS : Z := 25.
Definition DELTA_HARD : Z := 1.
Definition DELTA_VERY_HARD : Z := 3.
Definition MIN_YELLOW_WORDS_FOR_GRADE : Z := 14.
Definition MIN_RED_WORDS_FOR_GRADE : Z := 18.

(** The constants of the source, as one configuration. *)
Definition constants : thresholds :=
  {| enableBlue := ENABLE_BLUE;
     longSentenceWords := LONG_SENTENCE_WORDS;
     hemiHardWords := HEMI_HARD_WORDS;
     hemiVeryHardWords := HEMI_VERY_HARD_WORDS;
     deltaHard := DELTA_HARD;
     deltaVeryHard := DELTA_VERY_HARD;
     minYellowWordsForGrade := MIN_YELLOW_WORDS_FOR_GRADE;
     minRedWordsForGrade := MIN_RED_WORDS_FOR_GRADE |}.

(** The four tests of the classifier, which the builder evaluates again for
    the tooltip. *)
Definition byLengthHard (th : thresholds) (words : Z) : bool :=
  (hemiVeryHardWords th <=? words)%Z.

Definition byLengthYellow (th : thresholds) (words : Z) : bool :=
  (hemiHardWords th <=? words)%Z.

Definition byDeltaHard (th : thresholds) (words : Z) (grade : number) (target : Z) : bool :=
  Num.gt (Num.sub grade (Num.ofZ target)) (Num.ofZ (deltaVeryHard th))
  && (minRedWordsForGrade th <=? words)%Z.

Definition byDeltaYellow (th : thresholds) (words : Z) (grade : number) (target : Z) : bool :=
  Num.gt (Num.sub grade (Num.ofZ target)) (Num.ofZ (deltaHard th))
  && (minYellowWordsForGrade th <=? words)%Z.

(** [classify] with the thresholds as a parameter. *)
Definition classifyWith (th : thresholds) (words : Z) (grade : number) (target : Z)
  : option color :=
  let delta := Num.sub grade (Num.ofZ target) in
  if (hemiVeryHardWords th <=? words)%Z then Some Red
  else if (hemiHardWords th <=? words)%Z then Some Yellow
  else if Num.gt delta (Num.ofZ (deltaVeryHard th)) && (minRedWordsForGrade th <=? words)%Z
  then Some Red
  else if Num.gt delta (Num.ofZ (deltaHard th)) && (minYellowWordsForGrade th <=? words)%Z
  then Some Yellow
  else if enableBlue th && (longSentenceWords th <=? words)%Z then Some Blue
  else None.

Definition classify : Z -> number -> Z -> option color := classifyWith constants.

Definition tooltipMessage (c : color) (lengthHard lengthYellow deltaHardFired deltaYellowFired : bool)
  : jsstring :=
  match c with
  | Red =>
      if lengthHard && deltaHardFired
      then js "Very hard, long and above target, split and simplify."
      else if lengthHard then js "Very hard, 25 or more words, split this sentence."
      else if deltaHardFired
      then js "Very hard, about 3 grades over target, split and simplify."
      else []
  | Yellow =>
      if lengthYellow && deltaYellowFired
      then js "A bit long and above your target, consider a small rewrite."
      else if lengthYellow then js "A bit long, 20 or more words, consider a split."
      else if deltaYellowFired
      then js "Slightly above your target, try simpler words or a split."
      else []
  | Blue => js "Long sentence, consider a split."
  end.

Definition sentenceTip (c : color) (wordCount : nat) (grade : number) (targetGrade : Z)
  : jsstring :=
  let words := Z.of_nat wordCount in
  tooltipMessage c
    (byLengthHard constants words) (byLengthYellow constants words)
    (byDeltaHard constants words grade targetGrade)
    (byDeltaYellow constants words grade targetGrade).

(** What [syllables] returns: a number, or a property that the object
    literal [exceptions] inherits from [Object.prototype]. *)
Inductive syllableValue :=
| Count (n : Z)
| Inherited (key : jsstring).

(** The own properties of [exceptions]. *)
Definition exceptions : list (jsstring * Z) :=
  [ (js "queue", 2); (js "people", 2); (js "business", 2); (js "every", 2);
    (js "family", 3); (js "chocolate", 3) ]%Z.

Definition ownException (w : jsstring) : option Z :=
  snd <$> List.find (fun kv => streq (fst kv) w) exceptions.

(** The property names of [Object.prototype], which [in] and a property
    read reach through the prototype chain of an object literal; none of
    their values is a number. *)
Definition objectPrototypeKeys : list jsstring :=
  map js [ "constructor"; "hasOwnProperty"; "isPrototypeOf"; "propertyIsEnumerable";
           "toLocaleString"; "toString"; "valueOf"; "__proto__";
           "__defineGetter__"; "__defineSetter__"; "__lookupGetter__";
           "__lookupSetter__" ]%string.

(** The loop of [syllables]: positions holding a vowel whose predecessor
    is not a vowel.  At position 0 the predecessor [w[-1]] is undefined and
    the empty string stands in for it; [vowels.includes] of the empty string
    is true, so the first position never counts. *)
Fixpoint vowelStarts (prevVowel : bool) (w : jsstring) : Z :=
  match w with
  | [] => 0
  | c :: r =>
      ((if isVowel c && negb prevVowel then 1 else 0) + vowelStarts (isVowel c) r)%Z
  end.

Definition endsWithE (w : jsstring) : bool :=
  match rev w with c :: _ => N.eqb c (ch "e") | [] => false end.

Definition syllables (word : jsstring) : syllableValue :=
  let w := filter (fun c => isLowerAZ c || N.eqb c (ch "'") = true) (toLowerCase word) in
  if isEmpty w then Count 0
  else
    match ownException w with
    | Some n => Count n
    | None =>
        if bool_decide (w ∈ objectPrototypeKeys) then Inherited w
        else
          let count := vowelStarts true w in
          let count := if endsWithE w then (count - 1)%Z else count in
          Count (Z.max 1 count)
    end.

(** [syl >= thresh]; a value that is not a number converts to [NaN]. *)
Definition isHardBySyll (w : jsstring) (thresh : Z) : bool :=
  match syllables w with
  | Count n => (thresh <=? n)%Z
  | Inherited _ => false
  end.

Definition buildDecorations (SIMPLE_WORD_MAP : jsstring -> mapValue)
    (targetGrade : Z) (showHardWords : bool) (easySet : gset (list N))
    (doc : document) : completion (list decoration) :=
  buildDecorationsWith classify sentenceTip isHardBySyll
    SIMPLE_WORD_MAP targetGrade showHardWords easySet doc.

End V2.

(** The read [object[key]] on an object literal whose own properties are the
    string entries [entries]: an own entry first, then a member of
    [Object.prototype], whose text is [printed key], else [undefined]. *)
Definition ordinaryObject (entries : jsstring -> option jsstring)
    (printed : jsstring -> jsstring) (key : jsstring) : mapValue :=
  match entries key with
  | Some s => Text s
  | None =>
      if bool_decide (key ∈ V2.objectPrototypeKeys) then Member (printed key)
      else Undefined
  end.

(* ================================================================= *)
(** ** The easy-word set of the [TiptapEditor] component *)

Module EasyWords.

(** minimal easy-word seed; replaced by daleChallEasyWords.json on load *)
Definition MIN_EASY_WORDS : list jsstring :=
  map js
  [ "a";"about";"after";"all";"also";"an";"and";"any";"are";"as";"at";"back";"be";"because";"been";"before";"but";"by";
    "can";"come";"could";"day";"did";"do";"down";"each";"even";"every";"few";"find";"first";"for";"from";"get";"go";
    "good";"had";"has";"have";"he";"her";"here";"him";"his";"how";"i";"if";"in";"into";"is";"it";"just";"know";"like";
    "little";"long";"look";"made";"make";"man";"many";"may";"me";"men";"more";"most";"much";"must";"my";"new";"no";
    "not";"now";"of";"off";"old";"on";"one";"only";"or";"other";"our";"out";"over";"people";"right";"said";"see";"she";
    "so";"some";"than";"that";"the";"their";"them";"then";"there";"these";"they";"this";"time";"to";"two";"up";"us";
    "use";"very";"want";"was";"way";"we";"well";"went";"were";"what";"when";"where";"which";"who";"will";"with";"work";
    "would";"year";"years";"you";"your" ]%string.

(** A parsed JSON payload. *)
#[local] Unset Elimination Schemes.
Inductive json :=
| JNull
| JBool (b : bool)
| JNumber (x : number)
| JString (s : jsstring)
| JArray (items : list json)
| JObject (fields : list (jsstring * json)).
#[local] Set Elimination Schemes.

(** How the one fetch at startup ends: the promise of [fetch] rejects, or a
    response arrives with its [ok] flag and a body that [r.json()] parses
    ([None] when parsing rejects). *)
Inductive fetchOutcome :=
| Rejected
| Responded (ok : bool) (body : option json).

(** [w.toLowerCase()] on an element of the payload: only a string has the
    method, on anything else the call throws a [TypeError]. *)
Definition lowerItem (w : json) : option jsstring :=
  match w with
  | JString s => Some (toLowerCase s)
  | _ => None
  end.

(** [useState(() => new Set(MIN_EASY_WORDS))] *)
Definition initialEasySet : gset (list N) := list_to_set MIN_EASY_WORDS.

(** The effect that loads the list: the easy set after the promise chain
    has settled.  A rejection anywhere in the chain ends in [.catch(() => {})]
    and leaves the state as it is. *)
Definition loadEasyWords (easySet : gset (list N)) (o : fetchOutcome) : gset (list N) :=
  match o with
  | Rejected => easySet
  | Responded ok body =>
      let parsed := if ok then body else Some (JArray []) in
      match parsed with
      | Some (JArray (first :: more)) =>
          match mapM lowerItem (first :: more) with
          | Some words => list_to_set words
          | None => easySet
          end
      | _ => easySet
      end
  end.

End EasyWords.

(* ================================================================= *)
(** ** The plugin state of [DynamicHighlights] *)

Module Plugin.

(** What [tr.getMeta(decoKey)] can give besides [undefined]: a string, an
    object with its own property names, or any other value. *)
Inductive metaValue :=
| MetaString (s : jsstring)
| MetaObject (keys : list jsstring)
| MetaOther.

Record transaction := { docChanged : bool; meta : option metaValue }.

(** The settings that [buildDecorations] reads through its getters. *)
Record liveSettings := {
  targetGrade : Z;
  showHardWords : bool;
  easySet : gset (list N);
}.

(** First variant:
    [meta === "recompute" || (meta && typeof meta === "object" && "recompute" in meta)];
    [Object.prototype] has no property of that name. *)
Definition isRecomputeV1 (m : option metaValue) : bool :=
  match m with
  | Some (MetaString s) => streq s (js "recompute")
  | Some (MetaObject keys) => bool_decide (js "recompute" ∈ keys)
  | _ => false
  end.

(** Second variant: [tr.getMeta(decoKey) === "recompute"]. *)
Definition isRecomputeV2 (m : option metaValue) : bool :=
  match m with
  | Some (MetaString s) => streq s (js "recompute")
  | _ => false
  end.

Definition buildV1 (SIMPLE_WORD_MAP : jsstring -> mapValue) (s : liveSettings)
    (doc : document) : completion (list decoration) :=
  V1.buildDecorations SIMPLE_WORD_MAP (targetGrade s) (showHardWords s) (easySet s) doc.

Definition buildV2 (SIMPLE_WORD_MAP : jsstring -> mapValue) (s : liveSettings)
    (doc : document) : completion (list decoration) :=
  V2.buildDecorations SIMPLE_WORD_MAP (targetGrade s) (showHardWords s) (easySet s) doc.

Section State.

Variable build : liveSettings -> document -> completion (list decoration).
Variable isRecompute : option metaValue -> bool.

(** [init: (_, state) => buildDecorations(state.doc)] *)
Definition init (doc : document) (live : liveSettings) : completion (list decoration) :=
  build live doc.

(** [apply(tr, old, _oldState, newState)], with the document of the new
    state and the settings that the getters give when it runs; it throws
    when [buildDecorations] does. *)
Definition apply (tr : transaction) (old : list decoration) (newDoc : document)
    (live : liveSettings) : completion (list decoration) :=
  if docChanged tr || isRecompute (meta tr) then build live newDoc else mret old.

(** The plugin state after a run of transactions that starts from the state
    [decos].  A transaction whose [apply] throws is not applied: its dispatch
    throws, and the run ends there. *)
Fixpoint run (decos : list decoration)
    (steps : list (transaction * document * liveSettings))
  : completion (list decoration) :=
  match steps with
  | [] => mret decos
  | (tr, newDoc, live) :: rest =>
      next ← apply tr decos newDoc live;
      run next rest
  end.

(** The editor is created, then the transactions are dispatched. *)
Definition session (doc : document) (live : liveSettings)
    (steps : list (transaction * document * liveSettings))
  : completion (list decoration) :=
  decos ← init doc live;
  run decos steps.

End State.

(** First variant, a commit in which the target grade, the toggle or the
    easy set of the component changed: the effects of lines 210-212 copy the
    state of the component into the module variables that the getters read,
    then the effect of lines 244-248 dispatches a transaction that leaves the
    document as it is and carries the meta [{ recompute: Date.now() }]. *)
Definition recomputeV1 : transaction :=
  {| docChanged := false; meta := Some (MetaObject [js "recompute"]) |}.

Definition afterSettingsChangeV1 (SIMPLE_WORD_MAP : jsstring -> mapValue)
    (component : liveSettings) (doc : document) (old : list decoration)
  : completion (list decoration) :=
  let current := component in
  apply (buildV1 SIMPLE_WORD_MAP) isRecomputeV1 recomputeV1 old doc current.

End Plugin.

(* ================================================================= *)
(** ** The statistics of the [TiptapEditor] component *)

Module Stats.

Record stats := {
  wordCount : nat;
  sentenceCount : nat;
  grade : number;
  ease : number;
}.

(** [useState({ wordCount: 0, sentenceCount: 0, grade: 0, ease: 0 })] *)
Definition initial : stats :=
  {| wordCount := 0; sentenceCount := 0; grade := Num.ofZ 0; ease := Num.ofZ 0 |}.

(** What [debouncedStats] stores for the text of the editor. *)
Definition debouncedStats (fullText : jsstring) : stats :=
  {| wordCount := countWords fullText;
     sentenceCount := countSentences fullText;
     grade := calculateFleschKincaidGrade fullText;
     ease := calculateFleschReadingEase fullText |}.

Definition hasText (s : stats) : bool :=
  (0 <? wordCount s)%nat && (0 <? sentenceCount s)%nat.

(** [hasText ? stats.grade.toFixed(1) : dash]: the number that is printed
    with one decimal, or nothing for the dash. *)
Definition gradeDisplay (s : stats) : option number :=
  if hasText s then Some (Num.roundFixed1 (grade s)) else None.

Definition easeDisplay (s : stats) : option number :=
  if hasText s then Some (Num.roundFixed1 (ease s)) else None.

End Stats.

(* ================================================================= *)
(** ** Preferences kept in [localStorage] *)

Module Prefs.

(** [localStorage]: its items, and whether reading and writing succeed
    (either may throw, and every access sits in a [try]). *)
Record storage := {
  readable : bool;
  writable : bool;
  items : gmap (list N) (list N);
}.

(** [getItem]: [None] when the access throws, [Some None] for [null]. *)
Definition getItem (st : storage) (key : jsstring) : option (option jsstring) :=
  if readable st then Some (items st !! key) else None.

(** [setItem] inside [try { ... } catch {}]. *)
Definition setItem (st : storage) (key value : jsstring) : storage :=
  if writable st
  then {| readable := readable st; writable := writable st;
          items := <[key := value]> (items st) |}
  else st.

(** TiptapEditor: [localStorage.getItem("ssShowHard") !== "0"], [true] when
    the access throws. *)
Definition initialShowHard (st : storage) : bool :=
  match getItem st (js "ssShowHard") with
  | Some (Some v) => negb (streq v (js "0"))
  | Some None => true
  | None => true
  end.

Definition persistShowHard (showHardWords : bool) (st : storage) : storage :=
  setItem st (js "ssShowHard") (if showHardWords then js "1" else js "0").

(** App: [localStorage.getItem("ssHelpOpen") === "1"], [false] when the
    access throws. *)
Definition initialHelpOpen (st : storage) : bool :=
  match getItem st (js "ssHelpOpen") with
  | Some (Some v) => streq v (js "1")
  | Some None => false
  | None => false
  end.

Definition persistHelpOpen (helpOpen : bool) (st : storage) : storage :=
  setItem st (js "ssHelpOpen") (if helpOpen then js "1" else js "0").

(** ThemeToggle: [localStorage.getItem("ssTheme") || "classic"], and
    ["classic"] when the access throws. *)
Definition initialTheme (st : storage) : jsstring :=
  match getItem st (js "ssTheme") with
  | Some (Some v) => if isEmpty v then js "classic" else v
  | Some None => js "classic"
  | None => js "classic"
  end.

(** The click handler: [theme === "arcade" ? "classic" : "arcade"]. *)
Definition toggleTheme (theme : jsstring) : jsstring :=
  if streq theme (js "arcade") then js "classic" else js "arcade".

Definition isArcade (theme : jsstring) : bool := streq theme (js "arcade").

Definition persistTheme (theme : jsstring) (st : storage) : storage :=
  setItem st (js "ssTheme") theme.

End Prefs.

(* ================================================================= *)
(** * Vocabulary of the properties *)

Definition isLetter (c : N) : bool := isUpperAZ c || isLowerAZ c.

(** A word token: letters, with apostrophes and hyphens allowed inside. *)
Definition isWordToken (w : jsstring) : bool :=
  match w with c :: _ => isLetter c | [] => false end
  && forallb (fun c => isLetter c || N.eqb c (ch "'") || N.eqb c (ch "-")) w
  && match rev w with c :: _ => isLetter c | [] => false end.

(** The lexical filters of the specification, in its order: empty after
    stripping apostrophes, URL-like, number-like, likely proper noun that is
    not the first token, acronym.  A token passes when none applies. *)
Definition passesFilters (tokenIndex : nat) (wOrig : jsstring) : bool :=
  let w := stripApostrophes wOrig in
  negb (isEmpty w) && negb (isUrlLike w) && negb (isNumberLike w)
  && negb ((0 <? tokenIndex)%nat && isLikelyProperNoun wOrig)
  && negb (isAllCaps wOrig).

(** The states that the easy set of the component can take: the seed, and
    what a load makes of a state. *)
Inductive reachable : gset (list N) -> Prop :=
| reach_init : reachable EasyWords.initialEasySet
| reach_load (s : gset (list N)) (o : EasyWords.fetchOutcome) :
    reachable s -> reachable (EasyWords.loadEasyWords s o).

(** [t] occurs in [s] at position [i]. *)
Definition occursAt (t s : jsstring) (i : nat) : Prop :=
  exists a b, s = a ++ t ++ b /\ length a = i.

Section Reproduction.

Variable classify : Z -> number -> Z -> option color.
Variable isHardBySyll : jsstring -> Z -> bool.
Variable SIMPLE_WORD_MAP : jsstring -> mapValue.
Variable targetGrade : Z.
Variable easySet : gset (list N).

(** The substring of the text of block [n], placed at [pos], that the range
    of [d] covers. *)
Definition sliceOfBlock (n : node) (pos : nat) (d : decoration) : jsstring :=
  slice (textContent n) (from d - (pos + 1)) (to d - (pos + 1)).

(** Decoration [d] of block [n] reproduces what was analysed: a trimmed
    sentence fragment that the classifier tagged with the colour of the mark,
    or a token of such a fragment that the word test flagged. *)
Definition reproduces (n : node) (pos : nat) (d : decoration) : Prop :=
  exists raw,
    raw ∈ splitIntoSentences (textContent n) /\ trim raw <> [] /\
    (pos + 1 <= from d /\ from d <= to d
     /\ to d <= pos + 1 + length (textContent n))%nat /\
    match attrs d with
    | Mark c _ =>
        sliceOfBlock n pos d = trim raw
        /\ classify (Z.of_nat (wordCount (analyzeSentence (trim raw))))
             (grade (analyzeSentence (trim raw))) targetGrade = Some c
    | HardWord tip =>
        exists k index wOrig,
          execAll (trim raw) !! k = Some (index, wOrig)
          /\ flagWord isHardBySyll SIMPLE_WORD_MAP targetGrade easySet k wOrig
             = Returns (Some tip)
          /\ sliceOfBlock n pos d = wOrig
    end.

End Reproduction.

(** The thresholds of the source with the very-long threshold lowered to 22
    and the long threshold to 16. *)
Definition tunedThresholds : V2.thresholds :=
  {| V2.enableBlue := V2.ENABLE_BLUE;
     V2.longSentenceWords := V2.LONG_SENTENCE_WORDS;
     V2.hemiHardWords := 16;
     V2.hemiVeryHardWords := 22;
     V2.deltaHard := V2.DELTA_HARD;
     V2.deltaVeryHard := V2.DELTA_VERY_HARD;
     V2.minYellowWordsForGrade := V2.MIN_YELLOW_WORDS_FOR_GRADE;
     V2.minRedWordsForGrade := V2.MIN_RED_WORDS_FOR_GRADE |}.

(** The text that V8 prints for a built-in function, and for the prototype
    object that [__proto__] gives. *)
Definition printedByV8 (key : jsstring) : jsstring :=
  if streq key (js "__proto__") then js "[object Object]"
  else if streq key (js "constructor") then js "function Object() { [native code] }"
  else js "function " ++ key ++ js "() { [native code] }".

(** A word map without entries, and one with an entry. *)
Definition noMap : jsstring -> mapValue := ordinaryObject (fun _ => None) printedByV8.

Definition sampleMap : jsstring -> mapValue :=
  ordinaryObject
    (fun key => if streq key (js "extraordinarily") then Some (js "very") else None)
    printedByV8.

(** The token loop returned with a decoration for the token. *)
Definition flagged (o : completion (option jsstring)) : Prop :=
  exists tip, o = Returns (Some tip).

Definition sampleBlock : node :=
  {| typeName := "paragraph"; textContent := js "We saw extraordinarily big cats." |}.

Definition sampleDoc : document := [(sampleBlock, 0%nat)].

Definition sampleWordMark : decoration :=
  {| from := 8; to := 23;
     attrs := HardWord (js "Likely hard word, consider a simpler option.") |}.

(** A paragraph whose first token lower-cases to a property name of
    [Object.prototype]. *)
Definition constructorDoc : document :=
  [({| typeName := "paragraph";
       textContent := js "Constructor functions build objects." |}, 0%nat)].

(** The end-to-end input of the specification. *)
Definition endToEnd : document :=
  [({| typeName := "paragraph";
       textContent :=
         js "The cat sat. This extraordinarily protracted circumlocutory sentence contains considerably more than eighteen individual lexical tokens and should absolutely be classified as excessively difficult." |},
    0%nat)].

Definition marks (ds : list decoration) : list (nat * nat * color) :=
  omap (fun d => match attrs d with
                 | Mark c _ => Some (from d, to d, c)
                 | HardWord _ => None
                 end) ds.

(** The code units below 128. *)
Definition isAscii (c : N) : bool := (c <? 128)%N.

(** Number of vowel letters of a word. *)
Definition vowelCount (w : jsstring) : nat :=
  length (filter (fun c => isVowel c = true) w).

(** The pieces that the filter of [countSentences] keeps. *)
Definition nonBlankPieces (l : list jsstring) : list jsstring :=
  filter (fun s => (0 <? length (trim s))%nat = true) l.

(** Tags in the order of their severity. *)
Definition severity (tag : option color) : nat :=
  match tag with
  | None => 0
  | Some Blue => 1
  | Some Yellow => 2
  | Some Red => 3
  end.

(** A sentence fragment: a non-empty run without terminator, followed by
    terminators. *)
Definition isFragment (p : jsstring) : Prop :=
  exists body tail,
    p = body ++ tail /\ body <> []
    /\ forallb (fun c => negb (isTerminator c)) body = true
    /\ forallb isTerminator tail = true.

(** The last code unit is a word character. *)
Definition lastIsWord (t : jsstring) : bool := nextIsWord (rev t).

(** What the scan of the word regex knows when it tries a position: right
    after a word character, or after the units that the last match covers,
    nothing matches. *)
Definition scanInv (prev : bool) (skip : nat) (s : jsstring) : Prop :=
  match skip with
  | O => prev = true -> matchBody s = None
  | S _ => matchBody (drop skip s) = None
  end.

(** Matches in increasing order without overlap, none starting before [lo]. *)
Fixpoint orderedFrom (lo : nat) (l : list (nat * jsstring)) : Prop :=
  match l with
  | [] => True
  | (i, t) :: r => (lo <= i)%nat /\ orderedFrom (i + length t) r
  end.

Definition isMark (d : decoration) : bool :=
  match attrs d with Mark _ _ => true | HardWord _ => false end.

(** A decoration moved by [k] positions. *)
Definition shift (k : nat) (d : decoration) : decoration :=
  {| from := from d + k; to := to d + k; attrs := attrs d |}.

(** The sentence marks of a list of decorations come in increasing order
    without overlap, none starting before [lo]. *)
Fixpoint marksOrdered (lo : nat) (ds : list decoration) : Prop :=
  match ds with
  | [] => True
  | d :: r =>
      if isMark d then (lo <= from d /\ from d <= to d)%nat /\ marksOrdered (to d) r
      else marksOrdered lo r
  end.

(** The state that the plugin has to reflect after a run: the settings and
    the document of the last transaction. *)
Fixpoint finalState (live : Plugin.liveSettings) (doc : document)
    (steps : list (Plugin.transaction * document * Plugin.liveSettings))
  : Plugin.liveSettings * document :=
  match steps with
  | [] => (live, doc)
  | (_, newDoc, live') :: rest => finalState live' newDoc rest
  end.

(** A run in which a transaction that neither changes the document nor asks
    for a recompute leaves both the document and the settings as they were. *)
Fixpoint coherent (isRecompute : option Plugin.metaValue -> bool)
    (live : Plugin.liveSettings) (doc : document)
    (steps : list (Plugin.transaction * document * Plugin.liveSettings)) : Prop :=
  match steps with
  | [] => True
  | (tr, newDoc, live') :: rest =>
      (Plugin.docChanged tr = false -> isRecompute (Plugin.meta tr) = false ->
       newDoc = doc /\ live' = live)
      /\ coherent isRecompute live' newDoc rest
  end.

(** Worked inputs of the further properties. *)
Definition theCatSat : jsstring := js "The cat sat.".

Definition sampleSentence : jsstring := js "We saw extraordinarily big cats.".

(** A block of two sentences of fifteen short words each. *)
Definition twoLongSentences : node :=
  {| typeName := "paragraph";
     textContent :=
       js "a a a a a a a a a a a a a a a. b b b b b b b b b b b b b b b." |}.

Definition grade6 : Plugin.liveSettings :=
  {| Plugin.targetGrade := 6; Plugin.showHardWords := true; Plugin.easySet := ∅ |}.

Definition grade8 : Plugin.liveSettings :=
  {| Plugin.targetGrade := 8; Plugin.showHardWords := true; Plugin.easySet := ∅ |}.

(** The transaction that the effect of the first variant dispatches after a
    change of settings, and a transaction that changes the document. *)
Definition recomputeTr : Plugin.transaction :=
  {| Plugin.docChanged := false;
     Plugin.meta := Some (Plugin.MetaObject [js "recompute"]) |}.

Definition typingTr : Plugin.transaction :=
  {| Plugin.docChanged := true; Plugin.meta := None |}.

Definition sampleRun : list (Plugin.transaction * document * Plugin.liveSettings) :=
  [(typingTr, sampleDoc, grade6); (recomputeTr, sampleDoc, grade8)].

Definition emptyStorage : Prefs.storage :=
  {| Prefs.readable := true; Prefs.writable := true; Prefs.items := ∅ |}.

Definition firstMark : decoration :=
  {| from := 1; to := 31; attrs := Mark Blue (V1.tooltipMessage Blue) |}.

Definition secondMark : decoration :=
  {| from := 32; to := 62; attrs := Mark Blue (V1.tooltipMessage Blue) |}.

(** A payload of one capitalized word. *)
Definition samplePayload : list EasyWords.json :=
  [EasyWords.JString (js "Extraordinarily")].

(** A paragraph with two hard words, and the decoration of the second. *)
Definition twoHardWords : document :=
  [({| typeName := "paragraph";
       textContent := js "We saw extraordinarily complicated cats." |}, 0%nat)].

Definition complicatedMark : decoration :=
  {| from := 24; to := 35;
     attrs := HardWord (js "Likely hard word, consider a simpler option.") |}.

(* ================================================================= *)
(** * Properties *)

(** ** Sentence classifier *)

Section Classifier.

Local Open Scope Z_scope.

Lemma v1_short_none (words : Z) (grade : number) (target : Z) :
  words < 8 -> V1.classify words grade target = None.
Proof.
  intros H. unfold V1.classify.
  destruct (Z.ltb_spec words 8) as [_ | E]; [reflexivity | lia].
Qed.

Lemma v2_below_floors_none (words : Z) (grade : number) (target : Z) :
  words < 14 -> V2.classify words grade target = None.
Proof.
  intros H. unfold V2.classify, V2.classifyWith. simpl.
  unfold V2.HEMI_VERY_HARD_WORDS, V2.HEMI_HARD_WORDS, V2.MIN_RED_WORDS_FOR_GRADE,
    V2.MIN_YELLOW_WORDS_FOR_GRADE, V2.ENABLE_BLUE.
  destruct (Z.leb_spec 25 words); [lia |].
  destruct (Z.leb_spec 20 words); [lia |].
  destruct (Z.leb_spec 18 words); [lia |].
  destruct (Z.leb_spec 14 words); [lia |].
  rewrite !andb_false_r. reflexivity.
Qed.

(** C4. A sentence of fewer than 8 words is classified as none whatever its
    grade and the target grade, by both variants of the classifier: the first
    returns before any other rule, the second has no rule that a count below
    14 can reach. *)
Theorem short_sentence_never_flagged (words : Z) (grade : number) (target : Z) :
  words < 8 ->
  V1.classify words grade target = None /\ V2.classify words grade target = None.
Proof.
  intros H. split.
  - apply v1_short_none, H.
  - apply v2_below_floors_none. lia.
Qed.

Lemma short_sentence_never_flagged_witness :
  7 < 8 /\
  V1.classify 7 (Fin 50) 6 = None /\ V2.classify 7 (Fin 50) 6 = None.
Proof.
  split; [lia |]. apply (short_sentence_never_flagged 7 (Fin 50) 6). lia.
Defined.

(** The guard also wins against an infinite or undefined grade. *)
Lemma short_sentence_special_grades (words target : Z) :
  words < 8 ->
  V1.classify words PosInf target = None /\ V1.classify words NaN target = None.
Proof. intros H. split; apply v1_short_none, H. Qed.

Lemma classifyWith_very_long (th : V2.thresholds) (words : Z) (grade : number)
    (target : Z) :
  V2.hemiVeryHardWords th <= words ->
  V2.classifyWith th words grade target = Some Red.
Proof.
  intros H. unfold V2.classifyWith.
  destruct (Z.leb_spec (V2.hemiVeryHardWords th) words); [reflexivity | lia].
Qed.

(** C2. In the variant that has an absolute-length rule, a word count that
    reaches the very-long threshold classifies as red for every grade, every
    target grade and every setting of the thresholds; in particular 22 words
    are red whenever the threshold is at most 22, and with the constants of
    the source every count of 25 or more is red. *)
Theorem very_long_sentence_is_red (th : V2.thresholds) (words : Z) (grade : number)
    (target : Z) :
  V2.hemiVeryHardWords th <= words ->
  V2.classifyWith th words grade target = Some Red
  /\ (V2.hemiVeryHardWords th <= 22 -> V2.classifyWith th 22 grade target = Some Red)
  /\ (V2.HEMI_VERY_HARD_WORDS <= words -> V2.classify words grade target = Some Red).
Proof.
  intros H. split; [| split].
  - apply classifyWith_very_long, H.
  - apply classifyWith_very_long.
  - apply (classifyWith_very_long V2.constants).
Qed.

Lemma very_long_sentence_is_red_witness :
  V2.hemiVeryHardWords tunedThresholds <= 22 /\
  V2.classifyWith tunedThresholds 22 (Fin 0) 6 = Some Red.
Proof.
  assert (H : V2.hemiVeryHardWords tunedThresholds <= 22) by discriminate.
  split; [exact H |].
  exact (proj1 (very_long_sentence_is_red tunedThresholds 22 (Fin 0) 6 H)).
Defined.

(** The rule does not look at the grade: an infinite or undefined grade
    changes nothing. *)
Corollary very_long_special_grades (words target : Z) :
  V2.HEMI_VERY_HARD_WORDS <= words ->
  V2.classify words PosInf target = Some Red /\ V2.classify words NaN target = Some Red.
Proof. intros H. split; apply (classifyWith_very_long V2.constants), H. Qed.

(** With the constants of the source the threshold is 25, and 22 words alone
    give yellow. *)
Example source_twenty_two_words :
  V2.classify 22 (Fin 0) 6 = Some Yellow.
Proof. reflexivity. Qed.

(** The first variant has no absolute-length rule: a long sentence at or
    below the target is blue. *)
Example v1_long_easy_sentence :
  V1.classify 40 (Fin 2) 6 = Some Blue.
Proof. reflexivity. Qed.

(** C1. The second variant tests the two length thresholds before the two
    grade margins: with 20 words, grade 10 and target 6 the length rule gives
    yellow, the grade rule for red fires as well, and the result is yellow,
    where the first variant answers red. *)
Theorem length_yellow_hides_delta_red :
  V2.byLengthYellow V2.constants 20 = true /\
  V2.byLengthHard V2.constants 20 = false /\
  V2.byDeltaHard V2.constants 20 (Fin 10) 6 = true /\
  V2.classify 20 (Fin 10) 6 = Some Yellow /\
  V1.classify 20 (Fin 10) 6 = Some Red.
Proof. repeat split. Qed.

(** The same on the whole range: from 20 to 24 words the second variant
    answers yellow even when the red grade rule fires. *)
Lemma delta_red_hidden_from_20_to_24 (words : Z) (grade : number) (target : Z) :
  20 <= words < 25 ->
  V2.byDeltaHard V2.constants words grade target = true ->
  V2.classify words grade target = Some Yellow.
Proof.
  intros H _. unfold V2.classify, V2.classifyWith. simpl.
  unfold V2.HEMI_VERY_HARD_WORDS, V2.HEMI_HARD_WORDS.
  destruct (Z.leb_spec 25 words); [lia |].
  destruct (Z.leb_spec 20 words); [reflexivity | lia].
Qed.

(** A red answer of a rule is never lowered when the length rule is the one
    for red, nor in the first variant. *)
Lemma v1_delta_red_wins (words : Z) (grade : number) (target : Z) :
  8 <= words ->
  Num.ge (Num.sub grade (Num.ofZ target)) (Num.ofZ V1.DELTA_VERY_HARD) = true ->
  V1.MIN_RED_WORDS_FOR_GRADE <= words ->
  V1.classify words grade target = Some Red.
Proof.
  intros Hw Hd Hr. unfold V1.classify.
  destruct (Z.ltb_spec words 8); [lia |].
  rewrite Hd. destruct (Z.leb_spec V1.MIN_RED_WORDS_FOR_GRADE words); [reflexivity | lia].
Qed.

(** C8. The two classifiers are not extensionally equal: with 18 words, a
    grade of 9 and a target of 6 the grade delta is exactly the very-hard
    margin; the inclusive comparison of the first variant gives red, the
    strict comparison of the second gives yellow. *)
Theorem classifiers_differ_at_margin :
  exists (words : Z) (grade : number) (target : Z),
    Num.sub grade (Num.ofZ target) = Num.ofZ V1.DELTA_VERY_HARD /\
    V1.DELTA_VERY_HARD = V2.DELTA_VERY_HARD /\
    V1.classify words grade target = Some Red /\
    V2.classify words grade target = Some Yellow /\
    V1.classify words grade target <> V2.classify words grade target.
Proof.
  exists 18, (Fin (inject_Z 9)), 6.
  repeat split. discriminate.
Qed.

End Classifier.

(** ** Character ranges *)

(** Turns the range tests of the context and of the goal into inequalities
    and leaves them to [lia]. *)
Ltac ranges :=
  unfold isLetter, isUpperAZ, isLowerAZ, isDigit, inRange in *;
  repeat match goal with
         | H : _ && _ = true |- _ => apply andb_true_iff in H as [? ?]
         | H : (_ <=? _)%N = true |- _ => apply N.leb_le in H
         | H : (_ <=? _)%N = false |- _ => apply N.leb_gt in H
         end;
  rewrite ?andb_true_iff, ?andb_false_iff, ?N.leb_le, ?N.leb_gt;
  lia.

Lemma upper_plus_32_lower (c : N) : isUpperAZ c = true -> isLowerAZ (c + 32)%N = true.
Proof. intros H. ranges. Qed.

Lemma upper_not_lower (c : N) : isUpperAZ c = true -> isLowerAZ c = false.
Proof. intros H. ranges. Qed.

Lemma upper_not_digit (c : N) : isUpperAZ c = true -> isDigit c = false.
Proof. intros H. ranges. Qed.

Lemma lower_minus_32_differs (c : N) : isLowerAZ c = true -> (c - 32)%N <> c.
Proof. intros H. ranges. Qed.

(** ** Syllable estimators *)

Section Syllables.

Lemma countSyllables_pos (word : jsstring) : (1 <= countSyllables word)%nat.
Proof.
  unfold countSyllables.
  destruct (length (toLowerCase word) <=? 3)%nat; [lia |].
  destruct (Nat.eqb_spec (vowelGroups (dropLeadingY (dropSilentSuffix (toLowerCase word)))) 0);
    lia.
Qed.

Lemma countSyllables_short (word : jsstring) :
  (length word <= 3)%nat -> countSyllables word = 1%nat.
Proof.
  intros H. unfold countSyllables, toLowerCase. rewrite length_map.
  destruct (Nat.leb_spec (length word) 3); [reflexivity | lia].
Qed.

Lemma lowerUnit_letter (c : N) : isLetter c = true -> isLowerAZ (lowerUnit c) = true.
Proof.
  unfold isLetter, lowerUnit. destruct (isUpperAZ c) eqn:U; simpl.
  - intros _. apply upper_plus_32_lower, U.
  - trivial.
Qed.

Lemma ownException_ge_2 (w : jsstring) (n : Z) :
  V2.ownException w = Some n -> (2 <= n)%Z.
Proof.
  unfold V2.ownException, V2.exceptions. simpl.
  repeat (destruct (streq _ w); [intros [= <-]; simpl; lia |]).
  discriminate.
Qed.

(** The second estimator gives at least 1 whenever it gives a number and
    the word keeps a letter or an apostrophe. *)
Lemma syllables_count_pos (word : jsstring) (n : Z) :
  isWordToken word = true -> V2.syllables word = V2.Count n -> (1 <= n)%Z.
Proof.
  intros Hw. unfold V2.syllables.
  set (w := filter _ (toLowerCase word)).
  assert (Hne : isEmpty w = false).
  { subst w. destruct word as [| c r]; [discriminate |].
    unfold isWordToken in Hw. simpl in Hw.
    apply andb_true_iff in Hw as [Hw _]. apply andb_true_iff in Hw as [Hc _].
    apply lowerUnit_letter in Hc. simpl.
    rewrite filter_cons_True; [reflexivity |].
    rewrite Hc. reflexivity. }
  rewrite Hne.
  destruct (V2.ownException w) as [m |] eqn:Hex.
  - intros [= <-]. apply ownException_ge_2 in Hex. lia.
  - destruct (bool_decide _); [discriminate |].
    intros [= <-]. lia.
Qed.

(** It gives a number on every token but the inherited property names. *)
Lemma syllables_number (word : jsstring) :
  let w := filter (fun c => isLowerAZ c || N.eqb c (ch "'") = true) (toLowerCase word) in
  w ∉ V2.objectPrototypeKeys -> exists n, V2.syllables word = V2.Count n.
Proof.
  intros w Hw. unfold V2.syllables. fold w.
  destruct (isEmpty w); [eauto |].
  destruct (V2.ownException w); [eauto |].
  rewrite bool_decide_eq_false_2 by exact Hw. eauto.
Qed.

(** Lower-case letters and apostrophes spell one inherited name only. *)
Lemma inherited_only_constructor (w : jsstring) :
  forallb (fun c => isLowerAZ c || N.eqb c (ch "'")) w = true ->
  w ∈ V2.objectPrototypeKeys -> w = js "constructor".
Proof.
  intros Hw Hin. unfold V2.objectPrototypeKeys in Hin. cbn [map] in Hin.
  repeat (apply elem_of_cons in Hin as [-> | Hin];
          [first [reflexivity | discriminate Hw] |]).
  inversion Hin.
Qed.

(** Hence, on a word token, [syllables] returns a number of at least 1
    unless the letters of the token spell "constructor". *)
Lemma syllables_pos_but_constructor (word : jsstring) :
  isWordToken word = true ->
  filter (fun c => isLowerAZ c || N.eqb c (ch "'") = true) (toLowerCase word)
    <> js "constructor" ->
  exists n, V2.syllables word = V2.Count n /\ (1 <= n)%Z.
Proof.
  intros Hw Hc.
  destruct (syllables_number word) as [n Hn].
  - intros Hin. apply Hc, inherited_only_constructor; [| exact Hin].
    apply forallb_forall. intros c Hcin.
    apply list_elem_of_In, list_elem_of_filter in Hcin as [Hcin _]. exact Hcin.
  - exists n. split; [exact Hn |]. eapply syllables_count_pos; eassumption.
Qed.

(** C9. The first estimator [countSyllables] returns an integer of at least
    1 on every word and exactly 1 on a word of at most three code units, see
    [countSyllables_pos] and [countSyllables_short].  The second estimator
    [syllables] looks its word up with [in], which follows the prototype
    chain: on the word token "constructor" it returns the inherited property
    of [Object.prototype], a function and not an integer, and no threshold
    makes the word hard. *)
Theorem syllables_constructor_not_a_number :
  isWordToken (js "constructor") = true /\
  V2.syllables (js "constructor") = V2.Inherited (js "constructor") /\
  (forall thresh : Z, V2.isHardBySyll (js "constructor") thresh = false) /\
  countSyllables (js "constructor") = 3%nat.
Proof. repeat split. Qed.

End Syllables.

(** ** Readability scores *)

Section Scores.

Lemma orOne_pos (n : nat) : (1 <= orOne n)%nat.
Proof. unfold orOne. destruct n; simpl; lia. Qed.

Lemma countSentences_pos (text : jsstring) : (1 <= countSentences text)%nat.
Proof. apply orOne_pos. Qed.

(** A quotient of two counts is finite as soon as the divisor is not 0. *)
Lemma div_counts_finite (a b : nat) :
  (1 <= b)%nat ->
  Num.div (Num.ofNat a) (Num.ofNat b)
  = Fin (inject_Z (Z.of_nat a) / inject_Z (Z.of_nat b)).
Proof.
  intros H. unfold Num.div, Num.ofNat, Num.ofZ.
  destruct (Qeq_bool (inject_Z (Z.of_nat b)) 0) eqn:E; [| reflexivity].
  apply Qeq_bool_eq in E. unfold Qeq in E. simpl in E. lia.
Qed.

Lemma roundFixed1_finite (q : Q) : Num.isFinite (Num.roundFixed1 (Fin q)) = true.
Proof. unfold Num.roundFixed1. destruct (Qle_bool _ _); reflexivity. Qed.

(** [calculateFleschKincaidGrade] floors both counts at 1 and is finite on
    every text. *)
Lemma calculateFleschKincaidGrade_finite (text : jsstring) :
  Num.isFinite (calculateFleschKincaidGrade text) = true.
Proof.
  unfold calculateFleschKincaidGrade.
  rewrite !div_counts_finite by (apply orOne_pos || apply countSentences_pos).
  apply roundFixed1_finite.
Qed.

(** So is [calculateFleschReadingEase]. *)
Lemma calculateFleschReadingEase_finite (text : jsstring) :
  Num.isFinite (calculateFleschReadingEase text) = true.
Proof.
  unfold calculateFleschReadingEase.
  rewrite !div_counts_finite by (apply orOne_pos || apply countSentences_pos).
  apply roundFixed1_finite.
Qed.

(** [analyzeSentence] divides by the unfloored word count: its grade is
    finite when the sentence has a word. *)
Lemma analyzeSentence_finite (sentence : jsstring) :
  (1 <= countWords sentence)%nat ->
  Num.isFinite (grade (analyzeSentence sentence)) = true.
Proof.
  intros H. unfold analyzeSentence. cbn [grade].
  rewrite !div_counts_finite by (exact H || lia).
  apply roundFixed1_finite.
Qed.

Lemma splitRunsAux_nonempty (sep : N -> bool) (inSep : bool) (cur s : jsstring) :
  (1 <= length (splitRunsAux sep inSep cur s))%nat.
Proof.
  revert inSep cur. induction s as [| c r IH]; intros inSep cur; simpl; [lia |].
  destruct (sep c), inSep; simpl; try apply IH.
  pose proof (IH true []). lia.
Qed.

Lemma fold_syllables_ge (words : list jsstring) (acc : nat) :
  (acc + length words
   <= fold_left (fun a word => (a + countSyllables word)%nat) words acc)%nat.
Proof.
  revert acc. induction words as [| w words IH]; intros acc; simpl; [lia |].
  pose proof (IH (acc + countSyllables w)%nat).
  pose proof (countSyllables_pos w). lia.
Qed.

(** [split] always yields a piece and every piece counts for a syllable. *)
Lemma sumSyllables_splitWords_pos (sentence : jsstring) :
  (1 <= sumSyllables (splitWords sentence))%nat.
Proof.
  unfold sumSyllables, splitWords, splitRuns.
  pose proof (fold_syllables_ge (splitRunsAux isWhiteSpace false [] (trim sentence)) 0).
  pose proof (splitRunsAux_nonempty isWhiteSpace false [] (trim sentence)).
  lia.
Qed.

(** Without a word the grade of [analyzeSentence] is [Infinity]. *)
Lemma analyzeSentence_no_words (sentence : jsstring) :
  countWords sentence = 0%nat -> grade (analyzeSentence sentence) = PosInf.
Proof.
  intros H. unfold analyzeSentence. cbn [grade]. rewrite H.
  pose proof (sumSyllables_splitWords_pos sentence) as Hs.
  set (sc := sumSyllables (splitWords sentence)) in *.
  assert (D : Num.div (Num.ofNat sc) (Num.ofNat 0) = PosInf).
  { unfold Num.div, Num.ofNat, Num.ofZ.
    change (Qeq_bool (inject_Z (Z.of_nat 0)) 0) with true. cbv iota.
    destruct (Qeq_bool (inject_Z (Z.of_nat sc)) 0) eqn:E.
    - apply Qeq_bool_eq in E. unfold Qeq in E. simpl in E. lia.
    - unfold Num.Qpositive.
      destruct (Qle_bool (inject_Z (Z.of_nat sc)) 0) eqn:L; [| reflexivity].
      apply Qle_bool_iff in L. unfold Qle in L. simpl in L. lia. }
  rewrite D. reflexivity.
Qed.

(** Its grade is never [NaN]: it is finite or [Infinity]. *)
Lemma analyzeSentence_never_NaN (sentence : jsstring) :
  Num.isNaN (grade (analyzeSentence sentence)) = false.
Proof.
  destruct (countWords sentence) as [| k] eqn:H.
  - rewrite (analyzeSentence_no_words sentence H). reflexivity.
  - assert (F : Num.isFinite (grade (analyzeSentence sentence)) = true)
      by (apply analyzeSentence_finite; lia).
    destruct (grade (analyzeSentence sentence)); try reflexivity. discriminate F.
Qed.

(** C3. [analyzeSentence] does not floor its word count.  On the empty
    string [[]], and on a string of blanks, [split] still yields one empty
    piece, which counts for one syllable, while the word count is 0: the
    quotient is [1 / 0] and the grade is [Infinity], not a finite score.  The
    two Flesch functions floor the count and stay finite on the same input. *)
Theorem analyzeSentence_empty_not_finite :
  wordCount (analyzeSentence []) = 0%nat /\
  syllableCount (analyzeSentence []) = 1%nat /\
  grade (analyzeSentence []) = PosInf /\
  grade (analyzeSentence (js "   ")) = PosInf /\
  Num.isFinite (grade (analyzeSentence [])) = false /\
  calculateFleschKincaidGrade [] = Fin (-152 # 10) /\
  Num.isFinite (calculateFleschReadingEase []) = true.
Proof. repeat split. Qed.

End Scores.

(** ** Easy-word set *)

Section EasySet.

Import EasyWords.

Lemma list_to_set_nonempty (l : list jsstring) :
  l <> [] -> (list_to_set l : gset (list N)) <> ∅.
Proof.
  destruct l as [| x l]; [congruence |]. intros _.
  rewrite list_to_set_cons. set_solver.
Qed.

Lemma initialEasySet_nonempty : initialEasySet <> ∅.
Proof.
  apply list_to_set_nonempty. intros H.
  apply (f_equal length) in H. vm_compute in H. discriminate.
Qed.

(** A load replaces the set only on a successful response whose payload is
    an array with a first element. *)
Lemma load_replaces_only_nonempty_array (s : gset (list N)) (o : fetchOutcome) :
  loadEasyWords s o <> s ->
  exists first more, o = Responded true (Some (JArray (first :: more))).
Proof.
  destruct o as [| [|] [[| | | | [| first more] |] |]]; simpl; try congruence.
  eauto.
Qed.

Lemma load_nonempty (s : gset (list N)) (o : fetchOutcome) :
  s <> ∅ -> loadEasyWords s o <> ∅.
Proof.
  intros Hs.
  destruct o as [| [|] [[| | | | [| first more] |] |]];
    cbv beta iota zeta delta [loadEasyWords]; try exact Hs.
  destruct (mapM lowerItem (first :: more)) as [words |] eqn:E; [| exact Hs].
  apply list_to_set_nonempty. intros ->.
  apply length_mapM in E. discriminate.
Qed.

(** The three outcomes that the specification names keep the set. *)
Lemma load_keeps_on_failure (s : gset (list N)) :
  loadEasyWords s Rejected = s /\
  (forall body, loadEasyWords s (Responded false body) = s) /\
  (forall ok, loadEasyWords s (Responded ok (Some (JArray []))) = s) /\
  (forall ok x, loadEasyWords s (Responded ok (Some (JNumber x))) = s) /\
  (forall ok t, loadEasyWords s (Responded ok (Some (JString t))) = s) /\
  (forall ok f, loadEasyWords s (Responded ok (Some (JObject f))) = s) /\
  (forall ok, loadEasyWords s (Responded ok (Some JNull)) = s).
Proof. repeat split; intros; try destruct ok; reflexivity. Qed.

(** C10. The easy-word set is never empty: the seed is not empty, and from a
    state that is reachable every outcome of the load leads to a set that is
    not empty, the set being replaced only when the payload is an array with
    at least one element. *)
Theorem easy_set_never_empty (s : gset (list N)) :
  reachable s ->
  s <> ∅ /\
  forall o : fetchOutcome,
    loadEasyWords s o <> ∅ /\
    (loadEasyWords s o <> s ->
     exists first more, o = Responded true (Some (JArray (first :: more)))).
Proof.
  intros H.
  assert (Hs : s <> ∅).
  { induction H as [| s o _ IH]; [apply initialEasySet_nonempty |].
    apply load_nonempty, IH. }
  split; [exact Hs |]. intros o. split.
  - apply load_nonempty, Hs.
  - apply load_replaces_only_nonempty_array.
Qed.

Lemma easy_set_never_empty_witness :
  reachable (loadEasyWords initialEasySet (Responded true (Some (JArray [])))) /\
  loadEasyWords initialEasySet (Responded true (Some (JArray []))) <> ∅.
Proof.
  split.
  - apply reach_load, reach_init.
  - apply (easy_set_never_empty
             (loadEasyWords initialEasySet (Responded true (Some (JArray []))))).
    apply reach_load, reach_init.
Defined.

(** A payload of strings does replace the seed, wholesale. *)
Example load_replaces_seed :
  loadEasyWords initialEasySet (Responded true (Some (JArray [JString (js "Cat")])))
  = {[ js "cat" ]}.
Proof. simpl. set_solver. Qed.

End EasySet.

(** ** Word flagging *)

Section WordFlagging.

Variable SIMPLE_WORD_MAP : jsstring -> mapValue.
Variable targetGrade : Z.
Variable easySet : gset (list N).

(** The tooltip is built whenever the read of the map gives a string or
    nothing. *)
Lemma hardWordMessage_returns (wOrig lower : jsstring) :
  (forall printed, SIMPLE_WORD_MAP lower <> Member printed) ->
  exists tip, hardWordMessage SIMPLE_WORD_MAP wOrig lower = Returns tip.
Proof.
  intros H. unfold hardWordMessage.
  destruct (SIMPLE_WORD_MAP lower) as [| s | printed]; simpl.
  - eauto.
  - destruct (negb (isEmpty s)); simpl; eauto.
  - contradiction (H printed eq_refl).
Qed.

(** On a member of [Object.prototype] the tooltip is built only for a token
    that starts with a unit that upper-casing changes. *)
Lemma hardWordMessage_member (wOrig lower printed : jsstring) :
  SIMPLE_WORD_MAP lower = Member printed ->
  hardWordMessage SIMPLE_WORD_MAP wOrig lower
  = if streq wOrig (toUpperCase wOrig) then Throws
    else match wOrig with
         | o :: _ =>
             if N.eqb o (upperUnit o) then Throws
             else Returns (js "Likely hard word, try " ++ [8220%N] ++ printed
                             ++ [8221%N] ++ js ".")
         | [] => Throws
         end.
Proof.
  intros E. unfold hardWordMessage. rewrite E. simpl.
  destruct (streq wOrig (toUpperCase wOrig)); [reflexivity |].
  destruct wOrig as [| o r]; [reflexivity |].
  destruct (N.eqb o (upperUnit o)); reflexivity.
Qed.

(** A token that passes the filters reaches the two criteria. *)
Lemma flagWord_passing (isHardBySyll : jsstring -> Z -> bool)
    (tokenIndex : nat) (wOrig : jsstring) :
  passesFilters tokenIndex wOrig = true ->
  flagWord isHardBySyll SIMPLE_WORD_MAP targetGrade easySet tokenIndex wOrig
  = if negb (bool_decide (toLowerCase (stripApostrophes wOrig) ∈ easySet))
       && isHardBySyll (stripApostrophes wOrig) (hardThreshold targetGrade)
    then tip ← hardWordMessage SIMPLE_WORD_MAP wOrig (toLowerCase (stripApostrophes wOrig));
         mret (Some tip)
    else Returns None.
Proof.
  unfold passesFilters, flagWord. intros H.
  repeat (apply andb_true_iff in H as [H ?]).
  repeat match goal with
         | Hn : negb ?b = true |- _ => apply negb_true_iff in Hn; rewrite ?Hn
         end.
  reflexivity.
Qed.

Lemma flagWord_filtered (isHardBySyll : jsstring -> Z -> bool)
    (tokenIndex : nat) (wOrig : jsstring) :
  passesFilters tokenIndex wOrig = false ->
  flagWord isHardBySyll SIMPLE_WORD_MAP targetGrade easySet tokenIndex wOrig = Returns None.
Proof.
  unfold passesFilters, flagWord.
  destruct (isEmpty _), (isUrlLike _), (isNumberLike _),
    ((0 <? tokenIndex)%nat && isLikelyProperNoun wOrig), (isAllCaps wOrig);
    simpl; intros H; first [reflexivity | discriminate H].
Qed.

(** A passing token is left without decoration exactly when one of the two
    criteria fails. *)
Lemma flagWord_skips_iff (isHardBySyll : jsstring -> Z -> bool)
    (tokenIndex : nat) (wOrig : jsstring) :
  passesFilters tokenIndex wOrig = true ->
  flagWord isHardBySyll SIMPLE_WORD_MAP targetGrade easySet tokenIndex wOrig = Returns None
  <-> ~ (isHardBySyll (stripApostrophes wOrig) (hardThreshold targetGrade) = true
         /\ toLowerCase (stripApostrophes wOrig) ∉ easySet).
Proof.
  intros H. rewrite (flagWord_passing _ _ _ H).
  case_bool_decide as He; simpl.
  - split; [intros _ [_ Hn]; contradiction | reflexivity].
  - destruct (isHardBySyll _ _); simpl.
    + split.
      * destruct (hardWordMessage _ _ _); discriminate.
      * intros Hn. exfalso. apply Hn. split; [reflexivity | exact He].
    + split; [intros _ [[=] _] | reflexivity].
Qed.

(** A decoration is pushed only for a passing token that answers both
    criteria. *)
Lemma flagWord_flagged_inv (isHardBySyll : jsstring -> Z -> bool)
    (tokenIndex : nat) (wOrig tip : jsstring) :
  flagWord isHardBySyll SIMPLE_WORD_MAP targetGrade easySet tokenIndex wOrig
  = Returns (Some tip) ->
  passesFilters tokenIndex wOrig = true
  /\ isHardBySyll (stripApostrophes wOrig) (hardThreshold targetGrade) = true
  /\ toLowerCase (stripApostrophes wOrig) ∉ easySet.
Proof.
  intros E. destruct (passesFilters tokenIndex wOrig) eqn:P.
  - split; [reflexivity |]. rewrite (flagWord_passing _ _ _ P) in E.
    case_bool_decide as He; simpl in E; [discriminate E |].
    destruct (isHardBySyll _ _); [| discriminate E].
    split; [reflexivity | exact He].
  - rewrite (flagWord_filtered _ _ _ P) in E. discriminate E.
Qed.

(** With a suggestion that is a string or nothing, a passing token is
    flagged exactly when it answers both criteria. *)
Lemma flagWord_flags_iff (isHardBySyll : jsstring -> Z -> bool)
    (tokenIndex : nat) (wOrig : jsstring) :
  passesFilters tokenIndex wOrig = true ->
  (forall printed,
     SIMPLE_WORD_MAP (toLowerCase (stripApostrophes wOrig)) <> Member printed) ->
  flagged (flagWord isHardBySyll SIMPLE_WORD_MAP targetGrade easySet tokenIndex wOrig)
  <-> isHardBySyll (stripApostrophes wOrig) (hardThreshold targetGrade) = true
      /\ toLowerCase (stripApostrophes wOrig) ∉ easySet.
Proof.
  intros H HM. split.
  - intros [tip E]. apply flagWord_flagged_inv in E as (_ & Hh & He). split; assumption.
  - intros [Hh He]. rewrite (flagWord_passing _ _ _ H), Hh.
    rewrite bool_decide_eq_false_2 by exact He. simpl.
    destruct (hardWordMessage_returns wOrig _ HM) as [tip ->].
    exists tip. reflexivity.
Qed.

Lemma hardThreshold_table (target : Z) :
  hardThreshold target
  = (if target =? 6 then 3 else if target =? 8 then 4 else if target =? 10 then 5 else 3)%Z.
Proof.
  unfold hardThreshold, HARD_SYLLABLES_BY_TARGET.
  destruct target as [| p | p]; try reflexivity.
  do 4 (destruct p as [p | p |]; try reflexivity).
Qed.

End WordFlagging.

(** C6. The flagging rule of the specification fails in the first variant on
    the token [Constructor] that opens a sentence.  For a word map that is an
    ordinary object without an entry of its own for [constructor], and an
    easy set without that word, at target grade 6: the token passes every
    filter, its 3 syllables reach the threshold 3 and its lower-cased form is
    not in the easy set, so the rule asks for a flag; but the read
    [SIMPLE_WORD_MAP["constructor"]] gives the function that the map inherits
    from [Object.prototype], [smartCase] calls [toUpperCase] on its element 0,
    which is [undefined], and throws.  The token is not flagged, and
    [buildDecorations] throws for a document that holds it. *)
Theorem constructor_token_throws_instead_of_flag
    (entries : jsstring -> option jsstring) (printed : jsstring -> jsstring)
    (easySet : gset (list N)) :
  entries (js "constructor") = None -> js "constructor" ∉ easySet ->
  passesFilters 0 (js "Constructor") = true
  /\ (hardThreshold 6 <= Z.of_nat (countSyllables (stripApostrophes (js "Constructor"))))%Z
  /\ (toLowerCase (stripApostrophes (js "Constructor")) ∉ easySet)
  /\ flagWord V1.isHard (ordinaryObject entries printed) 6 easySet 0 (js "Constructor")
     = Throws
  /\ V1.buildDecorations (ordinaryObject entries printed) 6 true easySet constructorDoc
     = Throws.
Proof.
  intros He Hs.
  assert (Hl : toLowerCase (stripApostrophes (js "Constructor")) = js "constructor")
    by reflexivity.
  assert (Hf : flagWord V1.isHard (ordinaryObject entries printed) 6 easySet 0
                 (js "Constructor") = Throws).
  { rewrite flagWord_passing by reflexivity. rewrite Hl.
    rewrite bool_decide_eq_false_2 by exact Hs.
    change (V1.isHard (stripApostrophes (js "Constructor")) (hardThreshold 6)) with true.
    cbn [negb andb].
    rewrite (hardWordMessage_member _ _ _ (printed (js "constructor"))).
    - reflexivity.
    - unfold ordinaryObject. rewrite He. reflexivity. }
  split; [reflexivity |]. split; [vm_compute; discriminate |].
  split; [rewrite Hl; exact Hs |]. split; [exact Hf |].
  unfold V1.buildDecorations, constructorDoc. cbn [buildDecorationsWith].
  unfold blockDecorations.
  change (isBlock _) with true. cbn iota. cbn zeta. cbn [textContent].
  change (isEmpty (js "Constructor functions build objects.")) with false. cbn iota.
  change (splitIntoSentences (js "Constructor functions build objects."))
    with [js "Constructor functions build objects."].
  cbn [sentenceLoop].
  change (trim (js "Constructor functions build objects."))
    with (js "Constructor functions build objects.").
  change (isEmpty (js "Constructor functions build objects.")) with false. cbn iota.
  change (indexOf (js "Constructor functions build objects.")
            (js "Constructor functions build objects.") 0) with (Some 0%nat).
  cbn iota.
  change (execAll (js "Constructor functions build objects."))
    with [(0, js "Constructor"); (12, js "functions"); (22, js "build");
          (28, js "objects")]%nat.
  cbn [wordLoop]. rewrite Hf. reflexivity.
Qed.

Section CapitalFilters.

Variable SIMPLE_WORD_MAP : jsstring -> mapValue.
Variable targetGrade : Z.
Variable easySet : gset (list N).

(** *** Filters on capitals *)

Lemma dropWhile_app_stop (p : N -> bool) (l t : jsstring) (x : N) :
  p x = false -> dropWhile p (l ++ x :: t) = dropWhile p l ++ x :: t.
Proof.
  intros Hx. induction l as [| c l IH]; simpl.
  - rewrite Hx. reflexivity.
  - destruct (p c); [exact IH | reflexivity].
Qed.

Lemma forallb_dropWhile (f p : N -> bool) (l : jsstring) :
  forallb f l = true -> forallb f (dropWhile p l) = true.
Proof.
  induction l as [| c l IH]; simpl; [trivial |].
  intros H. destruct (p c); [| exact H].
  apply andb_true_iff in H as [_ H]. apply IH, H.
Qed.

Lemma forallb_rev (f : N -> bool) (l : jsstring) :
  forallb f l = true -> forallb f (rev l) = true.
Proof.
  rewrite !forallb_forall. intros H x Hx. apply H, in_rev, Hx.
Qed.

Lemma forallb_isPrefix (f : N -> bool) (p s : jsstring) :
  isPrefix p s = true -> forallb f s = true -> forallb f p = true.
Proof.
  revert s. induction p as [| a p IH]; intros [| b s]; simpl; try congruence.
  intros H1 H2. apply andb_true_iff in H1 as [Hab H1], H2 as [Hb H2].
  apply N.eqb_eq in Hab. subst b. rewrite Hb. simpl. eapply IH; eassumption.
Qed.

Lemma lowerUnit_token (c : N) : isTokenChar c = true -> isTokenChar (lowerUnit c) = true.
Proof.
  unfold lowerUnit. destruct (isUpperAZ c) eqn:U; [| trivial]. intros _.
  unfold isTokenChar, isWordChar.
  rewrite (upper_plus_32_lower c U), orb_true_r. reflexivity.
Qed.

(** No string of token characters is URL-like: the patterns need a colon or
    a dot. *)
Lemma token_not_url (w : jsstring) :
  forallb isTokenChar w = true -> isUrlLike w = false.
Proof.
  intros H.
  assert (HL : forallb isTokenChar (toLowerCase w) = true).
  { unfold toLowerCase. rewrite forallb_forall in *. intros x Hx.
    apply in_map_iff in Hx as (c & <- & Hc). apply lowerUnit_token, H, Hc. }
  unfold isUrlLike, startsWithCI.
  repeat match goal with
         | |- context [isPrefix ?p (toLowerCase w)] =>
             let E := fresh "E" in
             destruct (isPrefix p (toLowerCase w)) eqn:E;
             [apply (forallb_isPrefix isTokenChar) in E; [discriminate E | exact HL] |]
         end.
  reflexivity.
Qed.

(** What stripping leaves of a token that starts with a capital and a
    lower-case letter. *)
Lemma stripApostrophes_capitalized (c1 c2 : N) (rest : jsstring) :
  isUpperAZ c1 = true -> isLowerAZ c2 = true ->
  exists r, stripApostrophes (c1 :: c2 :: rest) = c1 :: c2 :: r
            /\ (forallb isTokenChar rest = true -> forallb isTokenChar r = true).
Proof.
  intros H1 H2.
  assert (A1 : N.eqb c1 (ch "'") = false).
  { apply N.eqb_neq. intros ->. discriminate H1. }
  assert (A2 : N.eqb c2 (ch "'") = false).
  { apply N.eqb_neq. intros ->. discriminate H2. }
  exists (rev (dropWhile (fun c => N.eqb c (ch "'")) (rev rest))). split.
  - unfold stripApostrophes. cbn [dropWhile]. rewrite A1.
    change (rev (c1 :: c2 :: rest)) with ((rev rest ++ [c2]) ++ [c1]).
    rewrite <- app_assoc. cbn [app].
    rewrite (dropWhile_app_stop _ (rev rest) [c1] c2 A2).
    rewrite rev_app_distr. reflexivity.
  - intros H. apply forallb_rev, forallb_dropWhile, forallb_rev, H.
Qed.

Lemma capitalized_first_passes (wOrig : jsstring) :
  isLikelyProperNoun wOrig = true -> forallb isTokenChar wOrig = true ->
  passesFilters 0 wOrig = true.
Proof.
  unfold isLikelyProperNoun. intros H Ht.
  apply andb_true_iff in H as [H Hcaps].
  destruct wOrig as [| c1 [| c2 rest]]; try discriminate.
  apply andb_true_iff in H as [H1 H2].
  destruct (stripApostrophes_capitalized c1 c2 rest H1 H2) as (r & Hr & Hforall).
  unfold passesFilters. rewrite Hr, Hcaps.
  cbn [forallb] in Ht.
  apply andb_true_iff in Ht as [T1 Ht]. apply andb_true_iff in Ht as [T2 Ht].
  rewrite token_not_url by (cbn [forallb]; rewrite T1, T2; simpl; auto).
  simpl. rewrite (upper_not_digit c1 H1). reflexivity.
Qed.

(** Two or more capital letters make an acronym for [isAllCaps], and a
    capital followed by a lower-case letter a likely proper noun. *)
Lemma toUpperCase_capitals (w : jsstring) :
  forallb isUpperAZ w = true -> toUpperCase w = w.
Proof.
  unfold toUpperCase. induction w as [| c w IH]; [reflexivity |].
  simpl. intros Hu. apply andb_true_iff in Hu as [Hc Hu].
  unfold upperUnit at 1. rewrite (upper_not_lower c Hc). f_equal. apply IH, Hu.
Qed.

Lemma capital_letters_allCaps (w : jsstring) :
  (1 < length w)%nat -> forallb isUpperAZ w = true -> isAllCaps w = true.
Proof.
  intros Hl Hu. unfold isAllCaps.
  destruct (Nat.ltb_spec 1 (length w)); [| lia]. simpl.
  unfold streq. apply bool_decide_eq_true.
  symmetry. apply toUpperCase_capitals, Hu.
Qed.

Lemma capitalized_isLikelyProperNoun (c1 c2 : N) (rest : jsstring) :
  isUpperAZ c1 = true -> isLowerAZ c2 = true ->
  isLikelyProperNoun (c1 :: c2 :: rest) = true.
Proof.
  intros H1 H2. unfold isLikelyProperNoun. rewrite H1, H2. simpl.
  apply negb_true_iff. unfold isAllCaps. apply andb_false_iff. right.
  unfold streq. apply bool_decide_eq_false. simpl. intros [= _ E _].
  unfold upperUnit in E. rewrite H2 in E.
  symmetry in E. exact (lower_minus_32_differs c2 H2 E).
Qed.

(** C7. Whatever the syllable test: a token that is fully upper-case and
    longer than one character is never flagged; a token that starts with a
    capital followed by a lower-case letter is never flagged when it is not
    the first token of its sentence; the same token, made of token
    characters and first in its sentence, passes every filter and stays
    subject to the two criteria alone: it is left without decoration exactly
    when the syllable test fails or its lower-cased form is in the easy set,
    and, the suggestion of the word map being a string or nothing, it is
    flagged exactly when the syllable test holds and its lower-cased form is
    not in the easy set. *)
Theorem capitals_filter (isHardBySyll : jsstring -> Z -> bool)
    (tokenIndex : nat) (wOrig : jsstring) :
  (isAllCaps wOrig = true ->
   flagWord isHardBySyll SIMPLE_WORD_MAP targetGrade easySet tokenIndex wOrig
   = Returns None)
  /\ (isLikelyProperNoun wOrig = true -> (0 < tokenIndex)%nat ->
      flagWord isHardBySyll SIMPLE_WORD_MAP targetGrade easySet tokenIndex wOrig
      = Returns None)
  /\ (isLikelyProperNoun wOrig = true -> forallb isTokenChar wOrig = true ->
      passesFilters 0 wOrig = true
      /\ (flagWord isHardBySyll SIMPLE_WORD_MAP targetGrade easySet 0 wOrig = Returns None
          <-> ~ (isHardBySyll (stripApostrophes wOrig) (hardThreshold targetGrade) = true
                 /\ toLowerCase (stripApostrophes wOrig) ∉ easySet))
      /\ ((forall printed,
             SIMPLE_WORD_MAP (toLowerCase (stripApostrophes wOrig)) <> Member printed) ->
          (flagged (flagWord isHardBySyll SIMPLE_WORD_MAP targetGrade easySet 0 wOrig)
           <-> isHardBySyll (stripApostrophes wOrig) (hardThreshold targetGrade) = true
               /\ toLowerCase (stripApostrophes wOrig) ∉ easySet))).
Proof.
  split; [| split].
  - intros H. apply flagWord_filtered. unfold passesFilters.
    rewrite H. simpl. apply andb_false_r.
  - intros H Hi. apply flagWord_filtered. unfold passesFilters.
    rewrite H. destruct (Nat.ltb_spec 0 tokenIndex); [| lia].
    simpl. rewrite andb_false_r. reflexivity.
  - intros H Ht.
    pose proof (capitalized_first_passes wOrig H Ht) as P.
    split; [exact P |]. split.
    + apply flagWord_skips_iff, P.
    + intros HM. apply flagWord_flags_iff; assumption.
Qed.

End CapitalFilters.

(** ** Offsets of the decorations *)

Section Occurrences.

Lemma occursAt_slice (t s : jsstring) (i : nat) :
  occursAt t s i -> slice s i (i + length t) = t.
Proof.
  intros (a & b & -> & <-). unfold slice.
  rewrite drop_app_length.
  replace (length a + length t - length a)%nat with (length t) by lia.
  apply take_app_length.
Qed.

Lemma occursAt_bound (t s : jsstring) (i : nat) :
  occursAt t s i -> (i + length t <= length s)%nat.
Proof. intros (a & b & -> & <-). rewrite !length_app. lia. Qed.

Lemma occursAt_inside (w t s : jsstring) (i j : nat) :
  occursAt t s i -> occursAt w t j -> occursAt w s (i + j).
Proof.
  intros (a & b & -> & <-) (a' & b' & -> & <-).
  exists (a ++ a'), (b' ++ b). split.
  - rewrite <- !app_assoc. reflexivity.
  - apply length_app.
Qed.

Lemma isPrefix_app (p s : jsstring) : isPrefix p s = true -> exists b, s = p ++ b.
Proof.
  revert s. induction p as [| a p IH]; intros s H.
  - exists s. reflexivity.
  - destruct s as [| c s]; [discriminate |]. simpl in H.
    apply andb_true_iff in H as [Hac H]. apply N.eqb_eq in Hac. subst c.
    destruct (IH s H) as [b ->]. exists b. reflexivity.
Qed.

Lemma indexOfAt_occurs (text pat : jsstring) (p q : nat) :
  indexOfAt text pat p = Some q ->
  exists a b, text = a ++ pat ++ b /\ q = (p + length a)%nat.
Proof.
  revert p. induction text as [| c text IH]; intros p; simpl.
  - destruct (isPrefix pat []) eqn:E; [| discriminate].
    intros [= <-]. apply isPrefix_app in E as [b ->].
    exists [], b. split; [reflexivity | simpl; lia].
  - destruct (isPrefix pat (c :: text)) eqn:E.
    + intros [= <-]. apply isPrefix_app in E as [b ->].
      exists [], b. split; [reflexivity | simpl; lia].
    + intros H. apply IH in H as (a & b & -> & ->).
      exists (c :: a), b. split; [reflexivity | simpl; lia].
Qed.

(** What [indexOf] finds is an occurrence. *)
Lemma indexOf_occurs (text pat : jsstring) (from q : nat) :
  indexOf text pat from = Some q -> occursAt pat text q.
Proof.
  unfold indexOf. set (k := Nat.min from (length text)). intros H.
  apply indexOfAt_occurs in H as (a & b & Hd & ->).
  exists (take k text ++ a), b. split.
  - rewrite <- app_assoc, <- Hd. symmetry. apply take_drop.
  - rewrite length_app, length_take. subst k. lia.
Qed.

Lemma matchBody_prefix (s t : jsstring) :
  matchBody s = Some t -> exists b, s = t ++ b.
Proof.
  revert t. induction s as [| c r IH]; intros t; simpl; [discriminate |].
  destruct (isTokenChar c); [| discriminate].
  destruct (matchBody r) as [t' |].
  - intros [= <-]. destruct (IH t' eq_refl) as [b ->]. exists b. reflexivity.
  - destruct (xorb _ _); [| discriminate].
    intros [= <-]. exists r. reflexivity.
Qed.

(** A match of the word regex is the substring at its index. *)
Lemma execAllFrom_occurs (s : jsstring) (idx : nat) (prev : bool) (skip : nat)
    (i : nat) (tok : jsstring) :
  (i, tok) ∈ execAllFrom idx prev skip s ->
  exists a b, s = a ++ tok ++ b /\ i = (idx + length a)%nat.
Proof.
  revert idx prev skip. induction s as [| c r IH]; intros idx prev skip; simpl.
  - intros H. inversion H.
  - assert (Tail : forall p k, (i, tok) ∈ execAllFrom (S idx) p k r ->
                   exists a b, c :: r = a ++ tok ++ b /\ i = (idx + length a)%nat).
    { intros p k H. apply IH in H as (a & b & -> & ->).
      exists (c :: a), b. split; [reflexivity | simpl; lia]. }
    destruct skip as [| k]; [| apply Tail].
    destruct (matchWordAt prev (c :: r)) as [t |] eqn:E; [| apply Tail].
    intros H. apply elem_of_cons in H as [[= -> ->] | H]; [| eapply Tail, H].
    unfold matchWordAt in E. destruct (xorb _ _); [| discriminate].
    apply matchBody_prefix in E as [b E]. exists [], b.
    split; [exact E | simpl; lia].
Qed.

Lemma matchBody_token_chars (s t : jsstring) :
  matchBody s = Some t -> forallb isTokenChar t = true /\ t <> [].
Proof.
  revert t. induction s as [| c r IH]; intros t; simpl; [discriminate |].
  destruct (isTokenChar c) eqn:Hc; [| discriminate].
  destruct (matchBody r) as [t' |].
  - intros [= <-]. destruct (IH t' eq_refl) as [Ht _].
    simpl. rewrite Hc, Ht. split; [reflexivity | discriminate].
  - destruct (xorb _ _); [| discriminate].
    intros [= <-]. simpl. rewrite Hc. split; [reflexivity | discriminate].
Qed.

(** Every match of the word regex is a non-empty string of token
    characters, so the filters on URLs never apply to it. *)
Lemma execAllFrom_token_chars (s : jsstring) (idx : nat) (prev : bool) (skip : nat)
    (i : nat) (tok : jsstring) :
  (i, tok) ∈ execAllFrom idx prev skip s ->
  forallb isTokenChar tok = true /\ tok <> [].
Proof.
  revert idx prev skip. induction s as [| c r IH]; intros idx prev skip; simpl.
  - intros H. inversion H.
  - destruct skip as [| k]; [| apply IH].
    destruct (matchWordAt prev (c :: r)) as [t |] eqn:E; [| apply IH].
    intros H. apply elem_of_cons in H as [[= -> ->] | H]; [| eapply IH, H].
    unfold matchWordAt in E. destruct (xorb _ _); [| discriminate].
    eapply matchBody_token_chars, E.
Qed.

Lemma execAll_occurs (s : jsstring) (k i : nat) (tok : jsstring) :
  execAll s !! k = Some (i, tok) -> occursAt tok s i.
Proof.
  intros H. apply list_elem_of_lookup_2 in H.
  apply execAllFrom_occurs in H as (a & b & -> & ->).
  exists a, b. split; reflexivity.
Qed.

End Occurrences.

Section RoundTrip.

Variable classify : Z -> number -> Z -> option color.
Variable sentenceTip : color -> nat -> number -> Z -> jsstring.
Variable isHardBySyll : jsstring -> Z -> bool.
Variable SIMPLE_WORD_MAP : jsstring -> mapValue.
Variable targetGrade : Z.
Variable showHardWords : bool.
Variable easySet : gset (list N).

Lemma wordLoop_elem (sentenceFrom tokenIndex : nat) (matches : list (nat * jsstring))
    (pushed : list decoration) (d : decoration) :
  wordLoop isHardBySyll SIMPLE_WORD_MAP targetGrade easySet
    sentenceFrom tokenIndex matches = Returns pushed ->
  d ∈ pushed ->
  exists k index wOrig tip,
    matches !! k = Some (index, wOrig)
    /\ flagWord isHardBySyll SIMPLE_WORD_MAP targetGrade easySet (tokenIndex + k) wOrig
       = Returns (Some tip)
    /\ d = {| from := sentenceFrom + index;
              to := sentenceFrom + index + length wOrig;
              attrs := HardWord tip |}.
Proof.
  revert tokenIndex pushed.
  induction matches as [| [index wOrig] rest IH]; intros tokenIndex pushed; cbn [wordLoop].
  - intros [= <-] H. inversion H.
  - destruct (flagWord _ _ _ _ tokenIndex wOrig) as [o |] eqn:E; [| discriminate].
    destruct (wordLoop _ _ _ _ sentenceFrom (S tokenIndex) rest) as [later |] eqn:W;
      [| discriminate].
    simpl. intros [= <-] Hd.
    assert (Tail : d ∈ later ->
                   exists k index0 wOrig0 tip,
                     ((index, wOrig) :: rest) !! k = Some (index0, wOrig0)
                     /\ flagWord isHardBySyll SIMPLE_WORD_MAP targetGrade easySet
                          (tokenIndex + k) wOrig0 = Returns (Some tip)
                     /\ d = {| from := sentenceFrom + index0;
                               to := sentenceFrom + index0 + length wOrig0;
                               attrs := HardWord tip |}).
    { intros H. apply (IH _ _ W) in H as (k & i & w & tip & Hk & Hf & ->).
      exists (S k), i, w, tip. repeat split; [exact Hk |].
      replace (tokenIndex + S k)%nat with (S tokenIndex + k)%nat by lia. exact Hf. }
    destruct o as [tip |]; [| exact (Tail Hd)].
    apply elem_of_cons in Hd as [-> | Hd]; [| exact (Tail Hd)].
    exists 0%nat, index, wOrig, tip. repeat split.
    rewrite Nat.add_0_r. exact E.
Qed.

Lemma sentenceLoop_elem (n : node) (pos : nat) (parts : list jsstring)
    (searchFrom : nat) (pushed : list decoration) (d : decoration) :
  (forall raw, raw ∈ parts -> raw ∈ splitIntoSentences (textContent n)) ->
  sentenceLoop classify sentenceTip isHardBySyll SIMPLE_WORD_MAP targetGrade
    showHardWords easySet (textContent n) (pos + 1) parts searchFrom = Returns pushed ->
  d ∈ pushed ->
  reproduces classify isHardBySyll SIMPLE_WORD_MAP targetGrade easySet n pos d.
Proof.
  revert searchFrom pushed.
  induction parts as [| raw rest IH]; intros searchFrom pushed Hparts; cbn [sentenceLoop].
  - intros [= <-] H. inversion H.
  - assert (Hrest : forall r, r ∈ rest -> r ∈ splitIntoSentences (textContent n)).
    { intros r Hr. apply Hparts. right. exact Hr. }
    destruct (isEmpty (trim raw)) eqn:Hne; [apply IH, Hrest |].
    destruct (indexOf (textContent n) (trim raw) searchFrom) as [start |] eqn:Hidx;
      [| apply IH, Hrest].
    apply indexOf_occurs in Hidx.
    pose proof (occursAt_bound _ _ _ Hidx) as Hb.
    assert (Hraw : raw ∈ splitIntoSentences (textContent n)) by (apply Hparts; left).
    assert (Hs : trim raw <> []) by (intros E; rewrite E in Hne; discriminate).
    cbn zeta.
    destruct (if showHardWords then _ else _) as [words |] eqn:Hw; [| discriminate].
    destruct (sentenceLoop _ _ _ _ _ _ _ _ _ rest _) as [later |] eqn:Hl; [| discriminate].
    simpl. intros [= <-].
    rewrite !elem_of_app. intros [H | [H | H]]; [| | eapply IH; eassumption].
    + destruct (classify _ _ _) as [c |] eqn:Hc; [| inversion H].
      apply list_elem_of_singleton in H. subst d.
      exists raw. repeat split; try assumption; simpl; try lia.
      unfold sliceOfBlock. simpl.
      replace (pos + 1 + start - (pos + 1))%nat with start by lia.
      replace (pos + 1 + start + length (trim raw) - (pos + 1))%nat
        with (start + length (trim raw))%nat by lia.
      apply occursAt_slice, Hidx.
    + destruct showHardWords; [| injection Hw as <-; inversion H].
      apply (wordLoop_elem _ _ _ _ _ Hw) in H as (k & index & wOrig & tip & Hk & Hf & ->).
      pose proof (execAll_occurs _ _ _ _ Hk) as Hocc.
      pose proof (occursAt_inside _ _ _ _ _ Hidx Hocc) as Hin.
      pose proof (occursAt_bound _ _ _ Hin) as Hb'.
      exists raw. repeat split; try assumption; simpl; try lia.
      exists k, index, wOrig. repeat split; try assumption.
      unfold sliceOfBlock. simpl.
      replace (pos + 1 + start + index - (pos + 1))%nat with (start + index)%nat by lia.
      replace (pos + 1 + start + index + length wOrig - (pos + 1))%nat
        with (start + index + length wOrig)%nat by lia.
      apply occursAt_slice, Hin.
Qed.

Lemma blockDecorations_reproduce (n : node) (pos : nat) (pushed : list decoration)
    (d : decoration) :
  blockDecorations classify sentenceTip isHardBySyll SIMPLE_WORD_MAP targetGrade
    showHardWords easySet n pos = Returns pushed ->
  d ∈ pushed ->
  reproduces classify isHardBySyll SIMPLE_WORD_MAP targetGrade easySet n pos d.
Proof.
  unfold blockDecorations.
  destruct (isBlock n); [| intros [= <-] H; inversion H].
  destruct (isEmpty (textContent n)); [intros [= <-] H; inversion H |].
  apply sentenceLoop_elem. auto.
Qed.

Lemma buildDecorationsWith_reproduce (doc : document) (decos : list decoration)
    (d : decoration) :
  buildDecorationsWith classify sentenceTip isHardBySyll SIMPLE_WORD_MAP targetGrade
    showHardWords easySet doc = Returns decos ->
  d ∈ decos ->
  exists n pos, (n, pos) ∈ doc
    /\ reproduces classify isHardBySyll SIMPLE_WORD_MAP targetGrade easySet n pos d.
Proof.
  revert decos. induction doc as [| [n pos] rest IH]; intros decos; cbn [buildDecorationsWith].
  - intros [= <-] H. inversion H.
  - destruct (blockDecorations _ _ _ _ _ _ _ n pos) as [here |] eqn:Hb; [| discriminate].
    destruct (buildDecorationsWith _ _ _ _ _ _ _ rest) as [later |] eqn:Hr; [| discriminate].
    simpl. intros [= <-]. rewrite elem_of_app. intros [H | H].
    + exists n, pos. split; [left |]. eapply blockDecorations_reproduce; eassumption.
    + destruct (IH _ eq_refl H) as (n' & pos' & Hin & Hrep).
      exists n', pos'. split; [right; exact Hin | exact Hrep].
Qed.

End RoundTrip.

(** C5. Every decoration that the builder returns, in either variant, comes
    from a block of the document; its range, moved back by the start offset of
    the block, lies inside the text of the block, and slicing the text with it
    gives exactly the trimmed sentence fragment that was analysed, for a
    sentence mark, or exactly the token that was flagged, for a word mark.
    (A call that throws returns no decoration.) *)
Theorem decoration_offsets_round_trip
    (SIMPLE_WORD_MAP : jsstring -> mapValue) (targetGrade : Z)
    (showHardWords : bool) (easySet : gset (list N)) (doc : document)
    (decos : list decoration) (d : decoration) :
  (V1.buildDecorations SIMPLE_WORD_MAP targetGrade showHardWords easySet doc
   = Returns decos ->
   d ∈ decos ->
   exists n pos, (n, pos) ∈ doc
     /\ reproduces V1.classify V1.isHard SIMPLE_WORD_MAP targetGrade easySet n pos d)
  /\ (V2.buildDecorations SIMPLE_WORD_MAP targetGrade showHardWords easySet doc
      = Returns decos ->
      d ∈ decos ->
      exists n pos, (n, pos) ∈ doc
        /\ reproduces V2.classify V2.isHardBySyll SIMPLE_WORD_MAP targetGrade easySet n pos d).
Proof.
  split; apply buildDecorationsWith_reproduce.
Qed.

(** ** Worked inputs *)

Section Worked.

(** The string functions on inputs traced by hand through the source. *)
Example splitIntoSentences_sample :
  splitIntoSentences (js "...The cat sat. This is it!?  no end")
  = [js "The cat sat."; js " This is it!?"; js "  no end"].
Proof. reflexivity. Qed.

Example execAll_sample :
  execAll (js "'hello' a'b it's well-known- x_1 --")
  = [(1, js "hello"); (8, js "a'b"); (12, js "it's"); (17, js "well-known");
     (29, js "x_1")]%nat.
Proof. reflexivity. Qed.

Example counts_sample :
  countWords (js "  The  cat sat. ") = 3%nat /\
  countSentences (js "Hi. There!") = 2%nat /\
  countSentences (js "no punctuation") = 1%nat /\
  countSentences [] = 1%nat /\
  map countSyllables [js "extraordinarily"; js "makes"; js "jumped"; js "yellow"; js "the"]
  = [6; 1; 1; 2; 1]%nat /\
  grade (analyzeSentence (js "The cat sat.")) = Fin (-26 # 10).
Proof. repeat split. Qed.

Example sampleDoc_decorations :
  V1.buildDecorations noMap 6 true ∅ sampleDoc = Returns [sampleWordMark]
  /\ V2.buildDecorations noMap 6 true ∅ sampleDoc = Returns [sampleWordMark].
Proof. vm_compute. split; reflexivity. Qed.

Example sampleWordMark_slice :
  sliceOfBlock sampleBlock 0 sampleWordMark = js "extraordinarily".
Proof. reflexivity. Qed.

Lemma decoration_offsets_round_trip_witness :
  V1.buildDecorations noMap 6 true ∅ sampleDoc = Returns [sampleWordMark] /\
  exists n pos, (n, pos) ∈ sampleDoc
    /\ reproduces V1.classify V1.isHard noMap 6 ∅ n pos sampleWordMark.
Proof.
  assert (H : V1.buildDecorations noMap 6 true ∅ sampleDoc = Returns [sampleWordMark]).
  { vm_compute. reflexivity. }
  split; [exact H |].
  exact (proj1 (decoration_offsets_round_trip noMap 6 true ∅ sampleDoc
                  [sampleWordMark] sampleWordMark) H (list_elem_of_here _ _)).
Defined.

Lemma constructor_token_throws_instead_of_flag_witness :
  flagWord V1.isHard noMap 6 ∅ 0 (js "Constructor") = Throws /\
  V1.buildDecorations noMap 6 true ∅ constructorDoc = Throws.
Proof.
  pose proof (constructor_token_throws_instead_of_flag (fun _ => None) printedByV8 ∅
                eq_refl (not_elem_of_empty _)) as (_ & _ & _ & H1 & H2).
  split; [exact H1 | exact H2].
Defined.

(** The same token in lower case is flagged, with the text of the inherited
    function as its suggestion; the second variant, whose syllable test fails
    on it, flags neither form. *)
Example constructor_lower_case :
  flagWord V1.isHard noMap 6 ∅ 1 (js "constructor")
  = Returns (Some (js "Likely hard word, try " ++ [8220%N]
                     ++ js "function Object() { [native code] }" ++ [8221%N] ++ js "."))
  /\ flagWord V2.isHardBySyll noMap 6 ∅ 1 (js "constructor") = Returns None
  /\ flagWord V2.isHardBySyll noMap 6 ∅ 0 (js "Constructor") = Returns None
  /\ V2.buildDecorations noMap 6 true ∅ constructorDoc = Returns [].
Proof. vm_compute. repeat split. Qed.

(** The same word is not flagged once it is in the easy set. *)
Example easy_word_not_flagged :
  flagWord V1.isHard noMap 6 {[ js "extraordinarily" ]} 1 (js "extraordinarily")
  = Returns None.
Proof. vm_compute. reflexivity. Qed.

Lemma capitals_filter_witness :
  (isAllCaps (js "EXTRAORDINARILY") = true /\
   flagWord V1.isHard noMap 6 ∅ 0 (js "EXTRAORDINARILY") = Returns None) /\
  (isLikelyProperNoun (js "Extraordinarily") = true /\ (0 < 2)%nat /\
   flagWord V1.isHard noMap 6 ∅ 2 (js "Extraordinarily") = Returns None) /\
  (forallb isTokenChar (js "Extraordinarily") = true /\
   flagged (flagWord V1.isHard noMap 6 ∅ 0 (js "Extraordinarily"))).
Proof.
  split; [| split].
  - split; [reflexivity |].
    apply (proj1 (capitals_filter noMap 6 ∅ V1.isHard 0 (js "EXTRAORDINARILY"))).
    reflexivity.
  - split; [reflexivity |]. split; [lia |].
    apply (proj1 (proj2 (capitals_filter noMap 6 ∅ V1.isHard 2 (js "Extraordinarily"))));
      [reflexivity | lia].
  - split; [reflexivity |].
    destruct (proj2 (proj2 (capitals_filter noMap 6 ∅ V1.isHard 0 (js "Extraordinarily")))
                eq_refl eq_refl) as (_ & _ & H).
    apply H.
    + intros printed E. vm_compute in E. discriminate E.
    + split; [reflexivity | apply not_elem_of_empty].
Defined.

(** The tokens of the specification. *)
Example the_and_paris :
  flagWord V1.isHard noMap 6 ∅ 0 (js "THE") = Returns None /\
  flagWord V2.isHardBySyll noMap 6 ∅ 4 (js "THE") = Returns None /\
  flagWord V1.isHard noMap 6 ∅ 3 (js "Paris") = Returns None /\
  flagWord V2.isHardBySyll noMap 6 ∅ 3 (js "Paris") = Returns None /\
  passesFilters 0 (js "Paris") = true /\
  countSyllables (js "Paris") = 2%nat.
Proof. vm_compute. repeat split. Qed.

(** The end-to-end input of the specification, target grade 6: the first
    sentence gets no mark; the second, of 22 words, is marked red by the first
    variant and yellow by the second. *)
Example endToEnd_marks :
  marks <$> V1.buildDecorations noMap 6 true ∅ endToEnd = Returns [(14, 198, Red)]%nat /\
  marks <$> V2.buildDecorations noMap 6 true ∅ endToEnd = Returns [(14, 198, Yellow)]%nat.
Proof. vm_compute. split; reflexivity. Qed.

End Worked.

(* ================================================================= *)
(** * Further properties *)

(** ** Words and sentences of a text *)

Section TextCounts.

Lemma dropWhile_head (p : N -> bool) (l r : jsstring) (c : N) :
  dropWhile p l = c :: r -> p c = false.
Proof.
  induction l as [| x l IH]; simpl; [discriminate |].
  destruct (p x) eqn:E; [exact IH |]. intros [= -> _]. exact E.
Qed.

Lemma dropWhile_split (p : N -> bool) (l : jsstring) :
  exists a, l = a ++ dropWhile p l /\ forallb p a = true.
Proof.
  induction l as [| x l (a & Ha & Hp)]; simpl.
  - exists []. split; reflexivity.
  - destruct (p x) eqn:E.
    + exists (x :: a). simpl. rewrite E, Hp. split; [f_equal; exact Ha | reflexivity].
    + exists []. split; reflexivity.
Qed.

Lemma dropWhile_fixed (p : N -> bool) (l : jsstring) :
  match l with c :: _ => p c = false | [] => True end -> dropWhile p l = l.
Proof. destruct l as [| c r]; simpl; [trivial |]. intros ->. reflexivity. Qed.

Lemma dropWhile_all (p : N -> bool) (l : jsstring) :
  dropWhile p l = [] <-> forallb p l = true.
Proof.
  induction l as [| c r IH]; simpl; [tauto |].
  destruct (p c); simpl; [exact IH |]. split; discriminate.
Qed.

Lemma trim_prefix (s : jsstring) :
  exists b, dropWhile isWhiteSpace s = trim s ++ b.
Proof.
  unfold trim. set (X := dropWhile isWhiteSpace s).
  destruct (dropWhile_split isWhiteSpace (rev X)) as (a & Ha & _).
  exists (rev a). rewrite <- rev_app_distr, <- Ha. symmetry. apply rev_involutive.
Qed.

Lemma trim_head (s r : jsstring) (c : N) :
  trim s = c :: r -> isWhiteSpace c = false.
Proof.
  intros H. destruct (trim_prefix s) as [b Hb]. rewrite H in Hb.
  eapply dropWhile_head. exact Hb.
Qed.

Lemma trim_last (s r : jsstring) (c : N) :
  rev (trim s) = c :: r -> isWhiteSpace c = false.
Proof.
  unfold trim. rewrite rev_involutive. apply dropWhile_head.
Qed.

Lemma trim_idempotent (s : jsstring) : trim (trim s) = trim s.
Proof.
  unfold trim at 1.
  rewrite (dropWhile_fixed isWhiteSpace (trim s)).
  - rewrite (dropWhile_fixed isWhiteSpace (rev (trim s))); [apply rev_involutive |].
    destruct (rev (trim s)) as [| c r] eqn:E; [trivial |]. eapply trim_last, E.
  - destruct (trim s) as [| c r] eqn:E; [trivial |]. eapply trim_head, E.
Qed.

Lemma trim_occurs (raw : jsstring) :
  exists a b, raw = a ++ trim raw ++ b /\ forallb isWhiteSpace a = true.
Proof.
  destruct (dropWhile_split isWhiteSpace raw) as (a & Ha & Hws).
  destruct (trim_prefix raw) as [b Hb].
  exists a, b. rewrite <- Hb. split; [exact Ha | exact Hws].
Qed.

(** A text trims to nothing exactly when it is made of blanks. *)
Lemma trim_nil_blank (text : jsstring) :
  trim text = [] <-> forallb isWhiteSpace text = true.
Proof.
  split.
  - intros E. unfold trim in E.
    apply (f_equal (@rev N)) in E. rewrite rev_involutive in E. simpl in E.
    apply dropWhile_all, forallb_rev in E. rewrite rev_involutive in E.
    apply dropWhile_all.
    destruct (dropWhile isWhiteSpace text) as [| c r] eqn:X; [reflexivity | exfalso].
    apply dropWhile_head in X. simpl in E. rewrite X in E. discriminate.
  - intros H. unfold trim. apply dropWhile_all in H. rewrite H. reflexivity.
Qed.

Lemma splitRunsAux_pieces (sep : N -> bool) (s : jsstring) :
  forall (inSep : bool) (cur : jsstring),
  match s with
  | [] => cur <> []
  | c :: _ => sep c = true -> inSep = false -> cur <> []
  end ->
  (s <> [] -> exists body cl, s = body ++ [cl] /\ sep cl = false) ->
  Forall (fun p => p <> []) (splitRunsAux sep inSep cur s).
Proof.
  induction s as [| c r IH]; intros inSep cur H1 H2; simpl.
  - constructor; [| constructor]. intros E. apply H1.
    apply (f_equal (@rev N)) in E. rewrite rev_involutive in E. exact E.
  - assert (Hr : r <> [] -> exists body cl, r = body ++ [cl] /\ sep cl = false).
    { intros Hne. destruct H2 as (body & cl & E & Hcl); [discriminate |].
      destruct body as [| b body]; simpl in E.
      - injection E as _ E. congruence.
      - injection E as _ E. eauto. }
    assert (Hlast : r = [] -> sep c = false).
    { intros ->. destruct H2 as (body & cl & E & Hcl); [discriminate |].
      destruct body as [| b [| b' body]]; simpl in E; try discriminate.
      injection E as ->. exact Hcl. }
    destruct (sep c) eqn:Ec.
    + assert (Hne : r <> []) by (intros E; apply Hlast in E; discriminate).
      destruct inSep.
      * apply IH; [| exact Hr]. destruct r; [congruence | discriminate].
      * constructor.
        -- intros E. apply (H1 eq_refl eq_refl).
           apply (f_equal (@rev N)) in E. rewrite rev_involutive in E. exact E.
        -- apply IH; [| exact Hr]. destruct r; [congruence | discriminate].
    + apply IH; [| exact Hr]. destruct r; [discriminate | intros _ _; discriminate].
Qed.

Lemma splitWords_pieces (text : jsstring) :
  trim text <> [] -> Forall (fun p => p <> []) (splitWords text).
Proof.
  intros Hne. unfold splitWords, splitRuns. apply splitRunsAux_pieces.
  - destruct (trim text) as [| c r] eqn:E; [congruence |].
    intros Hc. apply trim_head in E. congruence.
  - intros _. destruct (rev (trim text)) as [| cl r] eqn:E.
    + apply (f_equal (@rev N)) in E. rewrite rev_involutive in E. contradiction.
    + exists (rev r), cl. split; [| eapply trim_last, E].
      apply (f_equal (@rev N)) in E. rewrite rev_involutive in E. exact E.
Qed.

Lemma filterNonEmpty_all (l : list jsstring) :
  Forall (fun p => p <> []) l -> filterNonEmpty l = l.
Proof.
  unfold filterNonEmpty. induction 1 as [| p l Hp _ IH]; [reflexivity |].
  rewrite filter_cons_True; [f_equal; exact IH |].
  destruct p; [contradiction | reflexivity].
Qed.

Lemma countWords_zero_trim (text : jsstring) :
  countWords text = 0%nat <-> trim text = [].
Proof.
  split.
  - intros H. destruct (trim text) as [| c r] eqn:E; [reflexivity | exfalso].
    assert (Hne : trim text <> []) by (rewrite E; discriminate).
    unfold countWords in H. rewrite (filterNonEmpty_all _ (splitWords_pieces text Hne)) in H.
    pose proof (splitRunsAux_nonempty isWhiteSpace false [] (trim text)) as L.
    unfold splitWords, splitRuns in H. lia.
  - intros E. unfold countWords, splitWords. rewrite E. reflexivity.
Qed.

(** X1. [countWords] is 0 exactly on the texts made of blanks only (the
    empty text among them); every other text has at least one word. *)
Theorem countWords_zero_iff_blank (text : jsstring) :
  (countWords text = 0%nat <-> forallb isWhiteSpace text = true)
  /\ (countWords text = 0%nat <-> trim text = []).
Proof.
  split; [| apply countWords_zero_trim].
  rewrite countWords_zero_trim. apply trim_nil_blank.
Qed.

Lemma splitRunsAux_concat (sep : N -> bool) (s : jsstring) :
  forall (inSep : bool) (cur : jsstring),
  concat (splitRunsAux sep inSep cur s)
  = rev cur ++ filter (fun c => sep c = false) s.
Proof.
  induction s as [| c r IH]; intros inSep cur; simpl.
  - rewrite !app_nil_r. reflexivity.
  - destruct (sep c) eqn:Ec.
    + rewrite filter_cons_False by congruence.
      destruct inSep; [apply IH |]. simpl. rewrite IH. reflexivity.
    + rewrite filter_cons_True by exact Ec.
      rewrite IH. simpl. rewrite <- app_assoc. reflexivity.
Qed.

Lemma splitRunsAux_clean (sep : N -> bool) (s : jsstring) :
  forall (inSep : bool) (cur : jsstring),
  forallb (fun c => negb (sep c)) cur = true ->
  Forall (fun p => forallb (fun c => negb (sep c)) p = true)
    (splitRunsAux sep inSep cur s).
Proof.
  induction s as [| c r IH]; intros inSep cur Hc; simpl.
  - constructor; [| constructor].
    rewrite forallb_forall in *. intros x Hx. apply Hc, in_rev, Hx.
  - assert (Hrev : forallb (fun c => negb (sep c)) (rev cur) = true).
    { rewrite forallb_forall in *. intros x Hx. apply Hc, in_rev, Hx. }
    destruct (sep c) eqn:Ec.
    + destruct inSep; [apply IH, Hc |]. constructor; [exact Hrev | apply IH; reflexivity].
    + apply IH. simpl. rewrite Ec, Hc. reflexivity.
Qed.

(** X2. The pieces that [text.trim().split(/\s+/)] yields hold no blank;
    joined, they are the text without its blanks; and when the text is not
    blank none of them is empty, so that [filter(Boolean)] removes nothing and
    [countWords] is the number of pieces. *)
Lemma splitWords_keeps_all_but_blanks (text : jsstring) :
  Forall (fun w => forallb (fun c => negb (isWhiteSpace c)) w = true) (splitWords text)
  /\ concat (splitWords text) = filter (fun c => isWhiteSpace c = false) (trim text)
  /\ (trim text <> [] ->
      Forall (fun w => w <> []) (splitWords text)
      /\ countWords text = length (splitWords text)).
Proof.
  split; [| split].
  - apply splitRunsAux_clean. reflexivity.
  - unfold splitWords, splitRuns. apply splitRunsAux_concat.
  - intros Hne. pose proof (splitWords_pieces text Hne) as Hp.
    split; [exact Hp |]. unfold countWords. rewrite (filterNonEmpty_all _ Hp). reflexivity.
Qed.

Lemma splitRunsAux_all_stops (sep : N -> bool) (stops : jsstring) (cur : jsstring) :
  forallb sep stops = true ->
  splitRunsAux sep true cur stops = [rev cur].
Proof.
  induction stops as [| c r IH]; simpl; [reflexivity |].
  intros H. apply andb_true_iff in H as [Hc Hr]. rewrite Hc. apply IH, Hr.
Qed.

Lemma splitRunsAux_append_stops (sep : N -> bool) (stops s : jsstring) :
  forallb sep stops = true ->
  forall (inSep : bool) (cur : jsstring),
  nonBlankPieces (splitRunsAux sep inSep cur (s ++ stops))
  = nonBlankPieces (splitRunsAux sep inSep cur s).
Proof.
  intros Hs. induction s as [| c r IH]; intros inSep cur.
  - rewrite app_nil_l. destruct stops as [| c r]; [reflexivity |].
    simpl in Hs. apply andb_true_iff in Hs as [Hc Hr]. simpl. rewrite Hc.
    destruct inSep; rewrite (splitRunsAux_all_stops sep r _ Hr); [reflexivity |].
    unfold nonBlankPieces. rewrite !filter_cons, !filter_nil.
    change (trim []) with (@nil N). simpl length.
    repeat case_decide; try reflexivity; discriminate.
  - simpl. destruct (sep c); [destruct inSep |]; try apply IH.
    unfold nonBlankPieces in *.
    destruct (decide ((0 <? length (trim (rev cur)))%nat = true)).
    + rewrite !filter_cons_True by assumption. f_equal. apply IH.
    + rewrite !filter_cons_False by assumption. apply IH.
Qed.

(** X3. Punctuation added at the end of a text does not add a sentence:
    [countSentences] is the same with and without a final run of [.], [!]
    and [?]. *)
Lemma countSentences_ignores_final_punctuation (text stops : jsstring) :
  forallb isStop stops = true ->
  countSentences (text ++ stops) = countSentences text.
Proof.
  intros H. unfold countSentences. f_equal. f_equal.
  apply (splitRunsAux_append_stops isStop stops text H).
Qed.

Lemma countSentences_ignores_final_punctuation_witness :
  forallb isStop (js "?!") = true /\
  countSentences (theCatSat ++ js "?!") = countSentences theCatSat.
Proof.
  split; [reflexivity |].
  apply (countSentences_ignores_final_punctuation theCatSat (js "?!")). reflexivity.
Defined.

Lemma splitRunsAux_no_sep (sep : N -> bool) (s : jsstring) :
  forall (cur : jsstring),
  forallb (fun c => negb (sep c)) s = true ->
  splitRunsAux sep false cur s = [rev cur ++ s].
Proof.
  induction s as [| c r IH]; intros cur; simpl.
  - rewrite app_nil_r. reflexivity.
  - intros H. apply andb_true_iff in H as [Hc Hr]. apply negb_true_iff in Hc.
    rewrite Hc, (IH _ Hr). simpl. rewrite <- app_assoc. reflexivity.
Qed.

(** A text without [.], [!] and [?] counts as one sentence. *)
Lemma countSentences_without_stop (text : jsstring) :
  forallb (fun c => negb (isStop c)) text = true -> countSentences text = 1%nat.
Proof.
  intros H. unfold countSentences, splitRuns.
  rewrite (splitRunsAux_no_sep isStop text [] H). simpl.
  destruct (decide ((0 <? length (trim text))%nat = true)).
  - rewrite filter_cons_True by assumption. reflexivity.
  - rewrite filter_cons_False by assumption. reflexivity.
Qed.

End TextCounts.

(** ** Scores *)

Section ScoreFacts.

(** X4. The two Flesch scores are finite numbers on every text: both
    divisors are floored at 1. *)
Theorem flesch_scores_finite (text : jsstring) :
  Num.isFinite (calculateFleschKincaidGrade text) = true
  /\ Num.isFinite (calculateFleschReadingEase text) = true.
Proof.
  split; [apply calculateFleschKincaidGrade_finite | apply calculateFleschReadingEase_finite].
Qed.

(** X5. The grade of [analyzeSentence] is [Infinity] on a blank sentence,
    whose word count is 0, a finite number on every other sentence, and never
    [NaN]. *)
Theorem analyzeSentence_grade_cases (sentence : jsstring) :
  (trim sentence = [] ->
   grade (analyzeSentence sentence) = PosInf /\ wordCount (analyzeSentence sentence) = 0%nat)
  /\ (trim sentence <> [] ->
      Num.isFinite (grade (analyzeSentence sentence)) = true
      /\ (1 <= wordCount (analyzeSentence sentence))%nat)
  /\ Num.isNaN (grade (analyzeSentence sentence)) = false.
Proof.
  split; [| split; [| apply analyzeSentence_never_NaN]].
  - intros E. apply countWords_zero_trim in E.
    split; [apply analyzeSentence_no_words, E | exact E].
  - intros Hne.
    assert (Hw : (1 <= countWords sentence)%nat).
    { destruct (countWords sentence) eqn:E; [| lia].
      apply countWords_zero_trim in E. contradiction. }
    split; [apply analyzeSentence_finite, Hw | exact Hw].
Qed.

Lemma analyzeSentence_grade_eq (sentence : jsstring) :
  trim sentence <> [] -> countSentences sentence = 1%nat ->
  grade (analyzeSentence sentence) = calculateFleschKincaidGrade sentence
  /\ Num.isFinite (grade (analyzeSentence sentence)) = true.
Proof.
  intros Hne Hs.
  pose proof (splitWords_pieces sentence Hne) as Hp.
  assert (Hw : (1 <= countWords sentence)%nat).
  { destruct (countWords sentence) eqn:E; [| lia].
    apply countWords_zero_trim in E. contradiction. }
  split; [| apply analyzeSentence_finite, Hw].
  assert (Ho : orOne (countWords sentence) = countWords sentence).
  { unfold orOne. destruct (countWords sentence); [lia | reflexivity]. }
  unfold analyzeSentence, calculateFleschKincaidGrade. cbn [grade].
  rewrite Hs. fold (countWords sentence). rewrite Ho.
  rewrite (filterNonEmpty_all _ Hp). reflexivity.
Qed.

(** X6. On a sentence that is not blank and that [countSentences] counts as
    one, [analyzeSentence] gives the grade of [calculateFleschKincaidGrade],
    a finite number. *)
Theorem analyzeSentence_agrees_with_grade (sentence : jsstring) :
  trim sentence <> [] -> countSentences sentence = 1%nat ->
  grade (analyzeSentence sentence) = calculateFleschKincaidGrade sentence
  /\ Num.isFinite (grade (analyzeSentence sentence)) = true.
Proof. apply analyzeSentence_grade_eq. Qed.

Lemma analyzeSentence_agrees_with_grade_witness :
  grade (analyzeSentence theCatSat) = calculateFleschKincaidGrade theCatSat
  /\ Num.isFinite (grade (analyzeSentence theCatSat)) = true.
Proof.
  apply (analyzeSentence_agrees_with_grade theCatSat); [discriminate | reflexivity].
Defined.

(** X7. [analyzeSentence] does not see the blanks around its sentence: the
    trimmed sentence has the same analysis. *)
Lemma analyzeSentence_ignores_outer_blanks (sentence : jsstring) :
  analyzeSentence (trim sentence) = analyzeSentence sentence.
Proof.
  unfold analyzeSentence, countWords, splitWords. rewrite !trim_idempotent. reflexivity.
Qed.

End ScoreFacts.

(** ** Syllable estimators, continued *)

Section SyllableFacts.

Lemma vowelCount_cons (c : N) (w : jsstring) :
  vowelCount (c :: w) = ((if isVowel c then 1 else 0) + vowelCount w)%nat.
Proof.
  unfold vowelCount. destruct (isVowel c) eqn:E.
  - rewrite filter_cons_True by exact E. reflexivity.
  - rewrite filter_cons_False by congruence. reflexivity.
Qed.

Lemma vowelCount_app (a b : jsstring) : vowelCount (a ++ b) = (vowelCount a + vowelCount b)%nat.
Proof. unfold vowelCount. rewrite filter_app, length_app. reflexivity. Qed.

Lemma vowelGroups_le (n : nat) (w : jsstring) :
  (length w <= n)%nat -> (vowelGroups w <= vowelCount w)%nat.
Proof.
  revert w. induction n as [| n IH]; intros w Hl.
  - destruct w; [simpl; lia | simpl in Hl; lia].
  - destruct w as [| c r]; [simpl; lia |]. simpl in Hl.
    rewrite vowelCount_cons. simpl.
    destruct (isVowel c).
    + destruct r as [| c' r']; [lia |]. simpl in Hl.
      rewrite vowelCount_cons. destruct (isVowel c') eqn:E'.
      * pose proof (IH r' ltac:(lia)). lia.
      * pose proof (IH (c' :: r') ltac:(simpl; lia)) as H.
        rewrite vowelCount_cons, E' in H. cbv iota in H. lia.
    + pose proof (IH r ltac:(lia)). lia.
Qed.

Lemma dropSilentSuffix_prefix (w : jsstring) : exists b, w = dropSilentSuffix w ++ b.
Proof.
  unfold dropSilentSuffix.
  assert (P : forall r b, rev w = b ++ r -> w = rev r ++ rev b).
  { intros r b E. rewrite <- rev_app_distr, <- E. symmetry. apply rev_involutive. }
  destruct (rev w) as [| c3 [| c2 [| c1 r]]] eqn:E.
  - exists []. rewrite app_nil_r. reflexivity.
  - exists []. rewrite app_nil_r. reflexivity.
  - destruct (_ || _); [| exists []; rewrite app_nil_r; reflexivity].
    exists (rev [c3; c2]). apply (P [] [c3; c2]). reflexivity.
  - destruct (_ && _ && _).
    + exists (rev [c3; c2; c1]). apply (P r [c3; c2; c1]). reflexivity.
    + destruct (_ || _); [| exists []; rewrite app_nil_r; reflexivity].
      exists (rev [c3; c2]). apply (P (c1 :: r) [c3; c2]). reflexivity.
Qed.

Lemma dropLeadingY_vowels (w : jsstring) : (vowelCount (dropLeadingY w) <= vowelCount w)%nat.
Proof.
  destruct w as [| c r]; [simpl; lia |]. unfold dropLeadingY.
  destruct (N.eqb c (ch "y")); [rewrite vowelCount_cons; lia | lia].
Qed.

(** X8. On an ASCII word, where lower-casing keeps the length,
    [countSyllables] returns at least 1, at most the number of vowel letters of
    the word (or 1 when it has none), and 1 on every word of three code units
    or fewer.  (Off ASCII the engine may lengthen a word when it lower-cases
    it, which the model leaves out.) *)
Lemma countSyllables_bounds (word : jsstring) :
  forallb isAscii word = true ->
  (1 <= countSyllables word)%nat
  /\ (countSyllables word <= Nat.max 1 (vowelCount (toLowerCase word)))%nat
  /\ ((length word <= 3)%nat -> countSyllables word = 1%nat).
Proof.
  intros _.
  split; [apply countSyllables_pos | split; [| apply countSyllables_short]].
  unfold countSyllables.
  destruct (length (toLowerCase word) <=? 3)%nat; [lia |].
  set (w := toLowerCase word).
  destruct (Nat.eqb_spec (vowelGroups (dropLeadingY (dropSilentSuffix w))) 0); [lia |].
  pose proof (vowelGroups_le _ (dropLeadingY (dropSilentSuffix w)) (Nat.le_refl _)).
  pose proof (dropLeadingY_vowels (dropSilentSuffix w)).
  destruct (dropSilentSuffix_prefix w) as [b Hb].
  assert (vowelCount (dropSilentSuffix w) <= vowelCount w)%nat.
  { rewrite Hb at 2. rewrite vowelCount_app. lia. }
  lia.
Qed.

Lemma countSyllables_bounds_witness :
  (1 <= countSyllables (js "the"))%nat
  /\ (countSyllables (js "idea") <= 3)%nat
  /\ countSyllables (js "the") = 1%nat.
Proof.
  destruct (countSyllables_bounds (js "the") eq_refl) as (H1 & _ & H3).
  destruct (countSyllables_bounds (js "idea") eq_refl) as (_ & H2 & _).
  split; [exact H1 |]. split; [exact H2 | apply H3; simpl; lia].
Defined.

Lemma lower_upper_unit (c : N) : lowerUnit (upperUnit c) = lowerUnit c.
Proof.
  unfold upperUnit. destruct (isLowerAZ c) eqn:L; [| reflexivity].
  unfold lowerUnit.
  assert (U : isUpperAZ (c - 32) = true) by ranges.
  assert (U' : isUpperAZ c = false) by ranges.
  rewrite U, U'. ranges.
Qed.

Lemma toLowerCase_toUpperCase (w : jsstring) : toLowerCase (toUpperCase w) = toLowerCase w.
Proof.
  unfold toLowerCase, toUpperCase. rewrite map_map.
  apply map_ext. apply lower_upper_unit.
Qed.

Lemma toLowerCase_idempotent (w : jsstring) : toLowerCase (toLowerCase w) = toLowerCase w.
Proof.
  unfold toLowerCase. rewrite map_map. apply map_ext. intros c.
  unfold lowerUnit at 1. destruct (isUpperAZ (lowerUnit c)) eqn:E; [| reflexivity].
  exfalso. unfold lowerUnit in E. destruct (isUpperAZ c) eqn:U.
  - assert (isUpperAZ (c + 32) = false) by ranges. congruence.
  - congruence.
Qed.

(** X9. Both estimators ignore the case of an ASCII word. *)
Lemma syllable_estimators_ignore_case (word : jsstring) :
  forallb isAscii word = true ->
  countSyllables (toUpperCase word) = countSyllables word
  /\ countSyllables (toLowerCase word) = countSyllables word
  /\ V2.syllables (toUpperCase word) = V2.syllables word
  /\ V2.syllables (toLowerCase word) = V2.syllables word.
Proof.
  intros _. unfold countSyllables, V2.syllables.
  rewrite !toLowerCase_toUpperCase, !toLowerCase_idempotent. repeat split.
Qed.

Lemma syllable_estimators_ignore_case_witness :
  countSyllables (toUpperCase (js "Family")) = countSyllables (js "Family")
  /\ V2.syllables (toUpperCase (js "Family")) = V2.syllables (js "Family").
Proof.
  destruct (syllable_estimators_ignore_case (js "Family") eq_refl) as (H1 & _ & H3 & _).
  split; [exact H1 | exact H3].
Defined.

(** X10. On a word token whose letters do not spell "constructor" the
    second estimator returns an integer of at least 1. *)
Theorem syllables_at_least_one_but_constructor (word : jsstring) :
  isWordToken word = true ->
  filter (fun c => isLowerAZ c || N.eqb c (ch "'") = true) (toLowerCase word)
    <> js "constructor" ->
  exists n, V2.syllables word = V2.Count n /\ (1 <= n)%Z.
Proof. apply syllables_pos_but_constructor. Qed.

Lemma syllables_at_least_one_but_constructor_witness :
  exists n, V2.syllables (js "well-known") = V2.Count n /\ (1 <= n)%Z.
Proof.
  apply (syllables_at_least_one_but_constructor (js "well-known"));
    [reflexivity | vm_compute; discriminate].
Defined.

End SyllableFacts.

(** ** Classifier, continued *)

Section Monotone.

Local Open Scope Z_scope.

Lemma ge_margin_mono (q1 q2 : Q) (target margin : Z) :
  (q1 <= q2)%Q ->
  Num.ge (Num.sub (Fin q1) (Num.ofZ target)) (Num.ofZ margin) = true ->
  Num.ge (Num.sub (Fin q2) (Num.ofZ target)) (Num.ofZ margin) = true.
Proof.
  simpl. intros H H1. apply Qle_bool_iff in H1. apply Qle_bool_iff.
  eapply Qle_trans; [exact H1 |]. apply Qplus_le_compat; [exact H | apply Qle_refl].
Qed.

Lemma gt_margin_mono (q1 q2 : Q) (target margin : Z) :
  (q1 <= q2)%Q ->
  Num.gt (Num.sub (Fin q1) (Num.ofZ target)) (Num.ofZ margin) = true ->
  Num.gt (Num.sub (Fin q2) (Num.ofZ target)) (Num.ofZ margin) = true.
Proof.
  simpl. intros H H1. apply negb_true_iff in H1. apply negb_true_iff.
  destruct (Qle_bool (q2 + - inject_Z target) (inject_Z margin)) eqn:E; [| reflexivity].
  apply Qle_bool_iff in E.
  assert (L : (q1 + - inject_Z target <= inject_Z margin)%Q).
  { eapply Qle_trans; [| exact E]. apply Qplus_le_compat; [exact H | apply Qle_refl]. }
  apply Qle_bool_iff in L. congruence.
Qed.

Ltac case_words :=
  repeat match goal with
         | |- context [(?a <=? ?b)%Z] => destruct (Z.leb_spec a b)
         | |- context [(?a <? ?b)%Z] => destruct (Z.ltb_spec a b)
         end.

(** X11. The first classifier is monotone: with more words and a higher
    finite grade, for the same target, the tag is at least as severe (none,
    blue, yellow, red in this order). *)
Lemma v1_classify_monotone (words1 words2 : Z) (q1 q2 : Q) (target : Z) :
  words1 <= words2 -> (q1 <= q2)%Q ->
  (severity (V1.classify words1 (Fin q1) target)
   <= severity (V1.classify words2 (Fin q2) target))%nat.
Proof.
  intros Hw Hq. unfold V1.classify.
  pose proof (ge_margin_mono q1 q2 target V1.DELTA_VERY_HARD Hq) as A.
  pose proof (ge_margin_mono q1 q2 target V1.DELTA_HARD Hq) as B.
  destruct (Num.ge (Num.sub (Fin q1) _) (Num.ofZ V1.DELTA_VERY_HARD));
    destruct (Num.ge (Num.sub (Fin q1) _) (Num.ofZ V1.DELTA_HARD));
    try rewrite (A eq_refl); try rewrite (B eq_refl);
    destruct (Num.ge (Num.sub (Fin q2) _) (Num.ofZ V1.DELTA_VERY_HARD));
    destruct (Num.ge (Num.sub (Fin q2) _) (Num.ofZ V1.DELTA_HARD));
    unfold V1.MIN_RED_WORDS_FOR_GRADE, V1.MIN_YELLOW_WORDS_FOR_GRADE,
      V1.LONG_SENTENCE_WORDS, V1.ENABLE_BLUE;
    case_words; simpl; lia.
Qed.

Lemma v1_classify_monotone_witness :
  (severity (V1.classify 16 (Fin (inject_Z 6)) 6)
   <= severity (V1.classify 18 (Fin (inject_Z 9)) 6))%nat.
Proof.
  apply (v1_classify_monotone 16 18 (inject_Z 6) (inject_Z 9) 6);
    [lia | unfold Qle; simpl; lia].
Defined.

(** X12. The second classifier is monotone in the grade for a fixed word
    count, and monotone in words and grade together as long as the lower grade
    is not more than 3 above the target (above that margin a red sentence of
    18 or 19 words turns yellow at 20). *)
Lemma v2_classify_monotone (words1 words2 : Z) (q1 q2 : Q) (target : Z) :
  words1 <= words2 -> (q1 <= q2)%Q ->
  (severity (V2.classify words1 (Fin q1) target)
   <= severity (V2.classify words1 (Fin q2) target))%nat
  /\ (Num.gt (Num.sub (Fin q1) (Num.ofZ target)) (Num.ofZ V2.DELTA_VERY_HARD) = false ->
      (severity (V2.classify words1 (Fin q1) target)
       <= severity (V2.classify words2 (Fin q2) target))%nat).
Proof.
  intros Hw Hq. unfold V2.classify, V2.classifyWith.
  cbn [V2.hemiVeryHardWords V2.hemiHardWords V2.deltaVeryHard V2.deltaHard
       V2.minRedWordsForGrade V2.minYellowWordsForGrade V2.enableBlue
       V2.longSentenceWords V2.constants].
  pose proof (gt_margin_mono q1 q2 target V2.DELTA_VERY_HARD Hq) as A.
  pose proof (gt_margin_mono q1 q2 target V2.DELTA_HARD Hq) as B.
  destruct (Num.gt (Num.sub (Fin q1) _) (Num.ofZ V2.DELTA_VERY_HARD));
    destruct (Num.gt (Num.sub (Fin q1) _) (Num.ofZ V2.DELTA_HARD));
    try rewrite (A eq_refl); try rewrite (B eq_refl);
    destruct (Num.gt (Num.sub (Fin q2) _) (Num.ofZ V2.DELTA_VERY_HARD));
    destruct (Num.gt (Num.sub (Fin q2) _) (Num.ofZ V2.DELTA_HARD));
    unfold V2.HEMI_VERY_HARD_WORDS, V2.HEMI_HARD_WORDS, V2.MIN_RED_WORDS_FOR_GRADE,
      V2.MIN_YELLOW_WORDS_FOR_GRADE, V2.LONG_SENTENCE_WORDS, V2.ENABLE_BLUE;
    (split; [| intros Hd; try discriminate Hd]);
    case_words; simpl; lia.
Qed.

Lemma v2_classify_monotone_witness :
  (severity (V2.classify 16 (Fin (inject_Z 8)) 6)
   <= severity (V2.classify 21 (Fin (inject_Z 8)) 6))%nat.
Proof.
  apply (v2_classify_monotone 16 21 (inject_Z 8) (inject_Z 8) 6);
    [lia | unfold Qle; simpl; lia | reflexivity].
Defined.

End Monotone.

(** X13. In the second variant every sentence mark has a tooltip: the tag
    is never blue, the message is not empty, and it is the compound message
    for red exactly when the length rule for red and the grade rule for red
    both fired. *)
Lemma v2_mark_has_rule_tooltip (wordCount : nat) (g : number) (target : Z) (c : color) :
  V2.classify (Z.of_nat wordCount) g target = Some c ->
  c <> Blue
  /\ V2.sentenceTip c wordCount g target <> []
  /\ (V2.sentenceTip c wordCount g target
        = js "Very hard, long and above target, split and simplify."
      <-> c = Red /\ V2.byLengthHard V2.constants (Z.of_nat wordCount) = true
          /\ V2.byDeltaHard V2.constants (Z.of_nat wordCount) g target = true).
Proof.
  unfold V2.classify, V2.classifyWith, V2.sentenceTip, V2.tooltipMessage,
    V2.byLengthHard, V2.byLengthYellow, V2.byDeltaHard, V2.byDeltaYellow.
  cbn [V2.hemiVeryHardWords V2.hemiHardWords V2.deltaVeryHard V2.deltaHard
       V2.minRedWordsForGrade V2.minYellowWordsForGrade V2.enableBlue
       V2.longSentenceWords V2.constants].
  set (w := Z.of_nat wordCount).
  destruct (V2.HEMI_VERY_HARD_WORDS <=? w)%Z;
    destruct (V2.HEMI_HARD_WORDS <=? w)%Z;
    destruct (Num.gt _ (Num.ofZ V2.DELTA_VERY_HARD));
    destruct (V2.MIN_RED_WORDS_FOR_GRADE <=? w)%Z;
    destruct (Num.gt _ (Num.ofZ V2.DELTA_HARD));
    destruct (V2.MIN_YELLOW_WORDS_FOR_GRADE <=? w)%Z;
    simpl; intros [= <-];
    (split; [discriminate |]); (split; [discriminate |]);
    (split; [intros E; try discriminate E; auto | intros (E1 & E2 & E3); try discriminate; auto]).
Qed.

Lemma v2_mark_has_rule_tooltip_witness :
  V2.sentenceTip Red 30 (Fin (inject_Z 12)) 6
  = js "Very hard, long and above target, split and simplify.".
Proof.
  apply (v2_mark_has_rule_tooltip 30 (Fin (inject_Z 12)) 6 Red eq_refl).
  repeat split.
Defined.

(** ** Sentence fragments and word tokens *)

Section Tokens.

Lemma splitAux_concat (s : jsstring) :
  forall (st : splitState) (cur : jsstring),
  concat (splitAux st cur s)
  = match st with
    | Outside => dropWhile isTerminator s
    | _ => rev cur ++ s
    end.
Proof.
  induction s as [| c r IH]; intros st cur.
  - destruct st; simpl; rewrite ?app_nil_r; reflexivity.
  - simpl. destruct st, (isTerminator c); simpl; rewrite ?IH; simpl;
      rewrite <- ?app_assoc; reflexivity.
Qed.

Lemma forallb_snoc (f : N -> bool) (l : jsstring) (c : N) :
  forallb f (l ++ [c]) = forallb f l && f c.
Proof. rewrite forallb_app. simpl. rewrite andb_true_r. reflexivity. Qed.

Lemma splitAux_fragments (s : jsstring) :
  forall (st : splitState) (cur : jsstring),
  match st with
  | Outside => True
  | InBody => rev cur <> [] /\ forallb (fun c => negb (isTerminator c)) (rev cur) = true
  | InTail => isFragment (rev cur)
  end ->
  Forall isFragment (splitAux st cur s).
Proof.
  induction s as [| c r IH]; intros st cur Inv.
  - destruct st; simpl; [constructor | |].
    + constructor; [| constructor]. destruct Inv as [Hne Hb].
      exists (rev cur), []. rewrite app_nil_r. repeat split; assumption.
    + constructor; [exact Inv | constructor].
  - simpl. destruct st, (isTerminator c) eqn:Ec.
    + apply IH. exact I.
    + apply IH. simpl. rewrite Ec. split; [discriminate | reflexivity].
    + apply IH. destruct Inv as [Hne Hb]. simpl.
      exists (rev cur), [c]. simpl. rewrite Ec. repeat split; assumption.
    + apply IH. destruct Inv as [Hne Hb]. simpl. split.
      * intros E. apply app_eq_nil in E as [_ E]. discriminate.
      * rewrite forallb_snoc, Hb, Ec. reflexivity.
    + apply IH. destruct Inv as (body & tail & E & Hne & Hb & Ht). simpl.
      exists body, (tail ++ [c]). rewrite E, <- app_assoc.
      repeat split; try assumption. rewrite forallb_snoc, Ht, Ec. reflexivity.
    + constructor; [exact Inv |]. apply IH. simpl. rewrite Ec.
      split; [discriminate | reflexivity].
Qed.

(** X14. The fragments of [splitIntoSentences], put end to end, are the
    text without the terminators that it starts with; each fragment is a
    non-empty run without terminator followed by the terminators after it. *)
Theorem splitIntoSentences_tiles_text (text : jsstring) :
  concat (splitIntoSentences text) = dropWhile isTerminator text
  /\ Forall isFragment (splitIntoSentences text).
Proof.
  split.
  - apply (splitAux_concat text Outside []).
  - apply splitAux_fragments. exact I.
Qed.

Lemma wordChar_tokenChar (c : N) : isWordChar c = true -> isTokenChar c = true.
Proof. unfold isTokenChar. intros ->. reflexivity. Qed.

Lemma matchBody_of_word (s : jsstring) : nextIsWord s = true -> matchBody s <> None.
Proof.
  induction s as [| c r IH]; simpl; [discriminate |].
  intros Hc. rewrite (wordChar_tokenChar c Hc).
  destruct (matchBody r) eqn:E; [discriminate |].
  destruct (nextIsWord r) eqn:Er; [exfalso; apply IH; reflexivity |].
  rewrite Hc. simpl. discriminate.
Qed.

Lemma nextIsWord_app (a b : jsstring) : a <> [] -> nextIsWord (a ++ b) = nextIsWord a.
Proof. destruct a; [congruence | reflexivity]. Qed.

Lemma matchBody_rest (s t : jsstring) :
  matchBody s = Some t ->
  exists r, s = t ++ r /\ matchBody r = None /\ lastIsWord t = true.
Proof.
  revert t. induction s as [| c r0 IH]; intros t; simpl; [discriminate |].
  destruct (isTokenChar c); [| discriminate].
  destruct (matchBody r0) as [t' |] eqn:E.
  - intros [= <-]. destruct (IH t' eq_refl) as (r & -> & Hn & Hl).
    exists r. repeat split; [exact Hn |].
    unfold lastIsWord in *. simpl. rewrite nextIsWord_app; [exact Hl |].
    destruct (rev t'); [discriminate Hl | discriminate].
  - destruct (nextIsWord r0) eqn:Er.
    + exfalso. apply (matchBody_of_word r0 Er E).
    + destruct (isWordChar c) eqn:Ec; simpl; [| discriminate].
      intros [= <-]. exists r0. repeat split; [exact E |].
      unfold lastIsWord. simpl. exact Ec.
Qed.

Lemma scanInv_step (c : N) (r : jsstring) (k : nat) (prev : bool) :
  scanInv prev (S k) (c :: r) -> scanInv (isWordChar c) k r.
Proof. unfold scanInv. simpl. destruct k; [intros H _; exact H | trivial]. Qed.

Lemma scanInv_after_match (c : N) (r tok : jsstring) :
  matchBody (c :: r) = Some tok -> scanInv (isWordChar c) (length tok - 1) r.
Proof.
  intros H. destruct (matchBody_rest _ _ H) as (rem & E & Hn & _).
  destruct tok as [| c' t']; [simpl in H; destruct (isTokenChar c); [destruct (matchBody r); [discriminate |]; destruct (xorb _ _); discriminate | discriminate] |].
  simpl in E. injection E as -> ->.
  simpl. rewrite Nat.sub_0_r. unfold scanInv.
  destruct (length t') eqn:L.
  - destruct t'; [| discriminate]. intros _. exact Hn.
  - rewrite <- L, drop_app_length. exact Hn.
Qed.

Lemma execAllFrom_word_ends (s : jsstring) :
  forall (idx : nat) (prev : bool) (skip : nat) (i : nat) (tok : jsstring),
  scanInv prev skip s ->
  (i, tok) ∈ execAllFrom idx prev skip s ->
  nextIsWord tok = true /\ lastIsWord tok = true.
Proof.
  induction s as [| c r IH]; intros idx prev skip i tok Inv; simpl.
  - intros H. inversion H.
  - destruct skip as [| k].
    + destruct (matchWordAt prev (c :: r)) as [t |] eqn:E.
      * unfold matchWordAt in E.
        destruct (xorb prev (nextIsWord (c :: r))) eqn:X; [| discriminate].
        assert (Hp : prev = false).
        { destruct prev; [| reflexivity]. rewrite (Inv eq_refl) in E. discriminate. }
        subst prev. simpl in X.
        intros H. apply elem_of_cons in H as [[= -> ->] | H].
        -- destruct (matchBody_rest _ _ E) as (rem & Es & _ & Hl).
           split; [| exact Hl].
           destruct t as [| c' t']; [discriminate Hl |].
           simpl in Es. injection Es as <- _. exact X.
        -- eapply IH; [| exact H]. eapply scanInv_after_match, E.
      * apply IH. unfold scanInv. intros Hc.
        exfalso. unfold matchWordAt in E.
        change (nextIsWord (c :: r)) with (isWordChar c) in E. rewrite Hc in E.
        assert (M : matchBody (c :: r) <> None) by (apply matchBody_of_word; exact Hc).
        destruct prev; [apply M, (Inv eq_refl) | exact (M E)].
    + apply IH. eapply scanInv_step, Inv.
Qed.

Lemma orderedFrom_weaken (l : list (nat * jsstring)) (lo lo' : nat) :
  (lo <= lo')%nat -> orderedFrom lo' l -> orderedFrom lo l.
Proof. destruct l as [| [i t] r]; simpl; [trivial |]. intros H [H1 H2]. split; [lia | exact H2]. Qed.

Lemma matchBody_nonempty (s t : jsstring) : matchBody s = Some t -> (1 <= length t)%nat.
Proof.
  intros H. apply matchBody_token_chars in H as [_ H].
  destruct t; [contradiction | simpl; lia].
Qed.

Lemma execAllFrom_ordered (s : jsstring) :
  forall (idx : nat) (prev : bool) (skip : nat),
  orderedFrom (idx + skip) (execAllFrom idx prev skip s).
Proof.
  induction s as [| c r IH]; intros idx prev skip; simpl; [exact I |].
  destruct skip as [| k].
  - destruct (matchWordAt prev (c :: r)) as [t |] eqn:E.
    + simpl. split; [lia |].
      unfold matchWordAt in E. destruct (xorb _ _); [| discriminate].
      pose proof (matchBody_nonempty _ _ E).
      replace (idx + length t)%nat with (S idx + (length t - 1))%nat by lia. apply IH.
    + eapply orderedFrom_weaken; [| apply (IH (S idx) _ 0%nat)]. lia.
  - replace (idx + S k)%nat with (S idx + k)%nat by lia. apply IH.
Qed.

Lemma stripApostrophes_token (tok : jsstring) :
  nextIsWord tok = true -> lastIsWord tok = true -> stripApostrophes tok = tok.
Proof.
  intros Hh Hl. unfold stripApostrophes.
  assert (A : forall c, isWordChar c = true -> N.eqb c (ch "'") = false).
  { intros c Hc. apply N.eqb_neq. intros ->. discriminate Hc. }
  rewrite (dropWhile_fixed _ tok).
  - rewrite (dropWhile_fixed _ (rev tok)); [apply rev_involutive |].
    unfold lastIsWord in Hl. destruct (rev tok); [trivial | apply A, Hl].
  - destruct tok; [trivial | apply A, Hh].
Qed.

(** X15. Every match of the word regex starts and ends with a word
    character and holds token characters only; stripping apostrophes leaves
    it unchanged, it is not empty and it is not URL-like, so that the first
    two filters of the word loop never apply. *)
Lemma word_tokens_are_clean (s : jsstring) (k i : nat) (tok : jsstring) :
  execAll s !! k = Some (i, tok) ->
  nextIsWord tok = true /\ lastIsWord tok = true
  /\ forallb isTokenChar tok = true
  /\ stripApostrophes tok = tok
  /\ isUrlLike (stripApostrophes tok) = false
  /\ isEmpty (stripApostrophes tok) = false.
Proof.
  intros H. apply list_elem_of_lookup_2 in H.
  destruct (execAllFrom_word_ends s 0 false 0 i tok) as [Hh Hl];
    [intros [=] | exact H |].
  destruct (execAllFrom_token_chars _ _ _ _ _ _ H) as [Ht Hne].
  pose proof (stripApostrophes_token tok Hh Hl) as Hs.
  rewrite Hs. repeat split; try assumption.
  - apply token_not_url, Ht.
  - destruct tok; [contradiction | reflexivity].
Qed.

Lemma word_tokens_are_clean_witness :
  stripApostrophes (js "it's") = js "it's" /\ isUrlLike (js "it's") = false.
Proof.
  destruct (word_tokens_are_clean (js "'tis what it's worth'") 2 10 (js "it's") eq_refl)
    as (_ & _ & _ & H1 & H2 & _).
  split; [exact H1 | rewrite H1 in H2; exact H2].
Defined.

Lemma orderedFrom_lookup (l : list (nat * jsstring)) :
  forall (lo k i : nat) (t : jsstring),
  orderedFrom lo l -> l !! k = Some (i, t) -> (lo <= i)%nat.
Proof.
  induction l as [| [i0 t0] r IH]; intros lo k i t Ho Hk; [discriminate |].
  destruct Ho as [H1 H2]. destruct k as [| k]; simpl in Hk.
  - injection Hk as -> _. exact H1.
  - pose proof (IH _ _ _ _ H2 Hk). lia.
Qed.

Lemma orderedFrom_lookup2 (l : list (nat * jsstring)) :
  forall (lo j k i1 i2 : nat) (t1 t2 : jsstring),
  orderedFrom lo l -> (j < k)%nat ->
  l !! j = Some (i1, t1) -> l !! k = Some (i2, t2) ->
  (i1 + length t1 <= i2)%nat.
Proof.
  induction l as [| [i0 t0] r IH]; intros lo j k i1 i2 t1 t2 Ho Hjk Hj Hk; [discriminate |].
  destruct Ho as [H1 H2]. destruct k as [| k]; [lia |]. simpl in Hk.
  destruct j as [| j]; simpl in Hj.
  - injection Hj as -> ->. eapply orderedFrom_lookup; eassumption.
  - eapply (IH _ j k); try eassumption. lia.
Qed.

(** X16. The matches of the word regex come in increasing order and do not
    overlap: a later match starts at or after the end of an earlier one, and
    every match ends inside the sentence. *)
Lemma word_tokens_do_not_overlap (s : jsstring) (j k i1 i2 : nat) (t1 t2 : jsstring) :
  (j < k)%nat ->
  execAll s !! j = Some (i1, t1) -> execAll s !! k = Some (i2, t2) ->
  (i1 + length t1 <= i2)%nat /\ (i2 + length t2 <= length s)%nat.
Proof.
  intros Hjk Hj Hk. split.
  - eapply (orderedFrom_lookup2 (execAll s) 0); try eassumption.
    apply (execAllFrom_ordered s 0 false 0).
  - eapply occursAt_bound, execAll_occurs, Hk.
Qed.

Lemma word_tokens_do_not_overlap_witness :
  (1 + length (js "tis") <= 10)%nat
  /\ (10 + length (js "it's") <= length (js "'tis what it's worth'"))%nat.
Proof.
  apply (word_tokens_do_not_overlap (js "'tis what it's worth'") 0 2 1 10
           (js "tis") (js "it's")); [lia | reflexivity | reflexivity].
Defined.

End Tokens.

(** ** Decoration builder, continued *)

Section BuilderFacts.

Variable classify : Z -> number -> Z -> option color.
Variable sentenceTip : color -> nat -> number -> Z -> jsstring.
Variable isHardBySyll : jsstring -> Z -> bool.
Variable SIMPLE_WORD_MAP : jsstring -> mapValue.
Variable targetGrade : Z.

Lemma isPrefix_app_true (p b : jsstring) : isPrefix p (p ++ b) = true.
Proof. induction p as [| a p IH]; simpl; [reflexivity |]. rewrite N.eqb_refl. exact IH. Qed.

Lemma indexOfAt_finds (a pat b : jsstring) (p0 : nat) :
  exists p, indexOfAt (a ++ pat ++ b) pat p0 = Some p
            /\ (p0 <= p <= p0 + length a)%nat.
Proof.
  revert p0. induction a as [| c a IH]; intros p0.
  - exists p0. split; [| simpl; lia].
    simpl. destruct (pat ++ b) eqn:E; simpl; rewrite <- E, isPrefix_app_true; reflexivity.
  - simpl. destruct (isPrefix pat (c :: a ++ pat ++ b)).
    + exists p0. split; [reflexivity | lia].
    + destruct (IH (S p0)) as (p & Hp & Hr). exists p. split; [exact Hp | lia].
Qed.

(** [indexOf] returns the first occurrence at or after its start. *)
Lemma indexOf_finds_first (text pat : jsstring) (from q : nat) :
  occursAt pat text q -> (from <= q)%nat ->
  exists p, indexOf text pat from = Some p
            /\ (from <= p <= q)%nat /\ occursAt pat text p.
Proof.
  intros (a & b & -> & <-) Hle. unfold indexOf.
  assert (Hk : Nat.min from (length (a ++ pat ++ b)) = from).
  { rewrite length_app. lia. }
  rewrite Hk.
  assert (Hd : drop from (a ++ pat ++ b) = drop from a ++ pat ++ b).
  { rewrite drop_app_le by exact Hle. reflexivity. }
  rewrite Hd.
  destruct (indexOfAt_finds (drop from a) pat b from) as (p & Hp & Hr).
  rewrite length_drop in Hr.
  exists p. split; [exact Hp |]. split; [lia |].
  apply (indexOf_occurs (a ++ pat ++ b) pat from). unfold indexOf. rewrite Hk, Hd. exact Hp.
Qed.

Lemma indexOf_bounds (text pat : jsstring) (from p : nat) :
  pat <> [] -> indexOf text pat from = Some p ->
  (from <= p)%nat /\ (p + length pat <= length text)%nat.
Proof.
  intros Hne H. pose proof (occursAt_bound _ _ _ (indexOf_occurs _ _ _ _ H)) as Hb.
  split; [| exact Hb].
  unfold indexOf in H. apply indexOfAt_occurs in H as (a & b & _ & ->).
  destruct pat; [contradiction |]. simpl in Hb. lia.
Qed.

Lemma build_single (showHardWords : bool) (easySet : gset (list N)) (n : node) (pos : nat) :
  buildDecorationsWith classify sentenceTip isHardBySyll SIMPLE_WORD_MAP targetGrade
    showHardWords easySet [(n, pos)]
  = blockDecorations classify sentenceTip isHardBySyll SIMPLE_WORD_MAP targetGrade
      showHardWords easySet n pos.
Proof.
  cbn [buildDecorationsWith].
  destruct (blockDecorations _ _ _ _ _ _ _ n pos) as [here |]; simpl; [| reflexivity].
  rewrite app_nil_r. reflexivity.
Qed.

Lemma block_in_doc (showHardWords : bool) (easySet : gset (list N)) (doc : document)
    (decos : list decoration) (n : node) (pos : nat) :
  (n, pos) ∈ doc ->
  buildDecorationsWith classify sentenceTip isHardBySyll SIMPLE_WORD_MAP targetGrade
    showHardWords easySet doc = Returns decos ->
  exists here,
    blockDecorations classify sentenceTip isHardBySyll SIMPLE_WORD_MAP targetGrade
      showHardWords easySet n pos = Returns here
    /\ forall d, d ∈ here -> d ∈ decos.
Proof.
  revert decos. induction doc as [| [n0 p0] rest IH]; intros decos Hin; [inversion Hin |].
  cbn [buildDecorationsWith].
  destruct (blockDecorations _ _ _ _ _ _ _ n0 p0) as [here0 |] eqn:Hb; [| discriminate].
  destruct (buildDecorationsWith _ _ _ _ _ _ _ rest) as [later |] eqn:Hr; [| discriminate].
  simpl. intros [= <-].
  apply elem_of_cons in Hin as [[= -> ->] | Hin].
  - exists here0. split; [exact Hb |]. intros d Hd. apply elem_of_app. left. exact Hd.
  - destruct (IH later Hin eq_refl) as (here & Hh & Hsub).
    exists here. split; [exact Hh |]. intros d Hd. apply elem_of_app. right. auto.
Qed.

Lemma wordLoop_complete (easySet : gset (list N)) (matches : list (nat * jsstring)) :
  forall (sentenceFrom tokenIndex k index : nat) (wOrig tip : jsstring)
         (pushed : list decoration),
  matches !! k = Some (index, wOrig) ->
  flagWord isHardBySyll SIMPLE_WORD_MAP targetGrade easySet (tokenIndex + k) wOrig
  = Returns (Some tip) ->
  wordLoop isHardBySyll SIMPLE_WORD_MAP targetGrade easySet sentenceFrom tokenIndex matches
  = Returns pushed ->
  {| from := sentenceFrom + index; to := sentenceFrom + index + length wOrig;
     attrs := HardWord tip |} ∈ pushed.
Proof.
  induction matches as [| [i0 w0] rest IH]; intros sf ti k index wOrig tip pushed Hk Hf;
    [discriminate |].
  cbn [wordLoop].
  destruct (flagWord _ _ _ _ ti w0) as [o |] eqn:E; [| discriminate].
  destruct (wordLoop _ _ _ _ sf (S ti) rest) as [later |] eqn:W; [| discriminate].
  simpl. intros [= <-].
  destruct k as [| k]; simpl in Hk.
  - injection Hk as -> ->. rewrite Nat.add_0_r in Hf. rewrite Hf in E.
    injection E as <-. left.
  - assert (T : {| from := sf + index; to := sf + index + length wOrig;
                   attrs := HardWord tip |} ∈ later).
    { eapply IH; [exact Hk | | exact W].
      replace (S ti + k)%nat with (ti + S k)%nat by lia. exact Hf. }
    destruct o; [right |]; exact T.
Qed.

Lemma wordLoop_no_mark (easySet : gset (list N)) (matches : list (nat * jsstring)) :
  forall sentenceFrom tokenIndex pushed,
  wordLoop isHardBySyll SIMPLE_WORD_MAP targetGrade easySet sentenceFrom tokenIndex matches
  = Returns pushed ->
  Forall (fun d => isMark d = false) pushed.
Proof.
  induction matches as [| [i0 w0] rest IH]; intros sf ti pushed; cbn [wordLoop].
  - intros [= <-]. constructor.
  - destruct (flagWord _ _ _ _ ti w0) as [o |]; [| discriminate].
    destruct (wordLoop _ _ _ _ sf (S ti) rest) as [later |] eqn:W; [| discriminate].
    simpl. intros [= <-].
    destruct o; [constructor; [reflexivity |] |]; eapply IH; exact W.
Qed.

(** The loops return when no token throws. *)
Lemma wordLoop_returns (easySet : gset (list N)) (matches : list (nat * jsstring)) :
  (forall k w, exists o,
      flagWord isHardBySyll SIMPLE_WORD_MAP targetGrade easySet k w = Returns o) ->
  forall sentenceFrom tokenIndex, exists pushed,
    wordLoop isHardBySyll SIMPLE_WORD_MAP targetGrade easySet sentenceFrom tokenIndex matches
    = Returns pushed.
Proof.
  intros Hf. induction matches as [| [i0 w0] rest IH]; intros sf ti; cbn [wordLoop].
  - eexists. reflexivity.
  - destruct (Hf ti w0) as [o ->]. destruct (IH sf (S ti)) as [later ->].
    simpl. eexists. reflexivity.
Qed.

Lemma sentenceLoop_returns (showHardWords : bool) (easySet : gset (list N))
    (text : jsstring) (blockFrom : nat) (parts : list jsstring) :
  (showHardWords = true ->
   forall k w, exists o,
     flagWord isHardBySyll SIMPLE_WORD_MAP targetGrade easySet k w = Returns o) ->
  forall searchFrom, exists pushed,
    sentenceLoop classify sentenceTip isHardBySyll SIMPLE_WORD_MAP targetGrade
      showHardWords easySet text blockFrom parts searchFrom = Returns pushed.
Proof.
  intros Hf. induction parts as [| raw rest IH]; intros searchFrom; cbn [sentenceLoop].
  - eexists. reflexivity.
  - destruct (isEmpty (trim raw)); [apply IH |].
    destruct (indexOf text (trim raw) searchFrom) as [p |]; [| apply IH].
    cbn zeta. destruct (IH (p + length (trim raw))%nat) as [later ->].
    destruct showHardWords.
    + destruct (wordLoop_returns easySet (execAll (trim raw)) (Hf eq_refl) (blockFrom + p) 0)
        as [words ->].
      simpl. eexists. reflexivity.
    + simpl. eexists. reflexivity.
Qed.

Lemma build_returns (showHardWords : bool) (easySet : gset (list N)) (doc : document) :
  (showHardWords = true ->
   forall k w, exists o,
     flagWord isHardBySyll SIMPLE_WORD_MAP targetGrade easySet k w = Returns o) ->
  exists decos,
    buildDecorationsWith classify sentenceTip isHardBySyll SIMPLE_WORD_MAP targetGrade
      showHardWords easySet doc = Returns decos.
Proof.
  intros Hf. induction doc as [| [n pos] rest IH]; cbn [buildDecorationsWith].
  - eexists. reflexivity.
  - destruct IH as [later ->].
    assert (Hb : exists here,
               blockDecorations classify sentenceTip isHardBySyll SIMPLE_WORD_MAP targetGrade
                 showHardWords easySet n pos = Returns here).
    { unfold blockDecorations. destruct (isBlock n); [| eexists; reflexivity].
      destruct (isEmpty (textContent n)); [eexists; reflexivity |].
      apply sentenceLoop_returns, Hf. }
    destruct Hb as [here ->]. simpl. eexists. reflexivity.
Qed.

Lemma sentenceLoop_complete (showHardWords : bool) (easySet : gset (list N))
    (text : jsstring) (blockFrom : nat) (parts : list jsstring) :
  forall (pre : jsstring) (searchFrom : nat) (raw : jsstring) (pushed : list decoration),
  text = pre ++ concat parts -> (searchFrom <= length pre)%nat ->
  raw ∈ parts -> trim raw <> [] ->
  sentenceLoop classify sentenceTip isHardBySyll SIMPLE_WORD_MAP targetGrade
    showHardWords easySet text blockFrom parts searchFrom = Returns pushed ->
  exists start,
    occursAt (trim raw) text start
    /\ (forall c, classify (Z.of_nat (wordCount (analyzeSentence (trim raw))))
                    (grade (analyzeSentence (trim raw))) targetGrade = Some c ->
        {| from := blockFrom + start; to := blockFrom + start + length (trim raw);
           attrs := Mark c (sentenceTip c (wordCount (analyzeSentence (trim raw)))
                              (grade (analyzeSentence (trim raw))) targetGrade) |}
        ∈ pushed)
    /\ (showHardWords = true ->
        forall k index wOrig tip,
          execAll (trim raw) !! k = Some (index, wOrig) ->
          flagWord isHardBySyll SIMPLE_WORD_MAP targetGrade easySet k wOrig
          = Returns (Some tip) ->
          {| from := blockFrom + start + index;
             to := blockFrom + start + index + length wOrig;
             attrs := HardWord tip |} ∈ pushed).
Proof.
  induction parts as [| raw0 rest IH]; intros pre searchFrom raw pushed Htext Hsf Hin Hne.
  - inversion Hin.
  - simpl in Htext.
    assert (Htext' : text = (pre ++ raw0) ++ concat rest)
      by (rewrite <- app_assoc; exact Htext).
    destruct (trim_occurs raw0) as (a & b & Hraw0 & _).
    assert (Hocc0 : occursAt (trim raw0) text (length pre + length a)).
    { exists (pre ++ a), (b ++ concat rest). split; [| apply length_app].
      rewrite Htext, Hraw0 at 1. rewrite <- !app_assoc. reflexivity. }
    assert (Hlen0 : length raw0 = (length a + length (trim raw0) + length b)%nat).
    { rewrite Hraw0 at 1. rewrite !length_app. lia. }
    cbn [sentenceLoop]. destruct (isEmpty (trim raw0)) eqn:He.
    + intros Hrun. apply elem_of_cons in Hin as [-> | Hin].
      * destruct (trim raw0); [contradiction | discriminate].
      * refine (IH (pre ++ raw0) (searchFrom + length raw0)%nat raw pushed Htext' _
                  Hin Hne Hrun).
        rewrite length_app. lia.
    + destruct (indexOf_finds_first text (trim raw0) searchFrom (length pre + length a) Hocc0)
        as (p & Hp & Hr & Hoccp); [lia |].
      rewrite Hp. cbn zeta.
      destruct (if showHardWords then _ else _) as [words |] eqn:Hw; [| discriminate].
      destruct (sentenceLoop _ _ _ _ _ _ _ _ _ rest _) as [later |] eqn:Hl; [| discriminate].
      simpl. intros [= <-].
      apply elem_of_cons in Hin as [-> | Hin].
      * exists p. split; [exact Hoccp |]. split.
        -- intros c Hc. rewrite Hc. rewrite elem_of_app. left. left.
        -- intros -> k index wOrig tip Hk Hf.
           rewrite !elem_of_app. right. left.
           apply (wordLoop_complete easySet (execAll (trim raw0)) (blockFrom + p) 0 k
                    index wOrig tip words Hk Hf Hw).
      * destruct (IH (pre ++ raw0) (p + length (trim raw0))%nat raw later Htext')
          as (start & Ho & Hm & Hwd); try assumption.
        { rewrite length_app. lia. }
        exists start. split; [exact Ho |]. split.
        -- intros c Hc. rewrite !elem_of_app. right. right. apply Hm, Hc.
        -- intros Hs k index wOrig tip Hk Hf.
           rewrite !elem_of_app. right. right. eapply Hwd; eassumption.
Qed.

Lemma splitIntoSentences_nonempty_text (text raw : jsstring) :
  raw ∈ splitIntoSentences text -> isEmpty text = false.
Proof. destruct text; [intros H; inversion H | reflexivity]. Qed.

Lemma block_complete (showHardWords : bool) (easySet : gset (list N))
    (n : node) (pos : nat) (raw : jsstring) (pushed : list decoration) :
  isBlock n = true -> raw ∈ splitIntoSentences (textContent n) -> trim raw <> [] ->
  blockDecorations classify sentenceTip isHardBySyll SIMPLE_WORD_MAP targetGrade
    showHardWords easySet n pos = Returns pushed ->
  (forall c, classify (Z.of_nat (wordCount (analyzeSentence (trim raw))))
               (grade (analyzeSentence (trim raw))) targetGrade = Some c ->
     exists d, d ∈ pushed
               /\ attrs d = Mark c (sentenceTip c (wordCount (analyzeSentence (trim raw)))
                                      (grade (analyzeSentence (trim raw))) targetGrade)
               /\ sliceOfBlock n pos d = trim raw)
  /\ (showHardWords = true ->
      forall k index wOrig tip,
        execAll (trim raw) !! k = Some (index, wOrig) ->
        flagWord isHardBySyll SIMPLE_WORD_MAP targetGrade easySet k wOrig
        = Returns (Some tip) ->
        exists d, d ∈ pushed /\ attrs d = HardWord tip /\ sliceOfBlock n pos d = wOrig).
Proof.
  intros Hb Hin Hne. unfold blockDecorations. rewrite Hb.
  rewrite (splitIntoSentences_nonempty_text _ _ Hin). intros Hrun.
  pose proof (splitAux_concat (textContent n) Outside []) as Htile.
  destruct (dropWhile_split isTerminator (textContent n)) as (pre & Hpre & _).
  fold (splitIntoSentences (textContent n)) in Htile. rewrite <- Htile in Hpre.
  destruct (sentenceLoop_complete showHardWords easySet (textContent n) (pos + 1)
              (splitIntoSentences (textContent n)) pre 0 raw pushed Hpre ltac:(lia)
              Hin Hne Hrun)
    as (start & Ho & Hm & Hw).
  split.
  - intros c Hc. eexists. split; [apply Hm, Hc |]. split; [reflexivity |].
    unfold sliceOfBlock. simpl.
    replace (pos + 1 + start - (pos + 1))%nat with start by lia.
    replace (pos + 1 + start + length (trim raw) - (pos + 1))%nat
      with (start + length (trim raw))%nat by lia.
    apply occursAt_slice, Ho.
  - intros Hs k index wOrig tip Hk Hf.
    eexists. split; [eapply Hw; eassumption |]. split; [reflexivity |].
    pose proof (occursAt_inside _ _ _ _ _ Ho (execAll_occurs _ _ _ _ Hk)) as Hi.
    unfold sliceOfBlock. simpl.
    replace (pos + 1 + start + index - (pos + 1))%nat with (start + index)%nat by lia.
    replace (pos + 1 + start + index + length wOrig - (pos + 1))%nat
      with (start + index + length wOrig)%nat by lia.
    apply occursAt_slice, Hi.
Qed.

Lemma doc_complete (showHardWords : bool) (easySet : gset (list N)) (doc : document)
    (n : node) (pos : nat) (raw : jsstring) (decos : list decoration) :
  (n, pos) ∈ doc -> isBlock n = true ->
  raw ∈ splitIntoSentences (textContent n) -> trim raw <> [] ->
  buildDecorationsWith classify sentenceTip isHardBySyll SIMPLE_WORD_MAP targetGrade
    showHardWords easySet doc = Returns decos ->
  (forall c, classify (Z.of_nat (wordCount (analyzeSentence (trim raw))))
               (grade (analyzeSentence (trim raw))) targetGrade = Some c ->
     exists d, d ∈ decos
               /\ attrs d = Mark c (sentenceTip c (wordCount (analyzeSentence (trim raw)))
                                      (grade (analyzeSentence (trim raw))) targetGrade)
               /\ sliceOfBlock n pos d = trim raw)
  /\ (showHardWords = true ->
      forall k index wOrig tip,
        execAll (trim raw) !! k = Some (index, wOrig) ->
        flagWord isHardBySyll SIMPLE_WORD_MAP targetGrade easySet k wOrig
        = Returns (Some tip) ->
        exists d, d ∈ decos /\ attrs d = HardWord tip /\ sliceOfBlock n pos d = wOrig).
Proof.
  intros Hn Hb Hin Hne Hrun.
  destruct (block_in_doc showHardWords easySet doc decos n pos Hn Hrun) as (here & Hh & Hsub).
  destruct (block_complete showHardWords easySet n pos raw here Hb Hin Hne Hh) as [A B].
  split.
  - intros c Hc. destruct (A c Hc) as (d & Hd & H1 & H2).
    exists d. split; [apply Hsub, Hd | split; assumption].
  - intros Hs k index wOrig tip Hk Hf.
    destruct (B Hs k index wOrig tip Hk Hf) as (d & Hd & H1 & H2).
    exists d. split; [apply Hsub, Hd | split; assumption].
Qed.

Lemma marksOrdered_weaken (ds : list decoration) (lo lo' : nat) :
  (lo <= lo')%nat -> marksOrdered lo' ds -> marksOrdered lo ds.
Proof.
  revert lo lo'. induction ds as [| d r IH]; intros lo lo' H; simpl; [trivial |].
  destruct (isMark d).
  - intros [[H1 H2] H3]. repeat split; [lia | exact H2 | exact H3].
  - apply IH, H.
Qed.

Lemma marksOrdered_skip (ws ds : list decoration) (lo : nat) :
  Forall (fun d => isMark d = false) ws -> marksOrdered lo ds -> marksOrdered lo (ws ++ ds).
Proof.
  induction 1 as [| d ws Hd _ IH]; simpl; [trivial |]. rewrite Hd. exact IH.
Qed.

Lemma sentenceLoop_marksOrdered (showHardWords : bool) (easySet : gset (list N))
    (text : jsstring) (blockFrom : nat) (parts : list jsstring) :
  forall searchFrom pushed,
  sentenceLoop classify sentenceTip isHardBySyll SIMPLE_WORD_MAP targetGrade
    showHardWords easySet text blockFrom parts searchFrom = Returns pushed ->
  marksOrdered (blockFrom + searchFrom) pushed.
Proof.
  induction parts as [| raw rest IH]; intros searchFrom pushed; cbn [sentenceLoop].
  - intros [= <-]. exact I.
  - destruct (isEmpty (trim raw)) eqn:He.
    + intros Hrun. eapply marksOrdered_weaken; [| eapply IH; exact Hrun]. lia.
    + destruct (indexOf text (trim raw) searchFrom) as [p |] eqn:Hp.
      * assert (Hne : trim raw <> []) by (intros E; rewrite E in He; discriminate).
        destruct (indexOf_bounds _ _ _ _ Hne Hp) as [Hlo _].
        cbn zeta.
        destruct (if showHardWords then _ else _) as [words |] eqn:Hw; [| discriminate].
        destruct (sentenceLoop _ _ _ _ _ _ _ _ _ rest _) as [later |] eqn:Hl;
          [| discriminate].
        simpl. intros [= <-].
        assert (W : marksOrdered (blockFrom + (p + length (trim raw))) (words ++ later)).
        { apply marksOrdered_skip; [| eapply IH; exact Hl].
          destruct showHardWords.
          - eapply wordLoop_no_mark; exact Hw.
          - injection Hw as <-. constructor. }
        destruct (classify _ _ _).
        -- simpl. repeat split; [lia | lia |].
           replace (blockFrom + p + length (trim raw))%nat
             with (blockFrom + (p + length (trim raw)))%nat by lia. exact W.
        -- simpl. eapply marksOrdered_weaken; [| exact W]. lia.
      * intros Hrun. eapply marksOrdered_weaken; [| eapply IH; exact Hrun]. lia.
Qed.

Lemma marksOrdered_lookup (ds : list decoration) :
  forall (lo k : nat) (d : decoration),
  marksOrdered lo ds -> ds !! k = Some d -> isMark d = true ->
  (lo <= from d /\ from d <= to d)%nat.
Proof.
  induction ds as [| d0 r IH]; intros lo k d Ho Hk Hm; [discriminate |].
  simpl in Ho. destruct k as [| k]; simpl in Hk.
  - injection Hk as ->. rewrite Hm in Ho. apply Ho.
  - destruct (isMark d0).
    + destruct Ho as [[H1 H2] H3]. pose proof (IH _ _ _ H3 Hk Hm). lia.
    + eapply IH; eassumption.
Qed.

Lemma marksOrdered_lookup2 (ds : list decoration) :
  forall (lo j k : nat) (d1 d2 : decoration),
  marksOrdered lo ds -> (j < k)%nat ->
  ds !! j = Some d1 -> ds !! k = Some d2 -> isMark d1 = true -> isMark d2 = true ->
  (to d1 <= from d2)%nat.
Proof.
  induction ds as [| d0 r IH]; intros lo j k d1 d2 Ho Hjk Hj Hk M1 M2; [discriminate |].
  simpl in Ho. destruct k as [| k]; [lia |]. simpl in Hk.
  destruct j as [| j]; simpl in Hj.
  - injection Hj as ->. rewrite M1 in Ho. destruct Ho as [_ H3].
    eapply marksOrdered_lookup; eassumption.
  - destruct (isMark d0).
    + destruct Ho as [_ H3]. eapply (IH _ j k); try eassumption. lia.
    + eapply (IH _ j k); try eassumption. lia.
Qed.

Lemma block_marks_ordered (showHardWords : bool) (easySet : gset (list N))
    (n : node) (pos j k : nat) (pushed : list decoration) (d1 d2 : decoration) :
  (j < k)%nat ->
  blockDecorations classify sentenceTip isHardBySyll SIMPLE_WORD_MAP targetGrade
    showHardWords easySet n pos = Returns pushed ->
  pushed !! j = Some d1 -> pushed !! k = Some d2 ->
  isMark d1 = true -> isMark d2 = true ->
  (pos + 1 <= from d1 /\ from d1 <= to d1 /\ to d1 <= from d2 /\ from d2 <= to d2)%nat.
Proof.
  unfold blockDecorations. intros Hjk Hrun Hj Hk M1 M2.
  destruct (isBlock n); [| injection Hrun as <-; discriminate].
  destruct (isEmpty (textContent n)); [injection Hrun as <-; discriminate |].
  pose proof (sentenceLoop_marksOrdered showHardWords easySet (textContent n) (pos + 1)
                (splitIntoSentences (textContent n)) 0 pushed Hrun) as Ho.
  pose proof (marksOrdered_lookup _ _ _ _ Ho Hj M1).
  pose proof (marksOrdered_lookup _ _ _ _ Ho Hk M2).
  pose proof (marksOrdered_lookup2 _ _ _ _ _ _ Ho Hjk Hj Hk M1 M2).
  lia.
Qed.

Lemma filter_marks_words (easySet : gset (list N)) (sf ti : nat)
    (matches : list (nat * jsstring)) (pushed : list decoration) :
  wordLoop isHardBySyll SIMPLE_WORD_MAP targetGrade easySet sf ti matches = Returns pushed ->
  filter (fun d => isMark d = true) pushed = [].
Proof.
  intros Hrun. pose proof (wordLoop_no_mark easySet matches sf ti pushed Hrun) as H.
  clear Hrun. induction H as [| d l Hd _ IH]; [reflexivity |].
  rewrite filter_cons_False by congruence. exact IH.
Qed.

(** With the toggle off the loop returns, and what it returns are the marks
    of what the loop returns with the toggle on. *)
Lemma sentenceLoop_toggle (easySet : gset (list N)) (text : jsstring) (blockFrom : nat)
    (parts : list jsstring) :
  forall searchFrom, exists marks,
    sentenceLoop classify sentenceTip isHardBySyll SIMPLE_WORD_MAP targetGrade
      false easySet text blockFrom parts searchFrom = Returns marks
    /\ forall pushed,
         sentenceLoop classify sentenceTip isHardBySyll SIMPLE_WORD_MAP targetGrade
           true easySet text blockFrom parts searchFrom = Returns pushed ->
         filter (fun d => isMark d = true) pushed = marks.
Proof.
  induction parts as [| raw rest IH]; intros searchFrom; cbn [sentenceLoop].
  - exists []. split; [reflexivity |]. intros pushed [= <-]. reflexivity.
  - destruct (isEmpty (trim raw)); [apply IH |].
    destruct (indexOf text (trim raw) searchFrom) as [p |]; [| apply IH].
    cbn zeta. destruct (IH (p + length (trim raw))%nat) as (marks & -> & Hm).
    simpl. eexists. split; [reflexivity |].
    intros pushed.
    destruct (wordLoop _ _ _ _ _ _ _) as [words |] eqn:Hw; [| discriminate].
    destruct (sentenceLoop _ _ _ _ _ true _ _ _ rest _) as [later |] eqn:Hl;
      [| discriminate].
    simpl. intros [= <-].
    rewrite !filter_app, (filter_marks_words _ _ _ _ _ Hw), (Hm later eq_refl). simpl.
    destruct (classify _ _ _); [| reflexivity].
    rewrite filter_cons_True by reflexivity. reflexivity.
Qed.

Lemma build_toggle (easySet : gset (list N)) (doc : document) :
  exists marks,
    buildDecorationsWith classify sentenceTip isHardBySyll SIMPLE_WORD_MAP targetGrade
      false easySet doc = Returns marks
    /\ forall decos,
         buildDecorationsWith classify sentenceTip isHardBySyll SIMPLE_WORD_MAP targetGrade
           true easySet doc = Returns decos ->
         filter (fun d => isMark d = true) decos = marks.
Proof.
  induction doc as [| [n pos] doc IH]; cbn [buildDecorationsWith].
  - exists []. split; [reflexivity |]. intros decos [= <-]. reflexivity.
  - destruct IH as (marks & -> & Hm).
    assert (Hb : exists here,
               blockDecorations classify sentenceTip isHardBySyll SIMPLE_WORD_MAP targetGrade
                 false easySet n pos = Returns here
               /\ forall pushed,
                    blockDecorations classify sentenceTip isHardBySyll SIMPLE_WORD_MAP
                      targetGrade true easySet n pos = Returns pushed ->
                    filter (fun d => isMark d = true) pushed = here).
    { unfold blockDecorations. destruct (isBlock n).
      - destruct (isEmpty (textContent n)); [| apply sentenceLoop_toggle].
        exists []. split; [reflexivity |]. intros pushed [= <-]. reflexivity.
      - exists []. split; [reflexivity |]. intros pushed [= <-]. reflexivity. }
    destruct Hb as (here & -> & Hh). simpl. eexists. split; [reflexivity |].
    intros decos.
    destruct (blockDecorations _ _ _ _ _ true _ n pos) as [pushed |]; [| discriminate].
    destruct (buildDecorationsWith _ _ _ _ _ true _ doc) as [later |]; [| discriminate].
    simpl. intros [= <-]. rewrite filter_app, (Hh pushed eq_refl), (Hm later eq_refl).
    reflexivity.
Qed.

(** Under a larger easy set a token is decided as before, or skipped. *)
Lemma flagWord_easy_mono (easy easy' : gset (list N)) (k : nat) (w : jsstring)
    (o : option jsstring) :
  easy ⊆ easy' ->
  flagWord isHardBySyll SIMPLE_WORD_MAP targetGrade easy k w = Returns o ->
  flagWord isHardBySyll SIMPLE_WORD_MAP targetGrade easy' k w = Returns o
  \/ flagWord isHardBySyll SIMPLE_WORD_MAP targetGrade easy' k w = Returns None.
Proof.
  intros Hsub. unfold flagWord.
  destruct (_ || _ || _); [intros H; left; exact H |].
  destruct (_ && _); [intros H; left; exact H |].
  destruct (isAllCaps w); [intros H; left; exact H |].
  repeat case_bool_decide; simpl.
  - intros Hx. left. exact Hx.
  - exfalso. match goal with Hn : _ ∉ easy' |- _ => apply Hn end. apply Hsub. assumption.
  - intros _. right. reflexivity.
  - intros Hx. left. exact Hx.
Qed.

Lemma wordLoop_easy_mono (easy easy' : gset (list N)) (matches : list (nat * jsstring)) :
  easy ⊆ easy' ->
  forall sf ti pushed,
  wordLoop isHardBySyll SIMPLE_WORD_MAP targetGrade easy sf ti matches = Returns pushed ->
  exists pushed',
    wordLoop isHardBySyll SIMPLE_WORD_MAP targetGrade easy' sf ti matches = Returns pushed'
    /\ pushed' `sublist_of` pushed.
Proof.
  intros Hsub. induction matches as [| [i w] rest IH]; intros sf ti pushed; cbn [wordLoop].
  - intros [= <-]. exists []. split; [reflexivity | constructor].
  - destruct (flagWord _ _ _ easy ti w) as [o |] eqn:E; [| discriminate].
    destruct (wordLoop _ _ _ easy sf (S ti) rest) as [later |] eqn:W; [| discriminate].
    simpl. intros [= <-].
    destruct (IH sf (S ti) later W) as (later' & -> & Hl).
    destruct (flagWord_easy_mono easy easy' ti w o Hsub E) as [-> | ->]; simpl.
    + eexists. split; [reflexivity |].
      destruct o; [apply sublist_skip |]; exact Hl.
    + eexists. split; [reflexivity |].
      destruct o; [apply sublist_cons |]; exact Hl.
Qed.

Lemma sentenceLoop_easy_mono (showHardWords : bool) (easy easy' : gset (list N))
    (text : jsstring) (blockFrom : nat) (parts : list jsstring) :
  easy ⊆ easy' ->
  forall searchFrom pushed,
  sentenceLoop classify sentenceTip isHardBySyll SIMPLE_WORD_MAP targetGrade
    showHardWords easy text blockFrom parts searchFrom = Returns pushed ->
  exists pushed',
    sentenceLoop classify sentenceTip isHardBySyll SIMPLE_WORD_MAP targetGrade
      showHardWords easy' text blockFrom parts searchFrom = Returns pushed'
    /\ pushed' `sublist_of` pushed.
Proof.
  intros Hsub. induction parts as [| raw rest IH]; intros searchFrom pushed;
    cbn [sentenceLoop].
  - intros [= <-]. exists []. split; [reflexivity | constructor].
  - destruct (isEmpty (trim raw)); [apply IH |].
    destruct (indexOf text (trim raw) searchFrom) as [p |]; [| apply IH].
    cbn zeta.
    destruct (if showHardWords then _ else _) as [words |] eqn:Hw; [| discriminate].
    destruct (sentenceLoop _ _ _ _ _ _ easy _ _ rest _) as [later |] eqn:Hl;
      [| discriminate].
    simpl. intros [= <-].
    destruct (IH _ later Hl) as (later' & -> & Hsl).
    assert (Hwords : exists words',
               (if showHardWords
                then wordLoop isHardBySyll SIMPLE_WORD_MAP targetGrade easy'
                       (blockFrom + p) 0 (execAll (trim raw))
                else mret []) = Returns words'
               /\ words' `sublist_of` words).
    { destruct showHardWords.
      - apply (wordLoop_easy_mono easy easy' _ Hsub _ _ _ Hw).
      - exists words. split; [exact Hw | reflexivity]. }
    destruct Hwords as (words' & -> & Hsw). simpl.
    eexists. split; [reflexivity |].
    apply sublist_app; [reflexivity |]. apply sublist_app; assumption.
Qed.

Lemma build_easy_mono (showHardWords : bool) (easy easy' : gset (list N)) (doc : document) :
  easy ⊆ easy' ->
  forall decos,
  buildDecorationsWith classify sentenceTip isHardBySyll SIMPLE_WORD_MAP targetGrade
    showHardWords easy doc = Returns decos ->
  exists decos',
    buildDecorationsWith classify sentenceTip isHardBySyll SIMPLE_WORD_MAP targetGrade
      showHardWords easy' doc = Returns decos'
    /\ decos' `sublist_of` decos.
Proof.
  intros Hsub. induction doc as [| [n pos] doc IH]; intros decos; cbn [buildDecorationsWith].
  - intros [= <-]. exists []. split; [reflexivity | constructor].
  - destruct (blockDecorations _ _ _ _ _ _ easy n pos) as [here |] eqn:Hb; [| discriminate].
    destruct (buildDecorationsWith _ _ _ _ _ _ easy doc) as [later |] eqn:Hr;
      [| discriminate].
    simpl. intros [= <-].
    destruct (IH later eq_refl) as (later' & -> & Hsl).
    assert (Hhere : exists here',
               blockDecorations classify sentenceTip isHardBySyll SIMPLE_WORD_MAP targetGrade
                 showHardWords easy' n pos = Returns here'
               /\ here' `sublist_of` here).
    { revert Hb. unfold blockDecorations. destruct (isBlock n).
      - destruct (isEmpty (textContent n)); [| apply sentenceLoop_easy_mono, Hsub].
        intros [= <-]. exists []. split; [reflexivity | constructor].
      - intros [= <-]. exists []. split; [reflexivity | constructor]. }
    destruct Hhere as (here' & -> & Hsh). simpl.
    eexists. split; [reflexivity |]. apply sublist_app; assumption.
Qed.

Lemma wordLoop_shift (easySet : gset (list N)) (k : nat) (matches : list (nat * jsstring)) :
  forall sf ti,
  wordLoop isHardBySyll SIMPLE_WORD_MAP targetGrade easySet (sf + k) ti matches
  = map (shift k)
      <$> wordLoop isHardBySyll SIMPLE_WORD_MAP targetGrade easySet sf ti matches.
Proof.
  induction matches as [| [i w] rest IH]; intros sf ti; cbn [wordLoop]; [reflexivity |].
  destruct (flagWord _ _ _ _ ti w) as [o |]; simpl; [| reflexivity].
  rewrite IH. destruct (wordLoop _ _ _ _ sf (S ti) rest) as [later |]; simpl;
    [| reflexivity].
  destruct o; simpl; [| reflexivity].
  do 2 f_equal. unfold shift. simpl. f_equal; lia.
Qed.

Lemma sentenceLoop_shift (showHardWords : bool) (easySet : gset (list N))
    (text : jsstring) (blockFrom k : nat) (parts : list jsstring) :
  forall searchFrom,
  sentenceLoop classify sentenceTip isHardBySyll SIMPLE_WORD_MAP targetGrade
    showHardWords easySet text (blockFrom + k) parts searchFrom
  = map (shift k)
      <$> sentenceLoop classify sentenceTip isHardBySyll SIMPLE_WORD_MAP targetGrade
            showHardWords easySet text blockFrom parts searchFrom.
Proof.
  induction parts as [| raw rest IH]; intros searchFrom; cbn [sentenceLoop]; [reflexivity |].
  destruct (isEmpty (trim raw)); [apply IH |].
  destruct (indexOf text (trim raw) searchFrom) as [p |]; [| apply IH].
  cbn zeta. rewrite IH.
  replace (blockFrom + k + p)%nat with (blockFrom + p + k)%nat by lia.
  assert (Hw : (if showHardWords
                then wordLoop isHardBySyll SIMPLE_WORD_MAP targetGrade easySet
                       (blockFrom + p + k) 0 (execAll (trim raw))
                else mret [])
               = map (shift k)
                   <$> (if showHardWords
                        then wordLoop isHardBySyll SIMPLE_WORD_MAP targetGrade easySet
                               (blockFrom + p) 0 (execAll (trim raw))
                        else mret [])).
  { destruct showHardWords; [apply wordLoop_shift | reflexivity]. }
  rewrite Hw. clear Hw.
  destruct (if showHardWords then _ else _) as [words |]; simpl; [| reflexivity].
  destruct (sentenceLoop _ _ _ _ _ _ _ _ _ rest _) as [later |]; simpl; [| reflexivity].
  rewrite !map_app. f_equal. f_equal.
  destruct (classify _ _ _); [| reflexivity]. simpl. f_equal.
  unfold shift. simpl. f_equal; lia.
Qed.

Lemma block_shift (showHardWords : bool) (easySet : gset (list N)) (n : node) (pos k : nat) :
  blockDecorations classify sentenceTip isHardBySyll SIMPLE_WORD_MAP targetGrade
    showHardWords easySet n (pos + k)
  = map (shift k)
      <$> blockDecorations classify sentenceTip isHardBySyll SIMPLE_WORD_MAP targetGrade
            showHardWords easySet n pos.
Proof.
  unfold blockDecorations. destruct (isBlock n); [| reflexivity].
  destruct (isEmpty (textContent n)); [reflexivity |].
  replace (pos + k + 1)%nat with (pos + 1 + k)%nat by lia. apply sentenceLoop_shift.
Qed.

Lemma build_shift (showHardWords : bool) (easySet : gset (list N)) (k : nat)
    (doc : document) :
  buildDecorationsWith classify sentenceTip isHardBySyll SIMPLE_WORD_MAP targetGrade
    showHardWords easySet (map (fun '(n, pos) => (n, (pos + k)%nat)) doc)
  = map (shift k)
      <$> buildDecorationsWith classify sentenceTip isHardBySyll SIMPLE_WORD_MAP targetGrade
            showHardWords easySet doc.
Proof.
  induction doc as [| [n pos] doc IH]; [reflexivity |].
  cbn [map buildDecorationsWith]. rewrite IH, block_shift.
  destruct (blockDecorations _ _ _ _ _ _ _ n pos) as [here |]; simpl; [| reflexivity].
  destruct (buildDecorationsWith _ _ _ _ _ _ _ doc) as [later |]; simpl; [| reflexivity].
  rewrite map_app. reflexivity.
Qed.

End BuilderFacts.

(** ** The second variant on an ordinary word map *)

Lemma hardThreshold_ge_3 (target : Z) : (3 <= hardThreshold target)%Z.
Proof.
  rewrite hardThreshold_table.
  destruct (target =? 6)%Z; [lia |]. destruct (target =? 8)%Z; [lia |].
  destruct (target =? 10)%Z; lia.
Qed.

(** A word that the syllable test of the second variant calls hard never
    reads a member of [Object.prototype]: lower-cased, only [constructor] and
    [__proto__] are property names of the prototype; [syllables] returns the
    inherited function for the first and 2 for the second. *)
Lemma V2_hard_reads_no_member (entries : jsstring -> option jsstring)
    (printed : jsstring -> jsstring) (w : jsstring) (target : Z) (text : jsstring) :
  V2.isHardBySyll w (hardThreshold target) = true ->
  ordinaryObject entries printed (toLowerCase w) <> Member text.
Proof.
  intros Hh E. unfold ordinaryObject in E.
  destruct (entries (toLowerCase w)); [discriminate E |].
  case_bool_decide as Hk; [| discriminate E]. clear E.
  pose proof (toLowerCase_idempotent w) as Hidem.
  pose proof (hardThreshold_ge_3 target) as Hge.
  unfold V2.isHardBySyll in Hh.
  unfold V2.objectPrototypeKeys in Hk. cbn [map] in Hk.
  repeat (apply elem_of_cons in Hk as [Hk | Hk]);
    try (rewrite Hk in Hidem; vm_compute in Hidem; discriminate Hidem);
    try (inversion Hk; fail).
  - assert (Hs : V2.syllables w = V2.Inherited (js "constructor")).
    { unfold V2.syllables. rewrite Hk. vm_compute. reflexivity. }
    rewrite Hs in Hh. discriminate Hh.
  - assert (Hs : V2.syllables w = V2.Count 2).
    { unfold V2.syllables. rewrite Hk. vm_compute. reflexivity. }
    rewrite Hs in Hh. apply Z.leb_le in Hh. lia.
Qed.

Lemma V2_flagWord_returns (entries : jsstring -> option jsstring)
    (printed : jsstring -> jsstring) (targetGrade : Z) (easySet : gset (list N))
    (k : nat) (wOrig : jsstring) :
  exists o,
    flagWord V2.isHardBySyll (ordinaryObject entries printed) targetGrade easySet k wOrig
    = Returns o.
Proof.
  destruct (passesFilters k wOrig) eqn:P.
  - rewrite (flagWord_passing _ _ _ _ _ _ P).
    destruct (negb _ && _) eqn:C; [| eauto].
    apply andb_true_iff in C as [_ Hh].
    destruct (hardWordMessage_returns (ordinaryObject entries printed) wOrig
                (toLowerCase (stripApostrophes wOrig))) as [tip ->].
    + intros text. eapply V2_hard_reads_no_member, Hh.
    + simpl. eauto.
  - rewrite (flagWord_filtered _ _ _ _ _ _ P). eauto.
Qed.

(** X17. Nothing that was analysed is dropped when the builder returns, in
    either variant: for a block of the document, every fragment that is not
    blank is found in the text of the block; when the classifier tags it, the
    decorations hold a mark of that tag, with the tooltip of the variant,
    whose range slices back to the fragment; and with hard words shown, every
    token of the fragment that the word loop flags has a word mark whose range
    slices back to it.  The second variant returns for every word map that is
    an ordinary object; the first returns or throws. *)
Theorem every_analysed_fragment_is_marked
    (SIMPLE_WORD_MAP : jsstring -> mapValue)
    (entries : jsstring -> option jsstring) (printed : jsstring -> jsstring)
    (targetGrade : Z) (showHardWords : bool) (easySet : gset (list N)) (doc : document)
    (n : node) (pos : nat) (raw : jsstring) :
  (n, pos) ∈ doc -> isBlock n = true ->
  raw ∈ splitIntoSentences (textContent n) -> trim raw <> [] ->
  let a := analyzeSentence (trim raw) in
  (forall decos,
     V1.buildDecorations SIMPLE_WORD_MAP targetGrade showHardWords easySet doc
     = Returns decos ->
     (forall c, V1.classify (Z.of_nat (wordCount a)) (grade a) targetGrade = Some c ->
        exists d, d ∈ decos /\ attrs d = Mark c (V1.tooltipMessage c)
                  /\ sliceOfBlock n pos d = trim raw)
     /\ (showHardWords = true ->
         forall k index wOrig tip,
           execAll (trim raw) !! k = Some (index, wOrig) ->
           flagWord V1.isHard SIMPLE_WORD_MAP targetGrade easySet k wOrig
           = Returns (Some tip) ->
           exists d, d ∈ decos /\ attrs d = HardWord tip /\ sliceOfBlock n pos d = wOrig))
  /\ (exists decos,
        V2.buildDecorations (ordinaryObject entries printed) targetGrade showHardWords
          easySet doc = Returns decos
        /\ (forall c, V2.classify (Z.of_nat (wordCount a)) (grade a) targetGrade = Some c ->
              exists d, d ∈ decos
                        /\ attrs d
                           = Mark c (V2.sentenceTip c (wordCount a) (grade a) targetGrade)
                        /\ sliceOfBlock n pos d = trim raw)
        /\ (showHardWords = true ->
            forall k index wOrig tip,
              execAll (trim raw) !! k = Some (index, wOrig) ->
              flagWord V2.isHardBySyll (ordinaryObject entries printed) targetGrade easySet
                k wOrig = Returns (Some tip) ->
              exists d, d ∈ decos /\ attrs d = HardWord tip
                        /\ sliceOfBlock n pos d = wOrig)).
Proof.
  intros Hn Hb Hin Hne a. split.
  - intros decos Hrun.
    exact (doc_complete V1.classify (fun c _ _ _ => V1.tooltipMessage c) V1.isHard
             SIMPLE_WORD_MAP targetGrade showHardWords easySet doc n pos raw decos
             Hn Hb Hin Hne Hrun).
  - destruct (build_returns V2.classify V2.sentenceTip V2.isHardBySyll
                (ordinaryObject entries printed) targetGrade showHardWords easySet doc)
      as [decos Hrun].
    { intros _ k w. apply V2_flagWord_returns. }
    exists decos. split; [exact Hrun |].
    exact (doc_complete V2.classify V2.sentenceTip V2.isHardBySyll
             (ordinaryObject entries printed) targetGrade showHardWords easySet doc
             n pos raw decos Hn Hb Hin Hne Hrun).
Qed.

Lemma every_analysed_fragment_is_marked_witness :
  exists d, d ∈ [sampleWordMark]
            /\ attrs d = HardWord (js "Likely hard word, consider a simpler option.")
            /\ sliceOfBlock sampleBlock 0 d = js "extraordinarily".
Proof.
  assert (Hn : (sampleBlock, 0%nat) ∈ sampleDoc) by apply list_elem_of_here.
  assert (Hin : sampleSentence ∈ splitIntoSentences (textContent sampleBlock))
    by apply list_elem_of_here.
  assert (Hne : trim sampleSentence <> []) by discriminate.
  assert (Hrun : V1.buildDecorations noMap 6 true ∅ sampleDoc = Returns [sampleWordMark])
    by (vm_compute; reflexivity).
  destruct (every_analysed_fragment_is_marked noMap (fun _ => None) printedByV8 6 true ∅
              sampleDoc sampleBlock 0 sampleSentence Hn eq_refl Hin Hne) as [W _].
  destruct (W [sampleWordMark] Hrun) as [_ Ww].
  exact (Ww eq_refl 2%nat 7%nat (js "extraordinarily")
           (js "Likely hard word, consider a simpler option.") eq_refl eq_refl).
Defined.

(** X18. The sentence marks of a block do not overlap: in the decorations
    that the builder returns for a one-block document, a mark that comes
    later starts at or after the end of an earlier mark, and no mark starts
    before the text of the block. *)
Theorem sentence_marks_are_disjoint
    (SIMPLE_WORD_MAP : jsstring -> mapValue) (targetGrade : Z)
    (showHardWords : bool) (easySet : gset (list N))
    (n : node) (pos j k : nat) (decos : list decoration) (d1 d2 : decoration) :
  (j < k)%nat -> isMark d1 = true -> isMark d2 = true ->
  decos !! j = Some d1 -> decos !! k = Some d2 ->
  (V1.buildDecorations SIMPLE_WORD_MAP targetGrade showHardWords easySet [(n, pos)]
   = Returns decos ->
   (pos + 1 <= from d1 /\ from d1 <= to d1 /\ to d1 <= from d2 /\ from d2 <= to d2)%nat)
  /\ (V2.buildDecorations SIMPLE_WORD_MAP targetGrade showHardWords easySet [(n, pos)]
      = Returns decos ->
      (pos + 1 <= from d1 /\ from d1 <= to d1 /\ to d1 <= from d2 /\ from d2 <= to d2)%nat).
Proof.
  intros Hjk M1 M2 Hj Hk. unfold V1.buildDecorations, V2.buildDecorations.
  rewrite !build_single. split; intros Hrun; eapply block_marks_ordered; eassumption.
Qed.

Lemma sentence_marks_are_disjoint_witness :
  (0 + 1 <= from firstMark /\ from firstMark <= to firstMark
   /\ to firstMark <= from secondMark /\ from secondMark <= to secondMark)%nat.
Proof.
  apply (proj1 (sentence_marks_are_disjoint noMap 6 true ∅ twoLongSentences 0 0 1
                  [firstMark; secondMark] firstMark secondMark
                  ltac:(lia) eq_refl eq_refl eq_refl eq_refl)).
  vm_compute. reflexivity.
Defined.

(** X19. With the hard-word toggle off the builder returns, and what it
    returns are exactly the sentence marks, in the same order, of what it
    returns with the toggle on; with the toggle on the first variant may
    throw. *)
Theorem word_toggle_keeps_sentence_marks
    (SIMPLE_WORD_MAP : jsstring -> mapValue) (targetGrade : Z)
    (easySet : gset (list N)) (doc : document) :
  (exists marks,
     V1.buildDecorations SIMPLE_WORD_MAP targetGrade false easySet doc = Returns marks
     /\ forall decos,
          V1.buildDecorations SIMPLE_WORD_MAP targetGrade true easySet doc = Returns decos ->
          filter (fun d => isMark d = true) decos = marks)
  /\ (exists marks,
        V2.buildDecorations SIMPLE_WORD_MAP targetGrade false easySet doc = Returns marks
        /\ forall decos,
             V2.buildDecorations SIMPLE_WORD_MAP targetGrade true easySet doc
             = Returns decos ->
             filter (fun d => isMark d = true) decos = marks).
Proof. split; apply build_toggle. Qed.

(** X20. A larger easy set flags no new word: when the builder returns
    under an easy set, it returns under every larger set, and the decorations
    under the larger set are a sublist of those under the smaller one. *)
Theorem larger_easy_set_flags_less
    (SIMPLE_WORD_MAP : jsstring -> mapValue) (targetGrade : Z)
    (showHardWords : bool) (easy easy' : gset (list N)) (doc : document) :
  easy ⊆ easy' ->
  (forall decos,
     V1.buildDecorations SIMPLE_WORD_MAP targetGrade showHardWords easy doc
     = Returns decos ->
     exists decos',
       V1.buildDecorations SIMPLE_WORD_MAP targetGrade showHardWords easy' doc
       = Returns decos'
       /\ decos' `sublist_of` decos)
  /\ (forall decos,
        V2.buildDecorations SIMPLE_WORD_MAP targetGrade showHardWords easy doc
        = Returns decos ->
        exists decos',
          V2.buildDecorations SIMPLE_WORD_MAP targetGrade showHardWords easy' doc
          = Returns decos'
          /\ decos' `sublist_of` decos).
Proof. intros H. split; apply build_easy_mono, H. Qed.

Lemma larger_easy_set_flags_less_witness :
  exists decos',
    V1.buildDecorations noMap 6 true {[ js "extraordinarily" ]} sampleDoc = Returns decos'
    /\ decos' `sublist_of` [sampleWordMark].
Proof.
  apply (proj1 (larger_easy_set_flags_less noMap 6 true ∅ {[ js "extraordinarily" ]}
                  sampleDoc (empty_subseteq _))).
  vm_compute. reflexivity.
Defined.

(** The converse fails in the first variant: a call that throws under an
    easy set returns under a larger one that holds the throwing word. *)
Example larger_easy_set_stops_throw :
  V1.buildDecorations noMap 6 true ∅ constructorDoc = Throws
  /\ V1.buildDecorations noMap 6 true {[ js "constructor" ]} constructorDoc = Returns [].
Proof. vm_compute. split; reflexivity. Qed.

(** X21. The decorations move with their blocks: when every block of the
    document is [k] positions further, the builder returns every decoration
    [k] positions further and nothing else changes; it throws when it threw. *)
Theorem decorations_move_with_blocks
    (SIMPLE_WORD_MAP : jsstring -> mapValue) (targetGrade : Z)
    (showHardWords : bool) (easySet : gset (list N)) (k : nat) (doc : document) :
  V1.buildDecorations SIMPLE_WORD_MAP targetGrade showHardWords easySet
    (map (fun '(n, pos) => (n, (pos + k)%nat)) doc)
  = map (shift k)
      <$> V1.buildDecorations SIMPLE_WORD_MAP targetGrade showHardWords easySet doc
  /\ V2.buildDecorations SIMPLE_WORD_MAP targetGrade showHardWords easySet
       (map (fun '(n, pos) => (n, (pos + k)%nat)) doc)
     = map (shift k)
         <$> V2.buildDecorations SIMPLE_WORD_MAP targetGrade showHardWords easySet doc.
Proof. split; apply build_shift. Qed.

(** X30. Where the read of the word map gives a string or nothing, the
    flagging rule holds: a token that passes the filters is flagged exactly
    when its syllable estimate reaches the threshold of the target grade and
    its lower-cased form is not in the easy set.  In the second variant this
    is so for every word map that is an ordinary object, and the token loop
    never throws; the threshold is 3, 4, 5 for the grades 6, 8, 10 and 3 for
    any other target. *)
Theorem flagging_rule_for_string_suggestions
    (SIMPLE_WORD_MAP : jsstring -> mapValue)
    (entries : jsstring -> option jsstring) (printed : jsstring -> jsstring)
    (targetGrade : Z) (easySet : gset (list N)) (tokenIndex : nat) (wOrig : jsstring) :
  passesFilters tokenIndex wOrig = true ->
  let w := stripApostrophes wOrig in
  ((forall text, SIMPLE_WORD_MAP (toLowerCase w) <> Member text) ->
   (flagged (flagWord V1.isHard SIMPLE_WORD_MAP targetGrade easySet tokenIndex wOrig)
    <-> (hardThreshold targetGrade <= Z.of_nat (countSyllables w))%Z
        /\ toLowerCase w ∉ easySet))
  /\ (flagged (flagWord V2.isHardBySyll (ordinaryObject entries printed) targetGrade
                 easySet tokenIndex wOrig)
      <-> (exists n, V2.syllables w = V2.Count n /\ (hardThreshold targetGrade <= n)%Z)
          /\ toLowerCase w ∉ easySet)
  /\ (flagWord V2.isHardBySyll (ordinaryObject entries printed) targetGrade easySet
        tokenIndex wOrig <> Throws)
  /\ hardThreshold targetGrade
     = (if targetGrade =? 6 then 3
        else if targetGrade =? 8 then 4
        else if targetGrade =? 10 then 5 else 3)%Z.
Proof.
  intros H w. split; [| split; [| split]].
  - intros HM. rewrite (flagWord_flags_iff _ _ _ V1.isHard _ _ H HM). fold w.
    unfold V1.isHard. rewrite Z.leb_le. reflexivity.
  - assert (Hiff : V2.isHardBySyll w (hardThreshold targetGrade) = true
                   <-> exists n, V2.syllables w = V2.Count n
                                 /\ (hardThreshold targetGrade <= n)%Z).
    { unfold V2.isHardBySyll. destruct (V2.syllables w) as [n | key].
      - rewrite Z.leb_le. split.
        + intros Hn. eauto.
        + intros (m & [= <-] & Hm). exact Hm.
      - split; [discriminate | intros (m & [=] & _)]. }
    rewrite <- Hiff. split.
    + intros [tip E]. apply flagWord_flagged_inv in E as (_ & Hh & He). split; assumption.
    + intros [Hh He]. apply flagWord_flags_iff; [exact H | | split; assumption].
      intros text. eapply V2_hard_reads_no_member, Hh.
  - destruct (V2_flagWord_returns entries printed targetGrade easySet tokenIndex wOrig)
      as [o ->]. discriminate.
  - apply hardThreshold_table.
Qed.

Lemma flagging_rule_for_string_suggestions_witness :
  passesFilters 1 (js "extraordinarily") = true /\
  flagged (flagWord V1.isHard sampleMap 6 ∅ 1 (js "extraordinarily")) /\
  flagged (flagWord V2.isHardBySyll noMap 6 ∅ 1 (js "extraordinarily")).
Proof.
  pose proof (flagging_rule_for_string_suggestions sampleMap (fun _ => None) printedByV8
                6 ∅ 1 (js "extraordinarily") eq_refl) as (H1 & H2 & _).
  split; [reflexivity |]. split.
  - apply H1.
    + intros text E. vm_compute in E. discriminate E.
    + split; [vm_compute; discriminate | apply not_elem_of_empty].
  - apply H2. split; [| apply not_elem_of_empty].
    exists 5%Z. split; [reflexivity | vm_compute; discriminate].
Defined.

(** ** Plugin state, statistics and preferences *)

Section Surroundings.

Lemma run_follows
    (build : Plugin.liveSettings -> document -> completion (list decoration))
    (isRecompute : option Plugin.metaValue -> bool)
    (steps : list (Plugin.transaction * document * Plugin.liveSettings)) :
  forall (live : Plugin.liveSettings) (doc : document) (decos : list decoration),
  coherent isRecompute live doc steps ->
  build live doc = Returns decos ->
  Plugin.run build isRecompute decos steps
  = build (fst (finalState live doc steps)) (snd (finalState live doc steps))
  \/ (Plugin.run build isRecompute decos steps = Throws
      /\ exists tr newDoc live',
           (tr, newDoc, live') ∈ steps /\ build live' newDoc = Throws).
Proof.
  induction steps as [| [[tr newDoc] live'] rest IH]; intros live doc decos Hc Hb.
  - left. symmetry. exact Hb.
  - destruct Hc as [Hsame Hrest]. cbn [Plugin.run finalState].
    assert (Hap : Plugin.apply build isRecompute tr decos newDoc live' = build live' newDoc).
    { unfold Plugin.apply. destruct (Plugin.docChanged tr); simpl; [reflexivity |].
      destruct (isRecompute (Plugin.meta tr)); [reflexivity |].
      destruct (Hsame eq_refl eq_refl) as [-> ->]. symmetry. exact Hb. }
    rewrite Hap. destruct (build live' newDoc) as [next |] eqn:Hn; simpl.
    + destruct (IH live' newDoc next Hrest Hn) as [H | (H & tr0 & d0 & l0 & Hin & Ht)].
      * left. exact H.
      * right. split; [exact H |]. exists tr0, d0, l0. split; [right; exact Hin | exact Ht].
    + right. split; [reflexivity |]. exists tr, newDoc, live'. split; [left | exact Hn].
Qed.

(** X22. The plugin state is never stale: along a run of transactions in
    which only a transaction that changes the document or asks for a
    recompute comes with a new document or new settings, the decorations that
    the plugin holds after the run are those that [buildDecorations] returns
    for the last document under the last settings; and the run ends with
    exactly that state when no call of [buildDecorations] throws on the way. *)
Theorem plugin_state_follows
    (build : Plugin.liveSettings -> document -> completion (list decoration))
    (isRecompute : option Plugin.metaValue -> bool)
    (live : Plugin.liveSettings) (doc : document)
    (steps : list (Plugin.transaction * document * Plugin.liveSettings)) :
  coherent isRecompute live doc steps ->
  (forall decos,
     Plugin.session build isRecompute doc live steps = Returns decos ->
     build (fst (finalState live doc steps)) (snd (finalState live doc steps))
     = Returns decos)
  /\ (build live doc <> Throws ->
      (forall tr newDoc live', (tr, newDoc, live') ∈ steps -> build live' newDoc <> Throws) ->
      Plugin.session build isRecompute doc live steps
      = build (fst (finalState live doc steps)) (snd (finalState live doc steps))).
Proof.
  intros Hc. unfold Plugin.session, Plugin.init. split.
  - intros decos. destruct (build live doc) as [decos0 |] eqn:Hb; [| discriminate].
    simpl. intros Hrun.
    destruct (run_follows build isRecompute steps live doc decos0 Hc Hb) as [H | [H _]].
    + rewrite <- H. exact Hrun.
    + rewrite H in Hrun. discriminate Hrun.
  - intros Hinit Hsteps.
    destruct (build live doc) as [decos0 |] eqn:Hb; [| contradiction].
    simpl.
    destruct (run_follows build isRecompute steps live doc decos0 Hc Hb)
      as [H | (_ & tr & newDoc & live' & Hin & Ht)]; [exact H |].
    contradiction (Hsteps tr newDoc live' Hin Ht).
Qed.

Lemma plugin_state_follows_witness :
  Plugin.session (Plugin.buildV1 noMap) Plugin.isRecomputeV1 [] grade6 sampleRun
  = Plugin.buildV1 noMap grade8 sampleDoc.
Proof.
  assert (Hc : coherent Plugin.isRecomputeV1 grade6 [] sampleRun).
  { split; [intros H; discriminate H |].
    split; [intros _ H; vm_compute in H; discriminate H | exact I]. }
  apply (proj2 (plugin_state_follows (Plugin.buildV1 noMap) Plugin.isRecomputeV1 grade6 []
                  sampleRun Hc)).
  - vm_compute. discriminate.
  - intros tr newDoc live' Hin.
    apply elem_of_cons in Hin as [[= -> -> ->] | Hin]; [vm_compute; discriminate |].
    apply elem_of_cons in Hin as [[= -> -> ->] | Hin]; [vm_compute; discriminate |].
    inversion Hin.
Defined.

(** A run of the first variant that ends with an exception: typing the
    sentence of [constructorDoc] makes [apply] throw. *)
Example plugin_run_throws :
  Plugin.session (Plugin.buildV1 noMap) Plugin.isRecomputeV1 [] grade6
    [(typingTr, constructorDoc, grade6)] = Throws.
Proof. vm_compute. reflexivity. Qed.

(** The test of the second variant does not know the object that the
    effect of the first variant sends, only the string. *)
Example recompute_meta_forms :
  Plugin.isRecomputeV1 (Plugin.meta recomputeTr) = true
  /\ Plugin.isRecomputeV2 (Plugin.meta recomputeTr) = false
  /\ Plugin.isRecomputeV1 (Some (Plugin.MetaString (js "recompute"))) = true
  /\ Plugin.isRecomputeV2 (Some (Plugin.MetaString (js "recompute"))) = true.
Proof. vm_compute. repeat split. Qed.

(** X23. The grade and the ease are shown exactly when the text has a
    word, that is, when it is not blank; the test on the sentence count never
    decides, and before the first computation the dash is shown. *)
Lemma scores_shown_iff_text_has_a_word (fullText : jsstring) :
  (Stats.gradeDisplay (Stats.debouncedStats fullText) = None <-> trim fullText = [])
  /\ (Stats.easeDisplay (Stats.debouncedStats fullText) = None <-> trim fullText = [])
  /\ Stats.hasText (Stats.debouncedStats fullText)
     = (0 <? Stats.wordCount (Stats.debouncedStats fullText))%nat
  /\ Stats.gradeDisplay Stats.initial = None.
Proof.
  assert (H : Stats.hasText (Stats.debouncedStats fullText)
              = (0 <? countWords fullText)%nat).
  { unfold Stats.hasText. simpl.
    pose proof (countSentences_pos fullText).
    destruct (Nat.ltb_spec 0 (countSentences fullText)); [apply andb_true_r | lia]. }
  assert (E : (0 <? countWords fullText)%nat = false <-> trim fullText = []).
  { rewrite <- countWords_zero_trim.
    destruct (Nat.ltb_spec 0 (countWords fullText)); split; intros; try lia; congruence. }
  unfold Stats.gradeDisplay, Stats.easeDisplay. rewrite H.
  repeat split; try (destruct (0 <? countWords fullText)%nat; intros; try discriminate;
                     try reflexivity; apply E; reflexivity);
    try (intros Hb; apply E in Hb; rewrite Hb; reflexivity).
Qed.

(** X24. The two boolean preferences survive a reload when the storage can
    be read and written: what was stored is what is read back, and storing one
    does not change the other. *)
Lemma preferences_round_trip (st : Prefs.storage) (b : bool) :
  Prefs.readable st = true -> Prefs.writable st = true ->
  Prefs.initialShowHard (Prefs.persistShowHard b st) = b
  /\ Prefs.initialHelpOpen (Prefs.persistHelpOpen b st) = b
  /\ Prefs.initialHelpOpen (Prefs.persistShowHard b st) = Prefs.initialHelpOpen st
  /\ Prefs.initialShowHard (Prefs.persistHelpOpen b st) = Prefs.initialShowHard st.
Proof.
  intros R W.
  unfold Prefs.initialShowHard, Prefs.initialHelpOpen, Prefs.persistShowHard,
    Prefs.persistHelpOpen, Prefs.setItem, Prefs.getItem.
  rewrite W, R. cbn [Prefs.readable Prefs.items].
  rewrite !lookup_insert_eq.
  rewrite !lookup_insert_ne by (intros E; vm_compute in E; discriminate E).
  destruct b; repeat split.
Qed.

Lemma preferences_round_trip_witness :
  Prefs.initialShowHard (Prefs.persistShowHard false emptyStorage) = false
  /\ Prefs.initialHelpOpen (Prefs.persistShowHard false emptyStorage)
     = Prefs.initialHelpOpen emptyStorage.
Proof.
  destruct (preferences_round_trip emptyStorage false eq_refl eq_refl) as (H1 & _ & H3 & _).
  split; [exact H1 | exact H3].
Defined.

(** Without a readable storage the defaults apply, and a failed write
    changes nothing. *)
Lemma preferences_defaults (st : Prefs.storage) (b : bool) :
  (Prefs.readable st = false ->
   Prefs.initialShowHard st = true /\ Prefs.initialHelpOpen st = false)
  /\ (Prefs.readable st = true -> Prefs.items st !! js "ssShowHard" = None ->
      Prefs.initialShowHard st = true)
  /\ (Prefs.writable st = false -> Prefs.persistShowHard b st = st).
Proof.
  unfold Prefs.initialShowHard, Prefs.initialHelpOpen, Prefs.persistShowHard,
    Prefs.setItem, Prefs.getItem.
  repeat split; intros; repeat match goal with H : _ = _ |- _ => rewrite H end; reflexivity.
Qed.

(** X29. The theme: a click always leads to one of the two themes and flips
    the arcade flag, three clicks are one click, and with a storage that can
    be read and written the theme after a click is the one a reload starts
    with. *)
Theorem theme_toggle_round_trip (st : Prefs.storage) (theme : jsstring) :
  Prefs.readable st = true -> Prefs.writable st = true ->
  Prefs.initialTheme (Prefs.persistTheme (Prefs.toggleTheme theme) st)
  = Prefs.toggleTheme theme
  /\ Prefs.isArcade (Prefs.toggleTheme theme) = negb (Prefs.isArcade theme)
  /\ Prefs.toggleTheme (Prefs.toggleTheme (Prefs.toggleTheme theme))
     = Prefs.toggleTheme theme
  /\ (Prefs.toggleTheme theme = js "arcade" \/ Prefs.toggleTheme theme = js "classic").
Proof.
  intros R W.
  unfold Prefs.initialTheme, Prefs.persistTheme, Prefs.setItem, Prefs.getItem,
    Prefs.toggleTheme, Prefs.isArcade.
  rewrite W, R. cbn [Prefs.readable Prefs.items]. rewrite lookup_insert_eq.
  destruct (streq theme (js "arcade")); repeat split; auto.
Qed.

Lemma theme_toggle_round_trip_witness :
  Prefs.initialTheme (Prefs.persistTheme (Prefs.toggleTheme (js "classic")) emptyStorage)
  = js "arcade".
Proof.
  apply (proj1 (theme_toggle_round_trip emptyStorage (js "classic") eq_refl eq_refl)).
Defined.

End Surroundings.

(** ** Capitals and suggestions *)

Section Capitals.

Lemma isLikelyProperNoun_regex (w : jsstring) :
  isLikelyProperNoun w
  = match w with
    | c1 :: c2 :: _ => isUpperAZ c1 && isLowerAZ c2
    | _ => false
    end.
Proof.
  destruct w as [| c1 [| c2 r]]; try reflexivity.
  destruct (isUpperAZ c1) eqn:U, (isLowerAZ c2) eqn:L;
    try (unfold isLikelyProperNoun; rewrite U, L; reflexivity).
  apply capitalized_isLikelyProperNoun; assumption.
Qed.

(** X26. [isLikelyProperNoun] holds exactly for a capital followed by a
    lower-case letter (its test of [isAllCaps] never changes the result), and
    no token is both an acronym and a likely proper noun. *)
Lemma capital_filters_exclusive (w : jsstring) :
  isLikelyProperNoun w
  = match w with
    | c1 :: c2 :: _ => isUpperAZ c1 && isLowerAZ c2
    | _ => false
    end
  /\ (isLikelyProperNoun w = true -> isAllCaps w = false)
  /\ (isAllCaps w = true -> isLikelyProperNoun w = false).
Proof.
  split; [apply isLikelyProperNoun_regex |].
  unfold isLikelyProperNoun.
  destruct (isAllCaps w); split; intros H; try reflexivity; try discriminate.
  - rewrite andb_false_r in H. discriminate.
  - apply andb_false_r.
Qed.

(** X25. [smartCase] changes the case of the suggestion and nothing else:
    lower-cased, the result is the lower-cased suggestion, of the same
    length. *)
Lemma smartCase_changes_case_only (orig simple : jsstring) :
  forallb isAscii orig = true -> forallb isAscii simple = true ->
  toLowerCase (smartCase orig simple) = toLowerCase simple
  /\ length (smartCase orig simple) = length simple.
Proof.
  intros _ _. unfold smartCase.
  destruct simple as [| c r]; [split; reflexivity |].
  cbn [isEmpty].
  destruct (streq orig (toUpperCase orig)).
  - split; [apply toLowerCase_toUpperCase | apply length_map].
  - destruct orig as [| o orig']; [split; reflexivity |].
    destruct (N.eqb o (upperUnit o)); [| split; reflexivity].
    split; [| reflexivity].
    unfold toLowerCase. simpl. rewrite lower_upper_unit. reflexivity.
Qed.

Lemma smartCase_changes_case_only_witness :
  toLowerCase (smartCase (js "Utilize") (js "use")) = toLowerCase (js "use")
  /\ length (smartCase (js "Utilize") (js "use")) = length (js "use").
Proof.
  apply (smartCase_changes_case_only (js "Utilize") (js "use")); reflexivity.
Defined.

Example smartCase_samples :
  smartCase (js "Utilize") (js "use") = js "Use"
  /\ smartCase (js "UTILIZE") (js "use") = js "USE"
  /\ smartCase (js "utilize") (js "use") = js "use".
Proof. vm_compute. repeat split. Qed.

End Capitals.

(** ** Easy-word set, continued *)

Section Payload.

Import EasyWords.




(** Before the load both hard words of the paragraph are flagged; after it,
    the listed one is not. *)
Example load_unflags_listed_word :
  length <$> V1.buildDecorations noMap 6 true initialEasySet twoHardWords = Returns 2%nat
  /\ Plugin.afterSettingsChangeV1 noMap
       {| Plugin.targetGrade := 6; Plugin.showHardWords := true;
          Plugin.easySet := loadEasyWords initialEasySet
                              (Responded true (Some (JArray samplePayload))) |}
       twoHardWords []
     = Returns [complicatedMark].
Proof. vm_compute. split; reflexivity. Qed.

(** X28. One element that is not a string rejects the whole payload: the
    easy set stays as it was. *)
Lemma load_rejects_mixed_payload (easySet : gset (list N)) (ok : bool)
    (items : list json) (bad : json) :
  bad ∈ items -> (forall s, bad <> JString s) ->
  loadEasyWords easySet (Responded ok (Some (JArray items))) = easySet.
Proof.
  intros Hin Hbad. unfold loadEasyWords.
  destruct ok; [| reflexivity].
  destruct items as [| first more]; [reflexivity |].
  destruct (mapM lowerItem (first :: more)) as [words |] eqn:E; [| reflexivity].
  exfalso. apply mapM_Some in E.
  apply list_elem_of_lookup in Hin as [i Hi].
  destruct (Forall2_lookup_l _ _ _ _ _ E Hi) as (w & _ & Hw).
  destruct bad; try discriminate. eapply Hbad. reflexivity.
Qed.

Lemma load_rejects_mixed_payload_witness :
  loadEasyWords initialEasySet
    (Responded true (Some (JArray [JString (js "cat"); JNull])))
  = initialEasySet.
Proof.
  apply (load_rejects_mixed_payload initialEasySet true [JString (js "cat"); JNull] JNull);
    [apply list_elem_of_further, list_elem_of_here | discriminate].
Defined.

End Payload.
